(** * Reqline: the parser of [src/endpoints/reqline/index.js]

    A shallow embedding of the reqline endpoint: the segmenter
    [splitByPipes], the keyword check [ensureSingleSpaceAfterKeyword], the
    section decoder [parseJSONStrict], the URL builder [buildQueryString] /
    [constructFullURL], the assembler [parseReqline] and the request
    [handler], followed by the properties of the specification that they
    satisfy or break.

    Conventions of the model.
    - A JavaScript string is a [string]: a sequence of 8-bit code units.
    - Indices are JavaScript numbers holding integers; they are [Z], so that
      [i - 1] can be negative exactly as in the source.
    - [throw new Error(m)] is [Throw m]; a function that may throw returns a
      [result].  An error is known by its message, which is all that the
      endpoint reads of it.
    - The built-ins of the host ([JSON.parse], [String], [encodeURIComponent],
      [toUpperCase]) are the interface [JSRuntime]; those that can throw
      return a [result].  A reference instance is given for evaluation. *)

From Stdlib Require Import ZArith NArith List String Ascii Bool Lia.
From Stdlib Require Import DecimalString Permutation Sorted.
Import ListNotations.

Open Scope string_scope.
Open Scope Z_scope.

(** ** Results and exceptions *)

Inductive result (A : Type) : Type :=
| Return (a : A)
| Throw (message : string).

Arguments Return {A} a.
Arguments Throw {A} message.

Definition bind {A B : Type} (r : result A) (k : A -> result B) : result B :=
  match r with
  | Return a => k a
  | Throw m => Throw m
  end.

Notation "'let*' x ':=' r 'in' k" := (bind r (fun x => k))
  (at level 10, x pattern, r at level 100, k at level 200).

(** ** JavaScript values

    The values that flow through the endpoint: what [JSON.parse] returns, the
    request body, what the HTTP client resolves to or rejects with, and the
    response the handler builds.  An object carries its own properties in
    creation order, keys unique. *)

#[warning="-register-all"]
Inductive JSValue : Type :=
| JUndefined
| JNull
| JBool (b : bool)
| JNumber (n : Z)
| JString (s : string)
| JArray (elems : list JSValue)
| JObject (props : list (string * JSValue)).

(** Truthiness, as used by [!x], [x || y] and [x && y]. *)
Definition truthy (v : JSValue) : bool :=
  match v with
  | JUndefined | JNull => false
  | JBool b => b
  | JNumber n => negb (n =? 0)
  | JString s => negb (String.eqb s "")
  | JArray _ | JObject _ => true
  end.

Definition js_or (a b : JSValue) : JSValue := if truthy a then a else b.
Definition js_and (a b : JSValue) : JSValue := if truthy a then b else a.

(** ** Strings *)

Definition strlen (s : string) : Z := Z.of_nat (String.length s).

(** [s[i]]: [None] stands for [undefined]. *)
Definition char_at (s : string) (i : Z) : option ascii :=
  if i <? 0 then None else String.get (Z.to_nat i) s.

Definition is_char (o : option ascii) (c : ascii) : bool :=
  match o with
  | Some d => Ascii.eqb d c
  | None => false
  end.

Definition clamp (len i : Z) : Z := Z.max 0 (Z.min i len).

(** [s.substring(start, end)]: both bounds are clamped to the string and
    swapped when [start > end]. *)
Definition substring (s : string) (start end_ : Z) : string :=
  let a := clamp (strlen s) start in
  let b := clamp (strlen s) end_ in
  String.substring (Z.to_nat (Z.min a b)) (Z.to_nat (Z.max a b - Z.min a b)) s.

(** [s.substring(start)]. *)
Definition substring_from (s : string) (start : Z) : string :=
  substring s start (strlen s).

(** [s.slice(start, end)]: a negative bound counts from the end; nothing is
    swapped. *)
Definition slice_bound (len i : Z) : Z :=
  if i <? 0 then Z.max (len + i) 0 else Z.min i len.

Definition slice (s : string) (start end_ : Z) : string :=
  let a := slice_bound (strlen s) start in
  let b := slice_bound (strlen s) end_ in
  String.substring (Z.to_nat a) (Z.to_nat (Z.max (b - a) 0)) s.

(** [s.slice(start)]. *)
Definition slice_from (s : string) (start : Z) : string :=
  slice s start (strlen s).

Fixpoint starts_with (pat s : string) : bool :=
  match pat, s with
  | EmptyString, _ => true
  | String _ _, EmptyString => false
  | String a pat', String b s' => Ascii.eqb a b && starts_with pat' s'
  end.

Fixpoint indexOf_at (pat s : string) (i : Z) : Z :=
  if starts_with pat s then i
  else match s with
       | EmptyString => -1
       | String _ s' => indexOf_at pat s' (i + 1)
       end.

(** The character [c] occurs in [s]. *)
Fixpoint has_char (c : ascii) (s : string) : bool :=
  match s with
  | EmptyString => false
  | String d s' => Ascii.eqb d c || has_char c s'
  end.

(** [s.indexOf(pat)]. *)
Definition indexOf (s pat : string) : Z := indexOf_at pat s 0.

(** [array.indexOf(x)] on an array of strings. *)
Fixpoint array_indexOf_at (l : list string) (x : string) (i : Z) : Z :=
  match l with
  | [] => -1
  | y :: l' => if String.eqb y x then i else array_indexOf_at l' x (i + 1)
  end.

Definition array_indexOf (l : list string) (x : string) : Z :=
  array_indexOf_at l x 0.

(** [parts.join(sep)]. *)
Fixpoint join (sep : string) (parts : list string) : string :=
  match parts with
  | [] => ""
  | [p] => p
  | p :: rest => p ++ sep ++ join sep rest
  end.

(** ** The error messages of the endpoint *)

Definition InvalidInput : string := "Invalid reqline input".
Definition MissingHTTPKeyword : string := "Missing required HTTP keyword".
Definition MissingURLKeyword : string := "Missing required URL keyword".
Definition MultipleSpaces : string :=
  "Multiple spaces found where single space expected".
Definition PipeSpacing : string := "Invalid spacing around pipe delimiter".
Definition MissingSpaceAfterKeyword : string := "Missing space after keyword".
Definition KeywordsUppercase : string := "Keywords must be uppercase".
Definition MethodUppercase : string := "HTTP method must be uppercase".
Definition InvalidMethod : string :=
  "Invalid HTTP method. Only GET and POST are supported".
Definition DuplicateSection (keyword : string) : string :=
  "Duplicate section " ++ keyword.
Definition InvalidJSON (sectionName : string) : string :=
  "Invalid JSON format in " ++ sectionName ++ " section".

(** ** The segmenter *)

(** The body of the [for] loop of [splitByPipes]; [n] counts the iterations
    that remain, [i] is the loop index. *)
Fixpoint scan_pipes (statement : string) (n : nat) (i tokenStartIndex : Z)
  (segments : list string) : result (Z * list string) :=
  match n with
  | O => Return (tokenStartIndex, segments)
  | S n' =>
      if is_char (char_at statement i) "|" then
        let beforeIndex := i - 1 in
        let afterIndex := i + 1 in
        let beforeBeforeIndex := i - 2 in
        let afterAfterIndex := i + 2 in
        if (beforeIndex <? 0)
           || (afterIndex >=? strlen statement)
           || negb (is_char (char_at statement beforeIndex) " ")
           || negb (is_char (char_at statement afterIndex) " ")
           || ((beforeBeforeIndex >=? 0)
               && is_char (char_at statement beforeBeforeIndex) " ")
           || ((afterAfterIndex <? strlen statement)
               && is_char (char_at statement afterAfterIndex) " ")
        then Throw PipeSpacing
        else
          let segment := substring statement tokenStartIndex beforeIndex in
          if strlen segment =? 0 then Throw PipeSpacing
          else scan_pipes statement n' (i + 1) (i + 2) (segments ++ [segment])%list
      else scan_pipes statement n' (i + 1) tokenStartIndex segments
  end.

Definition splitByPipes (statement : JSValue) : result (list string) :=
  match statement with
  | JString statement =>
      if strlen statement =? 0 then Throw MissingHTTPKeyword
      else if is_char (char_at statement 0) " "
              || is_char (char_at statement (strlen statement - 1)) " "
      then Throw MultipleSpaces
      else
        let* (tokenStartIndex, segments) :=
          scan_pipes statement (String.length statement) 0 0 [] in
        let lastSegment := substring_from statement tokenStartIndex in
        if strlen lastSegment =? 0 then Throw PipeSpacing
        else Return (segments ++ [lastSegment])%list
  | _ => Throw InvalidInput
  end.

(** ** Own property keys

    [Object.keys] lists the own enumerable string keys of an object in the
    order of the language: the keys that are array indices (canonical decimal
    numerals below 2^32 - 1) in ascending numeric order, then every other key
    in the order in which it was created. *)

Definition digit_of (c : ascii) : option N :=
  let n := N_of_ascii c in
  if ((48 <=? n) && (n <=? 57))%N then Some (n - 48)%N else None.

Fixpoint digits_to_N (s : string) (acc : N) : option N :=
  match s with
  | EmptyString => Some acc
  | String c s' =>
      match digit_of c with
      | Some d => digits_to_N s' (10 * acc + d)%N
      | None => None
      end
  end.

Definition N_to_string (n : N) : string := NilZero.string_of_uint (N.to_uint n).

Definition array_index (key : string) : option N :=
  match key with
  | EmptyString => None
  | _ =>
      match digits_to_N key 0 with
      | Some n =>
          if String.eqb (N_to_string n) key && (n <? 4294967295)%N
          then Some n else None
      | None => None
      end
  end.

Definition is_array_index (key : string) : bool :=
  match array_index key with Some _ => true | None => false end.

Fixpoint insert_index {A : Type} (e : N * A) (l : list (N * A))
  : list (N * A) :=
  match l with
  | [] => [e]
  | x :: l' => if (fst e <=? fst x)%N then e :: l else x :: insert_index e l'
  end.

Definition sort_indices {A : Type} (l : list (N * A)) : list (N * A) :=
  fold_right insert_index [] l.

Fixpoint index_keys (keys : list string) : list (N * string) :=
  match keys with
  | [] => []
  | k :: keys' =>
      match array_index k with
      | Some n => (n, k) :: index_keys keys'
      | None => index_keys keys'
      end
  end.

Definition own_keys (props : list (string * JSValue)) : list string :=
  (map snd (sort_indices (index_keys (map fst props)))
   ++ filter (fun k => negb (is_array_index k)) (map fst props))%list.

Definition index_names (n : nat) : list string :=
  map (fun i => N_to_string (N.of_nat i)) (seq 0 n).

(** [Object.keys(v)].  A primitive number or boolean has no own keys; a
    string and an array have their indices.  The source never passes
    [undefined] or [null] (it writes [queryObject || {}]). *)
Definition Object_keys (v : JSValue) : list string :=
  match v with
  | JObject props => own_keys props
  | JArray elems => index_names (List.length elems)
  | JString s => index_names (String.length s)
  | _ => []
  end.

Fixpoint lookup (props : list (string * JSValue)) (key : string)
  : option JSValue :=
  match props with
  | [] => None
  | (k, v) :: props' => if String.eqb k key then Some v else lookup props' key
  end.

(** [v[key]] and [v.key] for a value [v] other than [undefined] and [null]:
    the own property, [undefined] when there is none (none of the keys that
    the source reads is inherited).  On [undefined] and [null] the read
    throws, see [read_property]. *)
Definition js_get (v : JSValue) (key : string) : JSValue :=
  match v with
  | JObject props =>
      match lookup props key with Some x => x | None => JUndefined end
  | JArray elems =>
      match array_index key with
      | Some n => nth (N.to_nat n) elems JUndefined
      | None =>
          if String.eqb key "length"
          then JNumber (Z.of_nat (List.length elems)) else JUndefined
      end
  | JString s =>
      match array_index key with
      | Some n =>
          match String.get (N.to_nat n) s with
          | Some c => JString (String c EmptyString)
          | None => JUndefined
          end
      | None =>
          if String.eqb key "length" then JNumber (strlen s) else JUndefined
      end
  | _ => JUndefined
  end.

(** ** The built-ins of the host *)

Definition is_ascii_char (c : ascii) : bool := (N_of_ascii c <? 128)%N.

Fixpoint is_ascii (s : string) : bool :=
  match s with
  | EmptyString => true
  | String c s' => is_ascii_char c && is_ascii s'
  end.

Definition ascii_upper_char (c : ascii) : ascii :=
  let n := N_of_ascii c in
  if ((97 <=? n) && (n <=? 122))%N then ascii_of_N (n - 32) else c.

Fixpoint ascii_upper (s : string) : string :=
  match s with
  | EmptyString => EmptyString
  | String c s' => String (ascii_upper_char c) (ascii_upper s')
  end.

(** [JSON.parse] (a [SyntaxError] is a [Throw]), [String(v)] (a [TypeError]
    when [v] is an object that cannot be converted to a primitive),
    [encodeURIComponent] (a [URIError] on a lone surrogate),
    [String.prototype.toUpperCase], and the message of the [TypeError] that
    reading the property [key] of [undefined] or [null] throws; with the two
    facts about them that the proofs use: [String] is the identity on a
    string, and on ASCII text [toUpperCase] maps [a-z] to [A-Z] and nothing
    else. *)
Class JSRuntime : Type := {
  JSON_parse : string -> result JSValue;
  ToString : JSValue -> result string;
  encodeURIComponent : string -> result string;
  toUpperCase : string -> string;
  TypeError_property : JSValue -> string -> string;
  ToString_string : forall s, ToString (JString s) = Return s;
  toUpperCase_ascii : forall s, is_ascii s = true -> toUpperCase s = ascii_upper s
}.

(** [for (...) { parts.push(f(x)) }]: the first error leaves the loop. *)
Fixpoint for_each {A B : Type} (f : A -> result B) (l : list A)
  : result (list B) :=
  match l with
  | [] => Return []
  | a :: l' =>
      let* b := f a in
      let* bs := for_each f l' in
      Return (b :: bs)
  end.

Section Parser.

Context `{JSRuntime}.

(** ** The keyword extractor *)

Definition ensureSingleSpaceAfterKeyword (segment keyword : string)
  : result bool :=
  if negb (indexOf segment keyword =? 0) then Return false
  else
    let expectedPrefix := keyword ++ " " in
    if negb (String.eqb (slice segment 0 (strlen expectedPrefix)) expectedPrefix)
    then Return false
    else if strlen segment =? strlen expectedPrefix
    then Throw MissingSpaceAfterKeyword
    else if is_char (char_at segment (strlen expectedPrefix)) " "
    then Throw MultipleSpaces
    else Return true.

(** ** The section decoder *)

Definition parseJSONStrict (jsonString sectionName : string) : result JSValue :=
  match JSON_parse jsonString with
  | Return v => Return v
  | Throw e =>
      if String.eqb sectionName "HEADERS" then Throw (InvalidJSON "HEADERS")
      else if String.eqb sectionName "QUERY" then Throw (InvalidJSON "QUERY")
      else if String.eqb sectionName "BODY" then Throw (InvalidJSON "BODY")
      else Throw e
  end.

(** ** The URL builder *)

(** The body of the loop of [buildQueryString]: [String] and
    [encodeURIComponent] are called in the order of the source, and an error
    of either leaves the function. *)
Definition query_part (queryObject : JSValue) (key : string) : result string :=
  let value := js_get queryObject key in
  let* keyText := ToString (JString key) in
  let* encodedKey := encodeURIComponent keyText in
  let* valueText := ToString value in
  let* encodedValue := encodeURIComponent valueText in
  Return (encodedKey ++ "=" ++ encodedValue).

Definition buildQueryString (queryObject : JSValue) : result string :=
  let keys := Object_keys (js_or queryObject (JObject [])) in
  if Z.of_nat (List.length keys) =? 0 then Return ""
  else
    let* parts := for_each (query_part queryObject) keys in
    Return (join "&" parts).

Definition constructFullURL (baseURL : string) (queryObject : JSValue)
  : result string :=
  let* queryString := buildQueryString queryObject in
  if String.eqb queryString "" then Return baseURL
  else
    let hasQuery := negb (indexOf baseURL "?" =? -1) in
    Return (baseURL ++ (if hasQuery then "&" else "?") ++ queryString).

(** ** The assembler *)

Record Descriptor : Type := {
  method : string;
  url : string;
  headers : JSValue;
  query : JSValue;
  body : JSValue;
  full_url : string
}.

(** The variables of [parseReqline] that its loop updates; [seen] holds the
    keys set to [true] in the [seen] object. *)
Record Locals : Type := {
  seen : list string;
  httpMethod : string;
  baseURL : string;
  l_headers : JSValue;
  l_query : JSValue;
  l_body : JSValue
}.

Definition allowedKeywords : list string :=
  ["HTTP"; "URL"; "HEADERS"; "QUERY"; "BODY"].

Definition initial_locals : Locals :=
  {| seen := []; httpMethod := ""; baseURL := "";
     l_headers := JObject []; l_query := JObject []; l_body := JObject [] |}.

Definition is_seen (st : Locals) (keyword : string) : bool :=
  existsb (String.eqb keyword) (seen st).

(** [!segment || segment.slice(0, n) !== keyword], where [segment] is
    [segments[k]], [undefined] past the end of the array. *)
Definition not_section (segment : option string) (n : Z) (keyword : string)
  : bool :=
  match segment with
  | None => true
  | Some s => String.eqb s "" || negb (String.eqb (slice s 0 n) keyword)
  end.

(** One iteration of the loop over the segments. *)
Definition parse_segment (st : Locals) (segment : string) : result Locals :=
  let firstSpaceIndex := indexOf segment " " in
  if firstSpaceIndex =? -1 then Throw MissingSpaceAfterKeyword
  else
    let keyword := slice segment 0 firstSpaceIndex in
    let value := slice_from segment (firstSpaceIndex + 1) in
    if negb (String.eqb keyword (toUpperCase keyword))
    then Throw KeywordsUppercase
    else if array_indexOf allowedKeywords keyword =? -1
    then Throw KeywordsUppercase
    else if is_seen st keyword then Throw (DuplicateSection keyword)
    else
      let seen' := keyword :: seen st in
      let* _ := ensureSingleSpaceAfterKeyword segment keyword in
      if String.eqb keyword "HTTP" then
        if negb (String.eqb value (toUpperCase value))
        then Throw MethodUppercase
        else if negb (String.eqb value "GET") && negb (String.eqb value "POST")
        then Throw InvalidMethod
        else Return {| seen := seen'; httpMethod := value;
                       baseURL := baseURL st; l_headers := l_headers st;
                       l_query := l_query st; l_body := l_body st |}
      else if String.eqb keyword "URL" then
        Return {| seen := seen'; httpMethod := httpMethod st;
                  baseURL := value; l_headers := l_headers st;
                  l_query := l_query st; l_body := l_body st |}
      else if String.eqb keyword "HEADERS" then
        let* v := parseJSONStrict value "HEADERS" in
        Return {| seen := seen'; httpMethod := httpMethod st;
                  baseURL := baseURL st; l_headers := v;
                  l_query := l_query st; l_body := l_body st |}
      else if String.eqb keyword "QUERY" then
        let* v := parseJSONStrict value "QUERY" in
        Return {| seen := seen'; httpMethod := httpMethod st;
                  baseURL := baseURL st; l_headers := l_headers st;
                  l_query := v; l_body := l_body st |}
      else if String.eqb keyword "BODY" then
        let* v := parseJSONStrict value "BODY" in
        Return {| seen := seen'; httpMethod := httpMethod st;
                  baseURL := baseURL st; l_headers := l_headers st;
                  l_query := l_query st; l_body := v |}
      else
        Return {| seen := seen'; httpMethod := httpMethod st;
                  baseURL := baseURL st; l_headers := l_headers st;
                  l_query := l_query st; l_body := l_body st |}.

Fixpoint parse_segments (st : Locals) (segments : list string) : result Locals :=
  match segments with
  | [] => Return st
  | segment :: rest =>
      let* st' := parse_segment st segment in
      parse_segments st' rest
  end.

Definition parseReqline (statement : JSValue) : result Descriptor :=
  let* segments := splitByPipes statement in
  if not_section (nth_error segments 0) 4 "HTTP" then Throw MissingHTTPKeyword
  else if not_section (nth_error segments 1) 3 "URL" then Throw MissingURLKeyword
  else
    let* st := parse_segments initial_locals segments in
    let* fullURL := constructFullURL (baseURL st) (l_query st) in
    Return {| method := httpMethod st; url := baseURL st;
              headers := l_headers st; query := l_query st;
              body := l_body st; full_url := fullURL |}.

(** ** The vocabulary of the properties, over the runtime *)

(** What a section stores, as a relation between the variables before and
    after it. *)
Inductive stores (st : Locals) : string -> string -> Locals -> Prop :=
| stores_HTTP (v : string) :
    v = "GET" \/ v = "POST" ->
    stores st "HTTP" v
      {| seen := "HTTP" :: seen st; httpMethod := v; baseURL := baseURL st;
         l_headers := l_headers st; l_query := l_query st; l_body := l_body st |}
| stores_URL (v : string) :
    stores st "URL" v
      {| seen := "URL" :: seen st; httpMethod := httpMethod st; baseURL := v;
         l_headers := l_headers st; l_query := l_query st; l_body := l_body st |}
| stores_HEADERS (v : string) (j : JSValue) :
    JSON_parse v = Return j ->
    stores st "HEADERS" v
      {| seen := "HEADERS" :: seen st; httpMethod := httpMethod st;
         baseURL := baseURL st;
         l_headers := j; l_query := l_query st; l_body := l_body st |}
| stores_QUERY (v : string) (j : JSValue) :
    JSON_parse v = Return j ->
    stores st "QUERY" v
      {| seen := "QUERY" :: seen st; httpMethod := httpMethod st;
         baseURL := baseURL st;
         l_headers := l_headers st; l_query := j; l_body := l_body st |}
| stores_BODY (v : string) (j : JSValue) :
    JSON_parse v = Return j ->
    stores st "BODY" v
      {| seen := "BODY" :: seen st; httpMethod := httpMethod st;
         baseURL := baseURL st;
         l_headers := l_headers st; l_query := l_query st; l_body := j |}.

(** What a section leaves in its variable: the text itself for [HTTP] and
    [URL], the decoded JSON value for the other three. *)
Definition decoded (k v : string) (j : JSValue) : Prop :=
  if String.eqb k "HTTP" || String.eqb k "URL" then j = JString v
  else JSON_parse v = Return j.

(** The serialisation of one entry and the URL builder, as the specification
    words them: [spec_fullURL baseUrl entries] serialises the entries in the
    order in which they are given.  Where the percent-encoding or [String]
    has no result for an entry, the error of the first such entry is the
    outcome. *)
Definition spec_pair (e : string * JSValue) : result string :=
  let* encodedKey := encodeURIComponent (fst e) in
  let* valueText := ToString (snd e) in
  let* encodedValue := encodeURIComponent valueText in
  Return (encodedKey ++ "=" ++ encodedValue).

Definition spec_fullURL (baseUrl : string) (entries : list (string * JSValue))
  : result string :=
  match entries with
  | [] => Return baseUrl
  | _ :: _ =>
      let* pairs := for_each spec_pair entries in
      Return (baseUrl ++ (if has_char "?" baseUrl then "&" else "?")
              ++ join "&" pairs)
  end.

End Parser.

(** ** The request handler

    The two collaborators of the handler are the HTTP client and the clock.
    A call of the client resolves to a value, of which the handler reads
    [statusCode] and [data], or rejects with a value, of which it reads
    [context] and [message] (to [await] inside a [try], a call that throws
    and a promise that rejects are the same).  Either value is any
    [JSValue]: nothing in the handler makes the client resolve to an object
    or reject with an [Error], and [undefined] and [null] are among them. *)

Inductive HttpOutcome : Type :=
| Resolved (res : JSValue)
| Rejected (e : JSValue).

Inductive HttpCall : Type :=
| CallGet (url : string) (options : JSValue)
| CallPost (url : string) (payload options : JSValue).

(** [Date_now k] is what the [k]-th reading of the clock returns. *)
Record Host : Type := {
  HttpRequest_get : string -> JSValue -> HttpOutcome;
  HttpRequest_post : string -> JSValue -> JSValue -> HttpOutcome;
  Date_now : nat -> Z
}.

Record Response : Type := { status : Z; data : JSValue }.

(** What a run of the handler did: the calls it made to the HTTP client, in
    order, and the response it returned. *)
Record Run : Type := { calls : list HttpCall; response : Response }.

Definition typeof (v : JSValue) : string :=
  match v with
  | JUndefined => "undefined"
  | JNull => "object"
  | JBool _ => "boolean"
  | JNumber _ => "number"
  | JString _ => "string"
  | JArray _ | JObject _ => "object"
  end.

Definition error_data (message : JSValue) : JSValue :=
  JObject [("error", JBool true); ("message", message)].

(** The [Error] object that the host throws, as far as the handler reads
    it: its [message]; it has no [context]. *)
Definition Error_object (message : string) : JSValue :=
  JObject [("message", JString message)].

Definition GenericFailure : string :=
  "Some error occured. Please check your reqline statement".

(** [rc.body && rc.body.reqline]. *)
Definition reqline_of (rc_body : JSValue) : JSValue :=
  if truthy rc_body then js_get rc_body "reqline" else rc_body.

Section Handler.

Context `{JSRuntime}.
Variable host : Host.

(** [v.key] where nothing has been asked of [v]: on [undefined] and [null]
    the host throws a [TypeError]. *)
Definition read_property (v : JSValue) (key : string) : result JSValue :=
  match v with
  | JUndefined | JNull => Throw (TypeError_property v key)
  | _ => Return (js_get v key)
  end.

(** The [catch] block of the inner [try]; [e] is what was thrown.  The test
    [e && ...] guards the reads of [e.context]; [e.message] is read without
    it, and only when [ctx.data] is falsy. *)
Definition catch_block (e : JSValue) : result (JSValue * JSValue) :=
  let ctx :=
    if truthy e
       && truthy (js_get e "context")
       && truthy (js_get (js_get e "context") "response")
    then js_get (js_get e "context") "response"
    else JObject [] in
  let httpStatus := js_or (js_get ctx "statusCode") (JNumber 0) in
  if truthy (js_get ctx "data") then Return (httpStatus, js_get ctx "data")
  else
    let* message := read_property e "message" in
    Return (httpStatus, error_data message).

(** The inner [try]/[catch] around the call of the client: the status and
    the data to report, or the error that leaves the [catch] block.  Reading
    [res.statusCode] of a client that resolves to [undefined] or [null]
    throws inside the [try]. *)
Definition settle (outcome : HttpOutcome) : result (JSValue * JSValue) :=
  match outcome with
  | Resolved res =>
      match read_property res "statusCode" with
      | Return statusCode => Return (statusCode, js_get res "data")
      | Throw message => catch_block (Error_object message)
      end
  | Rejected e => catch_block e
  end.

(** The handler.  Its outer [catch] answers 400 with the message of
    whatever was thrown inside the [try]: by the parser, or by the [catch]
    block of the inner [try], after the call. *)
Definition handler (rc_body : JSValue) : Run :=
  let reqline := reqline_of rc_body in
  if negb (String.eqb (typeof reqline) "string") then
    {| calls := [];
       response := {| status := 400;
                      data := error_data (JString InvalidInput) |} |}
  else
    match parseReqline reqline with
    | Throw message =>
        {| calls := [];
           response :=
             {| status := 400;
                data :=
                  error_data (js_or (JString message) (JString GenericFailure)) |} |}
    | Return parsed =>
        let requestStart := Date_now host 0 in
        let '(made, settled) :=
          if String.eqb (method parsed) "GET" then
            let options := JObject [("headers", headers parsed)] in
            ([CallGet (full_url parsed) options],
             settle (HttpRequest_get host (full_url parsed) options))
          else if String.eqb (method parsed) "POST" then
            let options := JObject [("headers", headers parsed)] in
            ([CallPost (full_url parsed) (body parsed) options],
             settle (HttpRequest_post host (full_url parsed) (body parsed) options))
          else ([], Return (JNumber 0, JNull)) in
        match settled with
        | Throw message =>
            {| calls := made;
               response :=
                 {| status := 400;
                    data :=
                      error_data
                        (js_or (JString message) (JString GenericFailure)) |} |}
        | Return (httpStatus, responseData) =>
            let requestStop := Date_now host 1 in
            let duration := requestStop - requestStart in
            {| calls := made;
               response :=
                 {| status := 200;
                    data :=
                      JObject
                        [("request",
                          JObject
                            [("query", js_or (query parsed) (JObject []));
                             ("body", js_or (body parsed) (JObject []));
                             ("headers", js_or (headers parsed) (JObject []));
                             ("full_url", JString (full_url parsed))]);
                         ("response",
                          JObject
                            [("http_status", httpStatus);
                             ("duration", JNumber duration);
                             ("request_start_timestamp", JNumber requestStart);
                             ("request_stop_timestamp", JNumber requestStop);
                             ("response_data", responseData)])] |} |}
        end
    end.

End Handler.

(** ** A reference runtime

    An executable instance of [JSRuntime], used only to evaluate the endpoint
    on concrete statements; the general theorems hold for every runtime.  It
    agrees with the host on the texts of those statements and is narrower
    elsewhere: its [JSON.parse] reads the JSON grammar over 8-bit text with
    integer numerals (a fraction or an exponent is refused, as is a [\u]
    escape above [00ff], and an integer beyond 2^53 is not rounded); its
    [String] prints integers in decimal and throws on an object that has an
    own [toString] property, which in a decoded JSON value is never callable;
    its [toUpperCase] is the one of ASCII text; its [encodeURIComponent]
    never throws, there being no surrogate among 8-bit code units. *)

Module Reference.

Definition dquote : ascii := ascii_of_nat 34.
Definition backslash : ascii := ascii_of_nat 92.

Definition is_ws (c : ascii) : bool :=
  let n := N_of_ascii c in
  ((n =? 32) || (n =? 9) || (n =? 10) || (n =? 13))%N.

Fixpoint skip_ws (s : string) : string :=
  match s with
  | String c s' => if is_ws c then skip_ws s' else s
  | EmptyString => s
  end.

Definition hex_of (c : ascii) : option N :=
  let n := N_of_ascii c in
  if ((48 <=? n) && (n <=? 57))%N then Some (n - 48)%N
  else if ((65 <=? n) && (n <=? 70))%N then Some (n - 55)%N
  else if ((97 <=? n) && (n <=? 102))%N then Some (n - 87)%N
  else None.

Definition unicode_escape (s : string) : option (ascii * string) :=
  match s with
  | String a (String b (String c (String d rest))) =>
      match hex_of a, hex_of b, hex_of c, hex_of d with
      | Some x3, Some x2, Some x1, Some x0 =>
          let code := (((x3 * 16 + x2) * 16 + x1) * 16 + x0)%N in
          if (code <? 256)%N then Some (ascii_of_N code, rest) else None
      | _, _, _, _ => None
      end
  | _ => None
  end.

(** The characters of a string literal, after its opening quote. *)
Fixpoint string_body (n : nat) (s acc : string) : option (string * string) :=
  match n with
  | O => None
  | S n' =>
      match s with
      | EmptyString => None
      | String c rest =>
          if Ascii.eqb c dquote then Some (acc, rest)
          else if Ascii.eqb c backslash then
            match rest with
            | EmptyString => None
            | String e rest' =>
                if Ascii.eqb e "u" then
                  match unicode_escape rest' with
                  | Some (x, rest'') =>
                      string_body n' rest'' (acc ++ String x EmptyString)
                  | None => None
                  end
                else
                  let plain (x : ascii) :=
                    string_body n' rest' (acc ++ String x EmptyString) in
                  if Ascii.eqb e dquote then plain dquote
                  else if Ascii.eqb e backslash then plain backslash
                  else if Ascii.eqb e "/" then plain "/"%char
                  else if Ascii.eqb e "b" then plain (ascii_of_nat 8)
                  else if Ascii.eqb e "f" then plain (ascii_of_nat 12)
                  else if Ascii.eqb e "n" then plain (ascii_of_nat 10)
                  else if Ascii.eqb e "r" then plain (ascii_of_nat 13)
                  else if Ascii.eqb e "t" then plain (ascii_of_nat 9)
                  else None
            end
          else if (N_of_ascii c <? 32)%N then None
          else string_body n' rest (acc ++ String c EmptyString)
      end
  end.

Fixpoint digits (s : string) (acc : N) : N * string :=
  match s with
  | String c rest =>
      match digit_of c with
      | Some d => digits rest (10 * acc + d)%N
      | None => (acc, s)
      end
  | EmptyString => (acc, s)
  end.

(** An integer numeral: [0] or a digit [1-9] followed by digits. *)
Definition numeral (s : string) : option (N * string) :=
  match s with
  | String c rest =>
      match digit_of c with
      | Some 0%N => Some (0%N, rest)
      | Some d => Some (digits rest d)
      | None => None
      end
  | EmptyString => None
  end.

Definition integer_only (r : option (N * string)) (sign : Z)
  : option (JSValue * string) :=
  match r with
  | Some (n, rest) =>
      match rest with
      | String c _ =>
          if Ascii.eqb c "." || Ascii.eqb c "e" || Ascii.eqb c "E" then None
          else Some (JNumber (sign * Z.of_N n), rest)
      | EmptyString => Some (JNumber (sign * Z.of_N n), rest)
      end
  | None => None
  end.

(** [CreateDataProperty]: a key that exists keeps its place and takes the new
    value; a new key goes last. *)
Fixpoint obj_set (props : list (string * JSValue)) (key : string) (v : JSValue)
  : list (string * JSValue) :=
  match props with
  | [] => [(key, v)]
  | (k, x) :: props' =>
      if String.eqb k key then (k, v) :: props'
      else (k, x) :: obj_set props' key v
  end.

Definition literal (word : string) (v : JSValue) (s : string)
  : option (JSValue * string) :=
  if starts_with word s
  then Some (v, String.substring (String.length word)
                  (String.length s - String.length word) s)
  else None.

Fixpoint value (fuel : nat) (s : string) : option (JSValue * string) :=
  match fuel with
  | O => None
  | S fuel' =>
      match skip_ws s with
      | EmptyString => None
      | String c rest =>
          if Ascii.eqb c "n" then literal "null" JNull (String c rest)
          else if Ascii.eqb c "t" then literal "true" (JBool true) (String c rest)
          else if Ascii.eqb c "f" then literal "false" (JBool false) (String c rest)
          else if Ascii.eqb c dquote then
            match string_body (S (String.length rest)) rest "" with
            | Some (str, rest') => Some (JString str, rest')
            | None => None
            end
          else if Ascii.eqb c "[" then
            match skip_ws rest with
            | String d rest' =>
                if Ascii.eqb d "]" then Some (JArray [], rest')
                else elements fuel' rest []
            | EmptyString => None
            end
          else if Ascii.eqb c "{" then
            match skip_ws rest with
            | String d rest' =>
                if Ascii.eqb d "}" then Some (JObject [], rest')
                else members fuel' rest []
            | EmptyString => None
            end
          else if Ascii.eqb c "-" then integer_only (numeral rest) (-1)
          else integer_only (numeral (String c rest)) 1
      end
  end
with elements (fuel : nat) (s : string) (acc : list JSValue)
  : option (JSValue * string) :=
  match fuel with
  | O => None
  | S fuel' =>
      match value fuel' s with
      | Some (v, rest) =>
          match skip_ws rest with
          | String c rest' =>
              if Ascii.eqb c "," then elements fuel' rest' (acc ++ [v])%list
              else if Ascii.eqb c "]" then Some (JArray (acc ++ [v])%list, rest')
              else None
          | EmptyString => None
          end
      | None => None
      end
  end
with members (fuel : nat) (s : string) (acc : list (string * JSValue))
  : option (JSValue * string) :=
  match fuel with
  | O => None
  | S fuel' =>
      match skip_ws s with
      | String q rest =>
          if Ascii.eqb q dquote then
            match string_body (S (String.length rest)) rest "" with
            | Some (key, rest1) =>
                match skip_ws rest1 with
                | String c rest2 =>
                    if Ascii.eqb c ":" then
                      match value fuel' rest2 with
                      | Some (v, rest3) =>
                          match skip_ws rest3 with
                          | String d rest4 =>
                              if Ascii.eqb d ","
                              then members fuel' rest4 (obj_set acc key v)
                              else if Ascii.eqb d "}"
                              then Some (JObject (obj_set acc key v), rest4)
                              else None
                          | EmptyString => None
                          end
                      | None => None
                      end
                    else None
                | EmptyString => None
                end
            | None => None
            end
          else None
      | EmptyString => None
      end
  end.

Definition SyntaxError : string := "Unexpected token in JSON".

Definition JSON_parse (text : string) : result JSValue :=
  match value (2 * String.length text + 2) text with
  | Some (v, rest) =>
      match skip_ws rest with
      | EmptyString => Return v
      | String _ _ => Throw SyntaxError
      end
  | None => Throw SyntaxError
  end.

Definition Z_to_string (n : Z) : string :=
  if n <? 0 then "-" ++ N_to_string (Z.to_N (- n)) else N_to_string (Z.to_N n).

Definition NotPrimitive : string := "Cannot convert object to primitive value".

(** [String(v)].  An array is joined by [Array.prototype.join], which
    converts each element in turn.  An object without an own [toString] is
    printed by [Object.prototype.toString]; one with an own [toString] that
    is not callable falls back on [valueOf], which either is not callable or
    is the inherited one and returns the object: a [TypeError]. *)
Fixpoint ToString (v : JSValue) : result string :=
  match v with
  | JUndefined => Return "undefined"
  | JNull => Return "null"
  | JBool b => Return (if b then "true" else "false")
  | JNumber n => Return (Z_to_string n)
  | JString s => Return s
  | JArray elems =>
      let* parts :=
        (fix each (l : list JSValue) : result (list string) :=
           match l with
           | [] => Return []
           | e :: l' =>
               let* part :=
                 match e with
                 | JUndefined | JNull => Return ""
                 | _ => ToString e
                 end in
               let* rest := each l' in
               Return (part :: rest)
           end) elems in
      Return (join "," parts)
  | JObject props =>
      match lookup props "toString" with
      | Some _ => Throw NotPrimitive
      | None => Return "[object Object]"
      end
  end.

Definition hex_digit (n : N) : ascii :=
  match String.get (N.to_nat n) "0123456789ABCDEF" with
  | Some c => c
  | None => "0"%char
  end.

Definition percent (byte : N) : string :=
  String "%" (String (hex_digit (byte / 16)) (String (hex_digit (byte mod 16)) "")).

Definition unreserved (c : ascii) : bool :=
  let n := N_of_ascii c in
  (((65 <=? n) && (n <=? 90)) || ((97 <=? n) && (n <=? 122))
   || ((48 <=? n) && (n <=? 57)))%N
  || existsb (Ascii.eqb c) (list_ascii_of_string "-_.!~*'()").

(** A code unit below 128 is one UTF-8 byte, one from 128 to 255 is two. *)
Fixpoint percent_encode (s : string) : string :=
  match s with
  | EmptyString => EmptyString
  | String c s' =>
      let n := N_of_ascii c in
      (if unreserved c then String c EmptyString
       else if (n <? 128)%N then percent n
       else percent (192 + n / 64) ++ percent (128 + n mod 64))
      ++ percent_encode s'
  end.

Definition encodeURIComponent (s : string) : result string :=
  Return (percent_encode s).

Definition toUpperCase (s : string) : string := ascii_upper s.

Definition TypeError_property (v : JSValue) (key : string) : string :=
  "Cannot read properties of "
  ++ (match v with JNull => "null" | _ => "undefined" end)
  ++ " (reading '" ++ key ++ "')".

Definition runtime : JSRuntime :=
  Build_JSRuntime JSON_parse ToString encodeURIComponent toUpperCase
    TypeError_property (fun s => eq_refl) (fun s _ => eq_refl).

End Reference.

(** ** The vocabulary of the properties *)

(** A segment that the segmenter leaves whole: not empty, no pipe, no space
    at either end. *)
Definition plain_segment (s : string) : Prop :=
  s <> ""
  /\ has_char "|" s = false
  /\ is_char (char_at s 0) " " = false
  /\ is_char (char_at s (strlen s - 1)) " " = false.

(** The keyword of a segment: the text before its first space. *)
Definition keyword_of (segment : string) : option string :=
  let firstSpaceIndex := indexOf segment " " in
  if firstSpaceIndex =? -1 then None
  else Some (slice segment 0 firstSpaceIndex).

(** A segment is the section [kw] when its keyword is [kw]. *)
Definition is_section (kw segment : string) : bool :=
  match keyword_of segment with
  | Some k => String.eqb k kw
  | None => false
  end.

Definition is_mapping (v : JSValue) : bool :=
  match v with
  | JObject _ => true
  | _ => false
  end.

(** The variable that a section keyword owns, as a value. *)
Definition slot (k : string) (st : Locals) : JSValue :=
  if String.eqb k "HTTP" then JString (httpMethod st)
  else if String.eqb k "URL" then JString (baseURL st)
  else if String.eqb k "HEADERS" then l_headers st
  else if String.eqb k "QUERY" then l_query st
  else if String.eqb k "BODY" then l_body st
  else JUndefined.

(** The own properties of an object in the order of [Object.keys]. *)
Fixpoint index_entries (props : list (string * JSValue))
  : list (N * (string * JSValue)) :=
  match props with
  | [] => []
  | e :: props' =>
      match array_index (fst e) with
      | Some n => (n, e) :: index_entries props'
      | None => index_entries props'
      end
  end.

Definition own_entries (props : list (string * JSValue))
  : list (string * JSValue) :=
  (map snd (sort_indices (index_entries props))
   ++ filter (fun e => negb (is_array_index (fst e))) props)%list.

(** [error.message || '<generic message>'], for an error with message [m]. *)
Definition message_or_generic (m : string) : string :=
  if String.eqb m "" then GenericFailure else m.

(** The body has a [reqline] field that is a string: only an object can
    (an array, a string, a number and a boolean have no such property, and
    there is no body to look into when it is [undefined] or [null]). *)
Definition has_string_reqline (rc_body : JSValue) : bool :=
  match rc_body with
  | JObject props =>
      match lookup props "reqline" with
      | Some (JString _) => true
      | _ => false
      end
  | _ => false
  end.

(** [s] between double quotes, for the JSON text of the examples. *)
Definition quoted (s : string) : string :=
  String Reference.dquote (s ++ String Reference.dquote "").

(** The error of the loop for a segment that is no section: the
    missing-space error when it has no space, the unknown-keyword error
    when its keyword is none of the five. *)
Definition near_miss_error (segment : string) : string :=
  if has_char " " segment then KeywordsUppercase else MissingSpaceAfterKeyword.

(** Both order checks of [parseReqline] pass. *)
Definition order_ok (segments : list string) : bool :=
  negb (not_section (nth_error segments 0) 4 "HTTP")
  && negb (not_section (nth_error segments 1) 3 "URL").

(** A host whose HTTP client rejects every call with [e]. *)
Definition rejecting_host (e : JSValue) : Host :=
  {| HttpRequest_get := fun _ _ => Rejected e;
     HttpRequest_post := fun _ _ _ => Rejected e;
     Date_now := fun k => 1700000000000 + Z.of_nat k |}.

(** A host whose HTTP client rejects every call with an [Error]. *)
Definition refusing_host : Host :=
  rejecting_host (Error_object "connect ECONNREFUSED").

(** [undefined] and [null]. *)
Definition nullish (v : JSValue) : bool :=
  match v with
  | JUndefined | JNull => true
  | _ => false
  end.

(** ** The vocabulary of the further properties *)

(** The number of occurrences of [c] in [s]. *)
Fixpoint count_char (c : ascii) (s : string) : nat :=
  match s with
  | EmptyString => O
  | String d s' => ((if Ascii.eqb d c then 1 else 0) + count_char c s')%nat
  end.

(** The number of pipes at the [n] positions from [i] on. *)
Fixpoint count_range (s : string) (n : nat) (i : Z) : nat :=
  match n with
  | O => O
  | S n' =>
      ((if is_char (char_at s i) "|" then 1 else 0) + count_range s n' (i + 1))%nat
  end.

(** The test that [splitByPipes] makes at a delimiter at position [i]. *)
Definition bad_spacing (statement : string) (i : Z) : bool :=
  (i - 1 <? 0)
  || (i + 1 >=? strlen statement)
  || negb (is_char (char_at statement (i - 1)) " ")
  || negb (is_char (char_at statement (i + 1)) " ")
  || ((i - 2 >=? 0) && is_char (char_at statement (i - 2)) " ")
  || ((i + 2 <? strlen statement) && is_char (char_at statement (i + 2)) " ").

(** What stands before the last part in [join sep parts]. *)
Fixpoint join_init (sep : string) (parts : list string) : string :=
  match parts with
  | [] => ""
  | [p] => ""
  | p :: rest => p ++ sep ++ join_init sep rest
  end.

(** The part of an iteration of the loop that follows the spacing check:
    what [parse_segment] does with the keyword and the value once
    [ensureSingleSpaceAfterKeyword] has returned. *)
Definition store_section `{JSRuntime} (st : Locals) (keyword value : string)
  : result Locals :=
  let seen' := keyword :: seen st in
  if String.eqb keyword "HTTP" then
    if negb (String.eqb value (toUpperCase value))
    then Throw MethodUppercase
    else if negb (String.eqb value "GET") && negb (String.eqb value "POST")
    then Throw InvalidMethod
    else Return {| seen := seen'; httpMethod := value;
                   baseURL := baseURL st; l_headers := l_headers st;
                   l_query := l_query st; l_body := l_body st |}
  else if String.eqb keyword "URL" then
    Return {| seen := seen'; httpMethod := httpMethod st;
              baseURL := value; l_headers := l_headers st;
              l_query := l_query st; l_body := l_body st |}
  else if String.eqb keyword "HEADERS" then
    let* v := parseJSONStrict value "HEADERS" in
    Return {| seen := seen'; httpMethod := httpMethod st;
              baseURL := baseURL st; l_headers := v;
              l_query := l_query st; l_body := l_body st |}
  else if String.eqb keyword "QUERY" then
    let* v := parseJSONStrict value "QUERY" in
    Return {| seen := seen'; httpMethod := httpMethod st;
              baseURL := baseURL st; l_headers := l_headers st;
              l_query := v; l_body := l_body st |}
  else if String.eqb keyword "BODY" then
    let* v := parseJSONStrict value "BODY" in
    Return {| seen := seen'; httpMethod := httpMethod st;
              baseURL := baseURL st; l_headers := l_headers st;
              l_query := l_query st; l_body := v |}
  else
    Return {| seen := seen'; httpMethod := httpMethod st;
              baseURL := baseURL st; l_headers := l_headers st;
              l_query := l_query st; l_body := l_body st |}.

(** Every message that the parser throws. *)
Definition parse_errors : list string :=
  [InvalidInput; MissingHTTPKeyword; MissingURLKeyword; MultipleSpaces;
   PipeSpacing; MissingSpaceAfterKeyword; KeywordsUppercase; MethodUppercase;
   InvalidMethod;
   DuplicateSection "HTTP"; DuplicateSection "URL"; DuplicateSection "HEADERS";
   DuplicateSection "QUERY"; DuplicateSection "BODY";
   InvalidJSON "HEADERS"; InvalidJSON "QUERY"; InvalidJSON "BODY"].

(** A query value without keys for [Object.keys]: anything but a string, an
    array or an object that is not empty. *)
Definition entryless (q : JSValue) : bool :=
  match q with
  | JString s => String.eqb s ""
  | JArray elems => match elems with [] => true | _ :: _ => false end
  | JObject props => match props with [] => true | _ :: _ => false end
  | _ => true
  end.

(** The call that the handler makes for a descriptor, and its outcome. *)
Definition client_call (d : Descriptor) : HttpCall :=
  if String.eqb (method d) "GET"
  then CallGet (full_url d) (JObject [("headers", headers d)])
  else CallPost (full_url d) (body d) (JObject [("headers", headers d)]).

Definition client_outcome (host : Host) (d : Descriptor) : HttpOutcome :=
  if String.eqb (method d) "GET"
  then HttpRequest_get host (full_url d) (JObject [("headers", headers d)])
  else HttpRequest_post host (full_url d) (body d)
         (JObject [("headers", headers d)]).

(** * Properties *)

(** Closed statements are settled by evaluation. *)
Ltac evaluate :=
  repeat match goal with |- _ /\ _ => split end;
  vm_compute; first [reflexivity | discriminate].

(** ** Strings *)

Lemma strlen_nonneg (s : string) : 0 <= strlen s.
Proof. unfold strlen. lia. Qed.

Lemma strlen_app (a b : string) : strlen (a ++ b) = strlen a + strlen b.
Proof.
  unfold strlen. induction a as [|c a IH]; simpl String.length.
  - simpl. lia.
  - rewrite !Nat2Z.inj_succ. lia.
Qed.

Lemma strlen_cons (c : ascii) (s : string) : strlen (String c s) = 1 + strlen s.
Proof. unfold strlen. simpl String.length. lia. Qed.

Lemma strlen_zero (s : string) : strlen s = 0 -> s = "".
Proof. destruct s; [reflexivity|]. rewrite strlen_cons. pose proof (strlen_nonneg s). lia. Qed.

Lemma get_app_l (a b : string) (n : nat) :
  (n < String.length a)%nat -> String.get n (a ++ b) = String.get n a.
Proof.
  revert n. induction a as [|c a IH]; intros n Hn; simpl in Hn; [lia|].
  destruct n as [|n]; simpl; [reflexivity|]. apply IH. lia.
Qed.

Lemma get_app_r (a b : string) (n : nat) :
  String.get (String.length a + n) (a ++ b) = String.get n b.
Proof. induction a as [|c a IH]; simpl; [reflexivity|exact IH]. Qed.

Lemma char_at_app_l (a b : string) (k : Z) :
  k < strlen a -> char_at (a ++ b) k = char_at a k.
Proof.
  intros Hk. unfold char_at. destruct (k <? 0) eqn:E; [reflexivity|].
  apply Z.ltb_ge in E. apply get_app_l. unfold strlen in Hk. lia.
Qed.

Lemma char_at_app_r (a b : string) (k : Z) :
  strlen a <= k -> char_at (a ++ b) k = char_at b (k - strlen a).
Proof.
  intros Hk. unfold char_at. pose proof (strlen_nonneg a) as Ha.
  destruct (k <? 0) eqn:E; [apply Z.ltb_lt in E; lia|].
  destruct (k - strlen a <? 0) eqn:E'; [apply Z.ltb_lt in E'; lia|].
  unfold strlen in *.
  replace (Z.to_nat k)
    with (String.length a + Z.to_nat (k - Z.of_nat (String.length a)))%nat by lia.
  apply get_app_r.
Qed.

Lemma native_substring_prefix (a b : string) :
  String.substring 0 (String.length a) (a ++ b) = a.
Proof. induction a as [|c a IH]; simpl; [destruct b; reflexivity|]. now rewrite IH. Qed.

Lemma native_substring_all (s : string) :
  String.substring 0 (String.length s) s = s.
Proof. induction s as [|c s IH]; simpl; [reflexivity|]. now rewrite IH. Qed.

Lemma native_substring_suffix (a b : string) :
  String.substring (String.length a) (String.length b) (a ++ b) = b.
Proof. induction a as [|c a IH]; simpl; [apply native_substring_all|exact IH]. Qed.

Lemma substring_prefix (a b : string) : substring (a ++ b) 0 (strlen a) = a.
Proof.
  unfold substring, clamp. rewrite strlen_app.
  pose proof (strlen_nonneg a). pose proof (strlen_nonneg b).
  replace (Z.min 0 (strlen a + strlen b)) with 0 by lia.
  replace (Z.min (strlen a) (strlen a + strlen b)) with (strlen a) by lia.
  replace (Z.max 0 0) with 0 by lia.
  replace (Z.max 0 (strlen a)) with (strlen a) by lia.
  replace (Z.min 0 (strlen a)) with 0 by lia.
  replace (Z.max 0 (strlen a) - 0) with (strlen a) by lia.
  unfold strlen. rewrite Nat2Z.id. apply native_substring_prefix.
Qed.

Lemma substring_from_suffix (a b : string) :
  substring_from (a ++ b) (strlen a) = b.
Proof.
  unfold substring_from, substring, clamp. rewrite strlen_app.
  pose proof (strlen_nonneg a). pose proof (strlen_nonneg b).
  replace (Z.min (strlen a) (strlen a + strlen b)) with (strlen a) by lia.
  replace (Z.min (strlen a + strlen b) (strlen a + strlen b))
    with (strlen a + strlen b) by lia.
  replace (Z.max 0 (strlen a)) with (strlen a) by lia.
  replace (Z.max 0 (strlen a + strlen b)) with (strlen a + strlen b) by lia.
  replace (Z.min (strlen a) (strlen a + strlen b)) with (strlen a) by lia.
  replace (Z.max (strlen a) (strlen a + strlen b) - strlen a)
    with (strlen b) by lia.
  unfold strlen. rewrite !Nat2Z.id. apply native_substring_suffix.
Qed.

Lemma slice_prefix (a b : string) : slice (a ++ b) 0 (strlen a) = a.
Proof.
  unfold slice, slice_bound. rewrite strlen_app.
  pose proof (strlen_nonneg a). pose proof (strlen_nonneg b).
  destruct (strlen a <? 0) eqn:E; [apply Z.ltb_lt in E; lia|].
  change (0 <? 0) with false. cbv iota.
  replace (Z.min 0 (strlen a + strlen b)) with 0 by lia.
  replace (Z.min (strlen a) (strlen a + strlen b)) with (strlen a) by lia.
  replace (Z.max (strlen a - 0) 0) with (strlen a) by lia.
  unfold strlen. rewrite Nat2Z.id. apply native_substring_prefix.
Qed.

Lemma slice_from_suffix (a b : string) : slice_from (a ++ b) (strlen a) = b.
Proof.
  unfold slice_from, slice, slice_bound. rewrite strlen_app.
  pose proof (strlen_nonneg a). pose proof (strlen_nonneg b).
  destruct (strlen a <? 0) eqn:E; [apply Z.ltb_lt in E; lia|].
  destruct (strlen a + strlen b <? 0) eqn:E'; [apply Z.ltb_lt in E'; lia|].
  replace (Z.min (strlen a) (strlen a + strlen b)) with (strlen a) by lia.
  replace (Z.min (strlen a + strlen b) (strlen a + strlen b))
    with (strlen a + strlen b) by lia.
  replace (Z.max (strlen a + strlen b - strlen a) 0) with (strlen b) by lia.
  unfold strlen. rewrite !Nat2Z.id. apply native_substring_suffix.
Qed.

Lemma append_assoc (a b c : string) : (a ++ b) ++ c = a ++ (b ++ c).
Proof. induction a as [|x a IH]; simpl; [reflexivity|]. now rewrite IH. Qed.

(** ** The segmenter on pipe-free text *)

Lemma has_char_get (c : ascii) (s : string) (n : nat) :
  has_char c s = false -> is_char (String.get n s) c = false.
Proof.
  revert n. induction s as [|d s IH]; intros n Hs; simpl; [reflexivity|].
  simpl in Hs. apply orb_false_iff in Hs as [Hd Hs].
  destruct n as [|n]; [exact Hd|]. now apply IH.
Qed.

Lemma has_char_char_at (c : ascii) (s : string) (k : Z) :
  has_char c s = false -> is_char (char_at s k) c = false.
Proof.
  intros Hs. unfold char_at. destruct (k <? 0); [reflexivity|].
  now apply has_char_get.
Qed.

Lemma scan_pipes_skip (s : string) (n : nat) :
  forall i ts segs,
    (forall k, i <= k < i + Z.of_nat n -> is_char (char_at s k) "|" = false) ->
    scan_pipes s n i ts segs = Return (ts, segs).
Proof.
  induction n as [|n IH]; intros i ts segs Hfree; [reflexivity|].
  simpl. rewrite (Hfree i) by lia. apply IH.
  intros k Hk. apply Hfree. lia.
Qed.

Lemma scan_pipes_app (s : string) (n m : nat) :
  forall i ts segs,
    scan_pipes s (n + m) i ts segs
    = let* (ts', segs') := scan_pipes s n i ts segs in
      scan_pipes s m (i + Z.of_nat n) ts' segs'.
Proof.
  induction n as [|n IH]; intros i ts segs.
  - simpl. now rewrite Z.add_0_r.
  - replace (i + Z.of_nat (S n)) with (i + 1 + Z.of_nat n) by lia.
    cbn [Nat.add scan_pipes].
    destruct (is_char (char_at s i) "|").
    + match goal with
      | |- (if ?c then _ else _) = _ => destruct c; [reflexivity|]
      end.
      destruct (strlen (substring s ts (i - 1)) =? 0); [reflexivity|].
      apply IH.
    + apply IH.
Qed.

(** The characters of [a ++ " | " ++ b], by position. *)
Lemma joined_left (a b : string) (k : Z) :
  k < strlen a -> char_at (a ++ " | " ++ b) k = char_at a k.
Proof. apply char_at_app_l. Qed.

Lemma joined_mid (a b : string) :
  char_at (a ++ " | " ++ b) (strlen a) = Some " "%char
  /\ char_at (a ++ " | " ++ b) (strlen a + 1) = Some "|"%char
  /\ char_at (a ++ " | " ++ b) (strlen a + 2) = Some " "%char.
Proof.
  rewrite (char_at_app_r a _ (strlen a)) by lia.
  rewrite (char_at_app_r a _ (strlen a + 1)) by lia.
  rewrite (char_at_app_r a _ (strlen a + 2)) by lia.
  replace (strlen a - strlen a) with 0 by lia.
  replace (strlen a + 1 - strlen a) with 1 by lia.
  replace (strlen a + 2 - strlen a) with 2 by lia.
  repeat split; reflexivity.
Qed.

Lemma joined_right (a b : string) (k : Z) :
  strlen a + 3 <= k ->
  char_at (a ++ " | " ++ b) k = char_at b (k - strlen a - 3).
Proof.
  intros Hk. rewrite char_at_app_r by lia.
  rewrite (char_at_app_r " | " b) by (change (strlen " | ") with 3; lia).
  reflexivity.
Qed.

(** Two plain segments joined by [" | "] are split into exactly those. *)
Lemma splitByPipes_two (a b : string) :
  plain_segment a -> plain_segment b ->
  splitByPipes (JString (a ++ " | " ++ b)) = Return [a; b].
Proof.
  intros (Ha & Hpa & Hfa & Hla) (Hb & Hpb & Hfb & Hlb).
  pose proof (strlen_nonneg a) as Na. pose proof (strlen_nonneg b) as Nb.
  assert (La : 1 <= strlen a).
  { destruct (Z.eq_dec (strlen a) 0) as [E|E]; [now apply strlen_zero in E|lia]. }
  assert (Lb : 1 <= strlen b).
  { destruct (Z.eq_dec (strlen b) 0) as [E|E]; [now apply strlen_zero in E|lia]. }
  destruct (joined_mid a b) as (M0 & M1 & M2).
  set (s := a ++ " | " ++ b) in *.
  assert (Ls : strlen s = strlen a + 3 + strlen b).
  { unfold s. rewrite !strlen_app. change (strlen " | ") with 3. lia. }
  unfold splitByPipes.
  destruct (strlen s =? 0) eqn:E0; [apply Z.eqb_eq in E0; lia|].
  assert (F0 : is_char (char_at s 0) " " = false).
  { unfold s. rewrite joined_left by lia. exact Hfa. }
  assert (F1 : is_char (char_at s (strlen s - 1)) " " = false).
  { unfold s at 1. rewrite joined_right by lia.
    replace (strlen s - 1 - strlen a - 3) with (strlen b - 1) by lia. exact Hlb. }
  rewrite F0, F1. cbn [orb].
  replace (String.length s)
    with ((String.length a + 1) + (1 + (1 + String.length b)))%nat.
  2:{ apply Nat2Z.inj. fold (strlen s). rewrite Ls. unfold strlen. lia. }
  rewrite scan_pipes_app.
  rewrite scan_pipes_skip.
  2:{ intros k Hk. destruct (Z.eq_dec k (strlen a)) as [->|Hne].
      - now rewrite M0.
      - unfold s. rewrite joined_left by (unfold strlen in *; lia).
        now apply has_char_char_at. }
  cbn [bind]. rewrite scan_pipes_app.
  replace (0 + Z.of_nat (String.length a + 1)) with (strlen a + 1)
    by (unfold strlen; lia).
  assert (Step : scan_pipes s 1 (strlen a + 1) 0 []
                 = Return (strlen a + 3, [a])).
  { cbn [scan_pipes]. rewrite M1. cbn [is_char]. rewrite Ascii.eqb_refl.
    replace (strlen a + 1 - 1) with (strlen a) by lia.
    replace (strlen a + 1 + 1) with (strlen a + 2) by lia.
    replace (strlen a + 1 + 2) with (strlen a + 3) by lia.
    replace (strlen a + 1 - 2) with (strlen a - 1) by lia.
    rewrite M0, M2. cbn [is_char]. rewrite Ascii.eqb_refl. cbn [negb orb].
    destruct (strlen a <? 0) eqn:E1; [apply Z.ltb_lt in E1; lia|].
    destruct (strlen a + 2 >=? strlen s) eqn:E2;
      [rewrite Z.geb_leb in E2; apply Z.leb_le in E2; lia|].
    assert (C1 : is_char (char_at s (strlen a - 1)) " " = false).
    { unfold s. rewrite joined_left by lia. exact Hla. }
    assert (C2 : is_char (char_at s (strlen a + 3)) " " = false).
    { unfold s. rewrite joined_right by lia.
      replace (strlen a + 3 - strlen a - 3) with 0 by lia. exact Hfb. }
    rewrite C1, C2, !andb_false_r. cbn [orb].
    unfold s at 1 2. rewrite substring_prefix.
    destruct (strlen a =? 0) eqn:E3; [apply Z.eqb_eq in E3; lia|].
    reflexivity. }
  rewrite Step. cbn [bind].
  rewrite scan_pipes_skip.
  2:{ intros k Hk. destruct (Z.eq_dec k (strlen a + 2)) as [->|Hne].
      - now rewrite M2.
      - unfold s. rewrite joined_right by lia. now apply has_char_char_at. }
  replace s with ((a ++ " | ") ++ b) by (unfold s; apply append_assoc).
  replace (strlen a + 3) with (strlen (a ++ " | "))
    by (rewrite strlen_app; reflexivity).
  cbn [bind]. rewrite substring_from_suffix.
  destruct (strlen b =? 0) eqn:E4; [apply Z.eqb_eq in E4; lia|].
  reflexivity.
Qed.

(** ** The minimal statement *)

Section Minimal.

Context `{JSRuntime}.

Lemma toUpperCase_HTTP : toUpperCase "HTTP" = "HTTP".
Proof. now rewrite toUpperCase_ascii. Qed.

Lemma toUpperCase_URL : toUpperCase "URL" = "URL".
Proof. now rewrite toUpperCase_ascii. Qed.

Lemma toUpperCase_GET : toUpperCase "GET" = "GET".
Proof. now rewrite toUpperCase_ascii. Qed.

Lemma toUpperCase_POST : toUpperCase "POST" = "POST".
Proof. now rewrite toUpperCase_ascii. Qed.

Lemma parse_segment_HTTP (st : Locals) (M : string) :
  M = "GET" \/ M = "POST" ->
  is_seen st "HTTP" = false ->
  parse_segment st ("HTTP " ++ M)
  = Return {| seen := "HTTP" :: seen st; httpMethod := M;
              baseURL := baseURL st; l_headers := l_headers st;
              l_query := l_query st; l_body := l_body st |}.
Proof.
  intros [-> | ->] Hseen; unfold parse_segment.
  - change (indexOf ("HTTP " ++ "GET") " ") with 4.
    change (slice ("HTTP " ++ "GET") 0 4) with "HTTP".
    change (slice_from ("HTTP " ++ "GET") (4 + 1)) with "GET".
    rewrite toUpperCase_HTTP, toUpperCase_GET, Hseen. reflexivity.
  - change (indexOf ("HTTP " ++ "POST") " ") with 4.
    change (slice ("HTTP " ++ "POST") 0 4) with "HTTP".
    change (slice_from ("HTTP " ++ "POST") (4 + 1)) with "POST".
    rewrite toUpperCase_HTTP, toUpperCase_POST, Hseen. reflexivity.
Qed.

Lemma parse_segment_URL (st : Locals) (u : string) :
  u <> "" ->
  is_char (char_at u 0) " " = false ->
  is_seen st "URL" = false ->
  parse_segment st ("URL " ++ u)
  = Return {| seen := "URL" :: seen st; httpMethod := httpMethod st;
              baseURL := u; l_headers := l_headers st;
              l_query := l_query st; l_body := l_body st |}.
Proof.
  intros Hu Hfirst Hseen.
  assert (Lu : 1 <= strlen u).
  { pose proof (strlen_nonneg u).
    destruct (Z.eq_dec (strlen u) 0) as [E|E]; [now apply strlen_zero in E|lia]. }
  unfold parse_segment.
  change (indexOf ("URL " ++ u) " ") with 3.
  assert (K : slice ("URL " ++ u) 0 3 = "URL").
  { exact (slice_prefix "URL" (" " ++ u)). }
  assert (V : slice_from ("URL " ++ u) (3 + 1) = u).
  { exact (slice_from_suffix "URL " u). }
  rewrite K, V, toUpperCase_URL, Hseen.
  change (3 =? -1) with false.
  change (negb (String.eqb "URL" "URL")) with false.
  change (array_indexOf allowedKeywords "URL" =? -1) with false.
  cbv iota.
  assert (E : ensureSingleSpaceAfterKeyword ("URL " ++ u) "URL" = Return true).
  { unfold ensureSingleSpaceAfterKeyword.
    change (indexOf ("URL " ++ u) "URL") with 0.
    change ("URL" ++ " ") with "URL ".
    rewrite (slice_prefix "URL " u), String.eqb_refl, strlen_app.
    change (strlen "URL ") with 4.
    rewrite (char_at_app_r "URL " u 4) by (change (strlen "URL ") with 4; lia).
    change (4 - strlen "URL ") with 0. rewrite Hfirst.
    destruct (4 + strlen u =? 4) eqn:E4; [apply Z.eqb_eq in E4; lia|].
    reflexivity. }
  rewrite E. reflexivity.
Qed.

Lemma plain_URL_segment (u : string) :
  plain_segment u -> plain_segment ("URL " ++ u).
Proof.
  intros (Hu & Hp & Hf & Hl).
  assert (Lu : 1 <= strlen u).
  { pose proof (strlen_nonneg u).
    destruct (Z.eq_dec (strlen u) 0) as [E|E]; [now apply strlen_zero in E|lia]. }
  repeat split.
  - discriminate.
  - exact Hp.
  - rewrite strlen_app. change (strlen "URL ") with 4.
    rewrite (char_at_app_r "URL " u) by (change (strlen "URL ") with 4; lia).
    change (strlen "URL ") with 4.
    replace (4 + strlen u - 1 - 4) with (strlen u - 1) by lia. exact Hl.
Qed.

Lemma plain_HTTP_segment (M : string) :
  M = "GET" \/ M = "POST" -> plain_segment ("HTTP " ++ M).
Proof. intros [-> | ->]; repeat split; discriminate. Qed.

(** C1.  A statement [HTTP <M> | URL <u>] with [M] one of [GET] and [POST]
    and [u] a plain value (not empty, no pipe, no space at either end, so
    that the segmenter cuts the statement into exactly its two sections)
    parses to the descriptor with method [M], url [u], empty headers, query
    and body, and full URL [u]. *)
Theorem parseReqline_minimal (M u : string) :
  M = "GET" \/ M = "POST" ->
  plain_segment u ->
  parseReqline (JString ("HTTP " ++ M ++ " | URL " ++ u))
  = Return {| method := M; url := u;
              headers := JObject []; query := JObject []; body := JObject [];
              full_url := u |}.
Proof.
  intros HM Hu.
  assert (Shape : "HTTP " ++ M ++ " | URL " ++ u
                  = ("HTTP " ++ M) ++ " | " ++ ("URL " ++ u)).
  { destruct HM as [-> | ->]; reflexivity. }
  unfold parseReqline. rewrite Shape.
  rewrite splitByPipes_two
    by (apply plain_HTTP_segment || apply plain_URL_segment; assumption).
  cbn [bind nth_error].
  assert (O1 : not_section (Some ("HTTP " ++ M)) 4 "HTTP" = false).
  { destruct HM as [-> | ->]; reflexivity. }
  assert (O2 : not_section (Some ("URL " ++ u)) 3 "URL" = false).
  { unfold not_section.
    change 3 with (strlen "URL"). change ("URL " ++ u) with ("URL" ++ " " ++ u).
    rewrite slice_prefix. reflexivity. }
  rewrite O1, O2. cbn [parse_segments].
  rewrite parse_segment_HTTP by (assumption || reflexivity). cbn [bind].
  destruct Hu as (Hne & _ & Hfirst & _).
  rewrite parse_segment_URL by (assumption || reflexivity).
  reflexivity.
Qed.

End Minimal.

Lemma parseReqline_minimal_witness :
  parseReqline (H := Reference.runtime) (JString "HTTP POST | URL https://example.com/a b")
  = Return {| method := "POST"; url := "https://example.com/a b";
              headers := JObject []; query := JObject []; body := JObject [];
              full_url := "https://example.com/a b" |}.
Proof.
  apply (parseReqline_minimal (H := Reference.runtime) "POST" "https://example.com/a b").
  - right. reflexivity.
  - repeat split; discriminate.
Defined.

(** ** One section at a time *)

Lemma indexOf_at_unfold (pat s : string) (i : Z) :
  indexOf_at pat s i
  = if starts_with pat s then i
    else match s with
         | EmptyString => -1
         | String _ s' => indexOf_at pat s' (i + 1)
         end.
Proof. destruct s; reflexivity. Qed.

Lemma starts_with_app (p s : string) : starts_with p (p ++ s) = true.
Proof.
  induction p as [|c p IH]; simpl; [reflexivity|].
  now rewrite Ascii.eqb_refl, IH.
Qed.

Lemma indexOf_own_prefix (p s : string) : indexOf (p ++ s) p = 0.
Proof. unfold indexOf. now rewrite indexOf_at_unfold, starts_with_app. Qed.

Lemma starts_with_char (c : ascii) (s : string) :
  starts_with (String c "") s = true -> exists s', s = String c s'.
Proof.
  destruct s as [|d s]; simpl; [discriminate|].
  rewrite andb_true_r. intros E. apply Ascii.eqb_eq in E. subst d. now exists s.
Qed.

Lemma first_char_split (c : ascii) (s : string) :
  forall j, indexOf_at (String c "") s j <> -1 ->
    exists a b, s = a ++ String c b
                /\ has_char c a = false
                /\ indexOf_at (String c "") s j = j + strlen a.
Proof.
  induction s as [|d s IH]; intros j Hj; rewrite indexOf_at_unfold in Hj |- *.
  - simpl in Hj. congruence.
  - destruct (starts_with (String c "") (String d s)) eqn:E.
    + apply starts_with_char in E as [s' E]. injection E as -> ->.
      exists "", s'. repeat split. change (strlen "") with 0. lia.
    + destruct (IH (j + 1) Hj) as (a & b & -> & Ha & Hi).
      exists (String d a), b. repeat split.
      * simpl. rewrite Ha, orb_false_r.
        simpl in E. rewrite andb_true_r in E. now rewrite Ascii.eqb_sym.
      * rewrite Hi, strlen_cons. lia.
Qed.

Lemma no_char_indexOf_at (c : ascii) (s : string) :
  has_char c s = false -> forall j, indexOf_at (String c "") s j = -1.
Proof.
  induction s as [|d s IH]; intros Hs j; [reflexivity|].
  simpl in Hs. apply orb_false_iff in Hs as [Hd Hs].
  rewrite indexOf_at_unfold. simpl starts_with.
  rewrite Ascii.eqb_sym, Hd. cbn [andb]. now apply IH.
Qed.

Lemma array_indexOf_at_In (l : list string) (x : string) :
  forall i, array_indexOf_at l x i <> -1 -> In x l.
Proof.
  induction l as [|y l IH]; intros i Hi; simpl in *; [congruence|].
  destruct (String.eqb y x) eqn:E.
  - apply String.eqb_eq in E. now left.
  - right. now apply (IH (i + 1)).
Qed.

Section Sections.

Context `{JSRuntime}.

Lemma ensure_decomposed (kw v : string) :
  ensureSingleSpaceAfterKeyword (kw ++ " " ++ v) kw
  = if strlen v =? 0 then Throw MissingSpaceAfterKeyword
    else if is_char (char_at v 0) " " then Throw MultipleSpaces
    else Return true.
Proof.
  unfold ensureSingleSpaceAfterKeyword.
  rewrite indexOf_own_prefix. change (negb (0 =? 0)) with false. cbv iota.
  rewrite <- (append_assoc kw " " v).
  rewrite slice_prefix, String.eqb_refl. cbn [negb].
  rewrite (strlen_app (kw ++ " ") v).
  rewrite (char_at_app_r (kw ++ " ") v) by lia.
  replace (strlen (kw ++ " ") - strlen (kw ++ " ")) with 0 by lia.
  pose proof (strlen_nonneg v).
  destruct (strlen v =? 0) eqn:E.
  - apply Z.eqb_eq in E. rewrite E, Z.add_0_r, Z.eqb_refl. reflexivity.
  - apply Z.eqb_neq in E.
    destruct (strlen (kw ++ " ") + strlen v =? strlen (kw ++ " ")) eqn:E';
      [apply Z.eqb_eq in E'; lia|reflexivity].
Qed.

Lemma parseJSONStrict_Return (v name : string) (j : JSValue) :
  parseJSONStrict v name = Return j -> JSON_parse v = Return j.
Proof.
  unfold parseJSONStrict. destruct (JSON_parse v); [easy|].
  repeat match goal with |- context [if ?c then _ else _] => destruct c end;
    discriminate.
Qed.

(** A segment that the loop accepts is [keyword value] with a keyword of the
    fixed set not seen before and a value that is not empty and does not
    start with a space. *)
Lemma parse_segment_Return (st st' : Locals) (segment : string) :
  parse_segment st segment = Return st' ->
  exists kw v,
    segment = kw ++ " " ++ v
    /\ has_char " " kw = false
    /\ In kw allowedKeywords
    /\ is_seen st kw = false
    /\ v <> ""
    /\ is_char (char_at v 0) " " = false
    /\ stores st kw v st'.
Proof.
  unfold parse_segment. intros Hp.
  destruct (indexOf segment " " =? -1) eqn:E; [discriminate|].
  apply Z.eqb_neq in E.
  destruct (first_char_split " " segment 0 E) as (kw & v & -> & Hkw & Hi).
  unfold indexOf in Hp. rewrite Hi, Z.add_0_l in Hp.
  change (kw ++ String " " v) with (kw ++ " " ++ v) in Hp |- *.
  rewrite slice_prefix, ensure_decomposed in Hp.
  rewrite <- (append_assoc kw " " v) in Hp.
  replace (strlen kw + 1) with (strlen (kw ++ " ")) in Hp
    by (rewrite strlen_app; reflexivity).
  rewrite slice_from_suffix in Hp.
  destruct (negb (String.eqb kw (toUpperCase kw))); [discriminate|].
  destruct (array_indexOf allowedKeywords kw =? -1) eqn:EA; [discriminate|].
  apply Z.eqb_neq, array_indexOf_at_In in EA.
  destruct (is_seen st kw) eqn:ES; [discriminate|].
  destruct (strlen v =? 0) eqn:EV; [discriminate|].
  destruct (is_char (char_at v 0) " ") eqn:EC; [discriminate|].
  cbn [bind] in Hp.
  exists kw, v.
  assert (Hv : v <> "") by (intros ->; discriminate).
  repeat split; try assumption.
  destruct EA as [<-|[<-|[<-|[<-|[<-|[]]]]]]; cbn [String.eqb Ascii.eqb Bool.eqb] in Hp.
  - destruct (negb (String.eqb v (toUpperCase v))); [discriminate|].
    destruct (String.eqb v "GET") eqn:G; destruct (String.eqb v "POST") eqn:P;
      cbn [negb andb] in Hp; try discriminate;
      injection Hp as <-; constructor.
    all: try (left; now apply String.eqb_eq).
    right; now apply String.eqb_eq.
  - injection Hp as <-. constructor.
  - destruct (parseJSONStrict v "HEADERS") eqn:Q; [|discriminate].
    injection Hp as <-. constructor. eapply parseJSONStrict_Return, Q.
  - destruct (parseJSONStrict v "QUERY") eqn:Q; [|discriminate].
    injection Hp as <-. constructor. eapply parseJSONStrict_Return, Q.
  - destruct (parseJSONStrict v "BODY") eqn:Q; [|discriminate].
    injection Hp as <-. constructor. eapply parseJSONStrict_Return, Q.
Qed.

End Sections.

(** ** The loop over the segments *)

Lemma native_substring_starts_with (p s : string) :
  String.eqb (String.substring 0 (Nat.min (String.length p) (String.length s)) s) p
  = starts_with p s.
Proof.
  revert s. induction p as [|a p IH]; intros s.
  - destruct s; reflexivity.
  - destruct s as [|b s]; [reflexivity|].
    simpl. rewrite IH, (Ascii.eqb_sym a b).
    destruct (Ascii.eqb b a); reflexivity.
Qed.

Lemma slice_starts_with (p s : string) :
  String.eqb (slice s 0 (strlen p)) p = starts_with p s.
Proof.
  unfold slice, slice_bound.
  pose proof (strlen_nonneg p). pose proof (strlen_nonneg s).
  change (0 <? 0) with false. cbv iota.
  destruct (strlen p <? 0) eqn:E; [apply Z.ltb_lt in E; lia|].
  replace (Z.min 0 (strlen s)) with 0 by lia.
  replace (Z.to_nat (Z.max (Z.min (strlen p) (strlen s) - 0) 0))
    with (Nat.min (String.length p) (String.length s))
    by (unfold strlen; lia).
  apply native_substring_starts_with.
Qed.

Lemma not_section_starts_with (s kw : string) :
  not_section (Some s) (strlen kw) kw = negb (starts_with kw s) || String.eqb s "".
Proof.
  unfold not_section. rewrite slice_starts_with. apply orb_comm.
Qed.

Lemma segment_split_unique (a a' b b' : string) :
  has_char " " a = false -> has_char " " a' = false ->
  a ++ " " ++ b = a' ++ " " ++ b' -> a = a' /\ b = b'.
Proof.
  revert a'. induction a as [|c a IH]; intros [|c' a'] Ha Ha' E; simpl in *.
  - injection E as ->. now split.
  - injection E as <- _. discriminate.
  - injection E as -> _. discriminate.
  - injection E as -> E.
    apply orb_false_iff in Ha as [_ Ha]. apply orb_false_iff in Ha' as [_ Ha'].
    destruct (IH a' Ha Ha' E) as [-> ->]. now split.
Qed.

Lemma allowed_no_space (kw : string) :
  In kw allowedKeywords -> has_char " " kw = false.
Proof. intros [<-|[<-|[<-|[<-|[<-|[]]]]]]; reflexivity. Qed.

Lemma allowed_HTTP_prefix (kw v : string) :
  In kw allowedKeywords -> starts_with "HTTP" (kw ++ " " ++ v) = true ->
  kw = "HTTP".
Proof. intros [<-|[<-|[<-|[<-|[<-|[]]]]]]; simpl; congruence. Qed.

Lemma allowed_URL_prefix (kw v : string) :
  In kw allowedKeywords -> starts_with "URL" (kw ++ " " ++ v) = true ->
  kw = "URL".
Proof. intros [<-|[<-|[<-|[<-|[<-|[]]]]]]; simpl; congruence. Qed.

Section Loop.

Context `{JSRuntime}.

Lemma stores_seen (st st' : Locals) (kw v : string) :
  stores st kw v st' -> seen st' = kw :: seen st.
Proof. now destruct 1. Qed.

Lemma stores_slot (st st' : Locals) (kw v : string) :
  stores st kw v st' -> decoded kw v (slot kw st').
Proof. destruct 1; unfold decoded, slot; simpl; auto. Qed.

Lemma stores_other_slot (st st' : Locals) (kw v k : string) :
  stores st kw v st' -> k <> kw -> slot k st' = slot k st.
Proof.
  intros S Hk. unfold slot.
  destruct S; simpl;
    repeat match goal with
      | |- context [String.eqb k ?x] =>
          let E := fresh "E" in
          destruct (String.eqb k x) eqn:E;
          [apply String.eqb_eq in E; try congruence|]
      end; reflexivity.
Qed.

Lemma stores_is_seen (st st' : Locals) (kw v k : string) :
  stores st kw v st' -> is_seen st' k = String.eqb k kw || is_seen st k.
Proof. intros S. unfold is_seen. now rewrite (stores_seen _ _ _ _ S). Qed.

(** Once a keyword is seen, its variable is final. *)
Lemma parse_segments_frozen (segments : list string) :
  forall st st' k,
    parse_segments st segments = Return st' ->
    is_seen st k = true ->
    is_seen st' k = true /\ slot k st' = slot k st.
Proof.
  induction segments as [|seg rest IH]; intros st st' k Hp Hk; simpl in Hp.
  - injection Hp as <-. now split.
  - destruct (parse_segment st seg) as [st1|] eqn:E1; [|discriminate].
    cbn [bind] in Hp.
    destruct (parse_segment_Return _ _ _ E1)
      as (kw & v & _ & _ & _ & Hnew & _ & _ & S).
    assert (Hne : k <> kw) by (intros ->; congruence).
    destruct (IH st1 st' k Hp) as [Hs Hslot].
    { rewrite (stores_is_seen _ _ _ _ k S), Hk. apply orb_true_r. }
    split; [exact Hs|]. rewrite Hslot. eapply stores_other_slot; eassumption.
Qed.

(** A section of the statement ends up decoded in its variable. *)
Lemma parse_segments_present (segments : list string) :
  forall st st' k v,
    parse_segments st segments = Return st' ->
    has_char " " k = false ->
    In (k ++ " " ++ v) segments ->
    is_seen st' k = true /\ decoded k v (slot k st').
Proof.
  induction segments as [|seg rest IH]; intros st st' k v Hp Hk Hin;
    [destruct Hin|].
  simpl in Hp.
  destruct (parse_segment st seg) as [st1|] eqn:E1; [|discriminate].
  cbn [bind] in Hp. destruct Hin as [->|Hin]; [|eapply IH; eassumption].
  destruct (parse_segment_Return _ _ _ E1)
    as (kw & v' & Heq & Hkw & _ & _ & _ & _ & S).
  destruct (segment_split_unique _ _ _ _ Hk Hkw Heq) as [<- <-].
  destruct (parse_segments_frozen rest st1 st' k Hp) as [Hs Hslot].
  { rewrite (stores_is_seen _ _ _ _ k S), String.eqb_refl. reflexivity. }
  split; [exact Hs|]. rewrite Hslot. eapply stores_slot, S.
Qed.

(** A keyword is seen at the end only if it was seen at the start or heads
    one of the segments; otherwise its variable is untouched. *)
Lemma parse_segments_absent (segments : list string) :
  forall st st' k,
    parse_segments st segments = Return st' ->
    is_seen st k = false ->
    (forall v, ~ In (k ++ " " ++ v) segments) ->
    is_seen st' k = false /\ slot k st' = slot k st.
Proof.
  induction segments as [|seg rest IH]; intros st st' k Hp Hk Hno; simpl in Hp.
  - injection Hp as <-. now split.
  - destruct (parse_segment st seg) as [st1|] eqn:E1; [|discriminate].
    cbn [bind] in Hp.
    destruct (parse_segment_Return _ _ _ E1)
      as (kw & v & -> & _ & _ & _ & _ & _ & S).
    assert (Hne : k <> kw) by (intros ->; apply (Hno v); now left).
    destruct (IH st1 st' k Hp) as [Hs Hslot].
    { rewrite (stores_is_seen _ _ _ _ k S), Hk, orb_false_r.
      now apply String.eqb_neq. }
    { intros v' Hv'. apply (Hno v'). now right. }
    split; [exact Hs|]. rewrite Hslot. eapply stores_other_slot; eassumption.
Qed.

(** The shape of every statement that parses: its first two segments are
    the HTTP and the URL section, and the loop ran over all the segments. *)
Lemma parseReqline_Return (statement : JSValue) (d : Descriptor) :
  parseReqline statement = Return d ->
  exists segments st m u full,
    splitByPipes statement = Return segments
    /\ nth_error segments 0 = Some ("HTTP" ++ " " ++ m)
    /\ nth_error segments 1 = Some ("URL" ++ " " ++ u)
    /\ parse_segments initial_locals segments = Return st
    /\ d = {| method := httpMethod st; url := baseURL st;
              headers := l_headers st; query := l_query st;
              body := l_body st; full_url := full |}
    /\ httpMethod st = m /\ (m = "GET" \/ m = "POST")
    /\ baseURL st = u /\ u <> ""
    /\ constructFullURL (baseURL st) (l_query st) = Return full.
Proof.
  unfold parseReqline. intros Hp.
  destruct (splitByPipes statement) as [segments|] eqn:Es; [|discriminate].
  cbn [bind] in Hp.
  destruct (not_section (nth_error segments 0) 4 "HTTP") eqn:O1; [discriminate|].
  destruct (not_section (nth_error segments 1) 3 "URL") eqn:O2; [discriminate|].
  destruct (parse_segments initial_locals segments) as [st|] eqn:Ep;
    [|discriminate].
  cbn [bind] in Hp.
  destruct (constructFullURL (baseURL st) (l_query st)) as [full|] eqn:Ef;
    [|discriminate].
  cbn [bind] in Hp. injection Hp as <-.
  destruct segments as [|seg0 [|seg1 rest]]; try discriminate.
  cbn [nth_error] in O1, O2.
  change 4 with (strlen "HTTP") in O1. change 3 with (strlen "URL") in O2.
  rewrite not_section_starts_with in O1, O2.
  apply orb_false_iff in O1 as [O1 _]. apply orb_false_iff in O2 as [O2 _].
  apply negb_false_iff in O1, O2.
  pose proof Ep as Ep'. simpl in Ep'.
  destruct (parse_segment initial_locals seg0) as [st0|] eqn:E0; [|discriminate].
  cbn [bind] in Ep'.
  destruct (parse_segment st0 seg1) as [st1|] eqn:E1; [|discriminate].
  cbn [bind] in Ep'.
  destruct (parse_segment_Return _ _ _ E0)
    as (kw0 & m & -> & _ & A0 & _ & _ & _ & S0).
  destruct (parse_segment_Return _ _ _ E1)
    as (kw1 & u & -> & _ & A1 & _ & Hu & _ & S1).
  apply allowed_HTTP_prefix in O1; [subst kw0|exact A0].
  apply allowed_URL_prefix in O2; [subst kw1|exact A1].
  exists (("HTTP" ++ " " ++ m) :: ("URL" ++ " " ++ u) :: rest), st, m, u, full.
  destruct (parse_segments_present _ _ _ "HTTP" m Ep eq_refl (or_introl eq_refl))
    as [_ Dm].
  destruct (parse_segments_present _ _ _ "URL" u Ep eq_refl
              (or_intror (or_introl eq_refl))) as [_ Du].
  unfold decoded, slot in Dm, Du. simpl in Dm, Du.
  injection Dm as Dm. injection Du as Du.
  repeat split; try assumption.
  inversion S0; subst; assumption.
Qed.

(** C8.  Every descriptor that the parser returns has method [GET] or [POST]
    and a url that is not empty; the url is the text of the URL section,
    which is the second segment of the statement. *)
Theorem parseReqline_method_url (statement : JSValue) (d : Descriptor) :
  parseReqline statement = Return d ->
  (method d = "GET" \/ method d = "POST")
  /\ url d <> ""
  /\ exists segments,
       splitByPipes statement = Return segments
       /\ nth_error segments 1 = Some ("URL " ++ url d).
Proof.
  intros Hp.
  destruct (parseReqline_Return _ _ Hp)
    as (segments & st & m & u & full & Es & _ & N1 & _ & -> & Hm & HM & Hu
        & Hne & _).
  simpl. rewrite Hm, Hu. repeat split; try assumption.
  exists segments. split; assumption.
Qed.

End Loop.

Lemma parseReqline_method_url_witness :
  exists d,
    parseReqline (H := Reference.runtime)
      (JString "HTTP GET | URL http://x/y?z=1 | BODY [1, 2]") = Return d
    /\ (method d = "GET" \/ method d = "POST")
    /\ url d = "http://x/y?z=1".
Proof.
  assert (E : parseReqline (H := Reference.runtime)
                (JString "HTTP GET | URL http://x/y?z=1 | BODY [1, 2]")
              = Return {| method := "GET"; url := "http://x/y?z=1";
                          headers := JObject []; query := JObject [];
                          body := JArray [JNumber 1; JNumber 2];
                          full_url := "http://x/y?z=1" |})
    by (vm_compute; reflexivity).
  eexists. split; [exact E|].
  destruct (parseReqline_method_url (H := Reference.runtime) _ _ E)
    as (Hm & _ & _).
  split; [exact Hm|reflexivity].
Defined.

(** ** Statements about the order of the checks *)

Lemma starts_with_nonempty (c : ascii) (p s : string) :
  starts_with (String c p) s = true -> String.eqb s "" = false.
Proof. destruct s; [discriminate|reflexivity]. Qed.

Lemma parse_segments_app `{JSRuntime} (pre post : list string) :
  forall st,
    parse_segments st (pre ++ post)
    = let* st' := parse_segments st pre in parse_segments st' post.
Proof.
  induction pre as [|seg pre IH]; intros st; simpl; [reflexivity|].
  destruct (parse_segment st seg); simpl; [apply IH|reflexivity].
Qed.

Lemma indexOf_at_first_space (kw rest : string) :
  has_char " " kw = false ->
  forall j, indexOf_at " " (kw ++ " " ++ rest) j = j + strlen kw.
Proof.
  induction kw as [|c kw IH]; intros Hk j.
  - simpl. change (strlen "") with 0. lia.
  - simpl in Hk. apply orb_false_iff in Hk as [Hc Hk].
    cbn [append]. rewrite indexOf_at_unfold. cbn [starts_with].
    rewrite Ascii.eqb_sym, Hc. cbn [andb]. rewrite IH by assumption.
    rewrite strlen_cons. lia.
Qed.

Lemma indexOf_first_space (kw rest : string) :
  has_char " " kw = false -> indexOf (kw ++ " " ++ rest) " " = strlen kw.
Proof.
  intros Hk. unfold indexOf. now rewrite indexOf_at_first_space.
Qed.

Lemma has_char_indexOf_at (c : ascii) (s : string) :
  has_char c s = true -> forall j, 0 <= j -> j <= indexOf_at (String c "") s j.
Proof.
  induction s as [|d s IH]; intros Hs j Hj; [discriminate|].
  rewrite indexOf_at_unfold. cbn [starts_with]. rewrite andb_true_r.
  simpl in Hs. rewrite (Ascii.eqb_sym c d).
  destruct (Ascii.eqb d c); [lia|].
  specialize (IH Hs (j + 1)). lia.
Qed.

Lemma contains_indexOf (c : ascii) (s : string) :
  negb (indexOf s (String c "") =? -1) = has_char c s.
Proof.
  unfold indexOf. destruct (has_char c s) eqn:E.
  - pose proof (has_char_indexOf_at c s E 0).
    destruct (indexOf_at (String c "") s 0 =? -1) eqn:E'; [|reflexivity].
    apply Z.eqb_eq in E'. lia.
  - now rewrite no_char_indexOf_at.
Qed.

Section Order.

Context `{JSRuntime}.

Lemma toUpperCase_allowed (kw : string) :
  In kw allowedKeywords -> toUpperCase kw = kw.
Proof.
  intros [<-|[<-|[<-|[<-|[<-|[]]]]]]; now rewrite toUpperCase_ascii.
Qed.

Lemma array_indexOf_allowed (kw : string) :
  In kw allowedKeywords -> (array_indexOf allowedKeywords kw =? -1) = false.
Proof. intros [<-|[<-|[<-|[<-|[<-|[]]]]]]; reflexivity. Qed.

(** A segment that begins with [HTTP] or [URL] without being that section
    is refused by the loop: it has no space, or its keyword is none of the
    five. *)
Lemma parse_segment_near_miss (st : Locals) (segment K : string) :
  K = "HTTP" \/ K = "URL" ->
  starts_with K segment = true ->
  is_section K segment = false ->
  parse_segment st segment = Throw (near_miss_error segment).
Proof.
  intros HK Hstart Hsec. unfold is_section, keyword_of in Hsec.
  unfold parse_segment, near_miss_error.
  rewrite <- (contains_indexOf " " segment).
  change (String " " "") with " ".
  destruct (indexOf segment " " =? -1) eqn:E; [reflexivity|].
  cbn [negb]. apply Z.eqb_neq in E.
  destruct (first_char_split " " segment 0 E) as (kw & v & -> & Hkw & Hi).
  unfold indexOf in Hsec |- *. rewrite Hi, Z.add_0_l in Hsec |- *.
  change (kw ++ String " " v) with (kw ++ " " ++ v) in Hsec, Hstart |- *.
  rewrite slice_prefix in Hsec |- *.
  destruct (negb (String.eqb kw (toUpperCase kw))); [reflexivity|].
  destruct (array_indexOf allowedKeywords kw =? -1) eqn:EA; [reflexivity|].
  apply Z.eqb_neq, array_indexOf_at_In in EA.
  assert (kw = K).
  { destruct HK as [-> | ->];
      [eapply allowed_HTTP_prefix|eapply allowed_URL_prefix]; eassumption. }
  subst kw. now rewrite String.eqb_refl in Hsec.
Qed.

(** No error of the loop is one of the two order errors. *)
Lemma parse_segment_not_order_error (st : Locals) (segment m : string) :
  parse_segment st segment = Throw m ->
  m <> MissingHTTPKeyword /\ m <> MissingURLKeyword.
Proof.
  unfold parse_segment, ensureSingleSpaceAfterKeyword, parseJSONStrict.
  cbn [String.eqb Ascii.eqb Bool.eqb].
  repeat match goal with
    | |- context [match JSON_parse ?v with _ => _ end] =>
        destruct (JSON_parse v); cbn [bind]
    | |- context [if ?c then _ else _] => destruct c; cbn [bind]
    end;
    try discriminate;
    intros E; injection E as <-; split; discriminate.
Qed.

(** C3, as the code has it.  The two order checks look at the first
    characters of the first two segments: a statement whose first segment does
    not begin with [HTTP] fails with the missing-HTTP-keyword error, and one
    whose first segment begins with [HTTP] but whose second segment is missing
    or does not begin with [URL] fails with the missing-URL-keyword error.
    Nothing is asked of the segments themselves, so both errors come before
    any error of the per-segment validation.  A statement whose first segment
    begins with [HTTP] and whose second begins with [URL] passes both checks;
    if the first is not the HTTP section, or the second is not the URL
    section, it is refused in the loop, at the first of these two segments
    that the loop refuses and with the error of the loop for it, which is no
    order error.  When the first segment is not the HTTP section that error
    is [near_miss_error] of the first segment: the missing-space error when
    it has no space, and the unknown-keyword error otherwise; when the loop
    accepts the first segment and the second is not the URL section, it is
    [near_miss_error] of the second. *)
Theorem order_checks_first (statement : JSValue) (segments : list string)
  (seg0 : string) :
  splitByPipes statement = Return segments ->
  nth_error segments 0 = Some seg0 ->
  (starts_with "HTTP" seg0 = false ->
   parseReqline statement = Throw MissingHTTPKeyword)
  /\ (starts_with "HTTP" seg0 = true ->
      match nth_error segments 1 with
      | Some seg1 => starts_with "URL" seg1 = false
      | None => True
      end ->
      parseReqline statement = Throw MissingURLKeyword)
  /\ (forall seg1,
        nth_error segments 1 = Some seg1 ->
        starts_with "HTTP" seg0 = true ->
        starts_with "URL" seg1 = true ->
        (is_section "HTTP" seg0 = false ->
         parse_segment initial_locals seg0 = Throw (near_miss_error seg0)
         /\ parseReqline statement = Throw (near_miss_error seg0))
        /\ (forall st0,
              parse_segment initial_locals seg0 = Return st0 ->
              is_section "URL" seg1 = false ->
              parse_segment st0 seg1 = Throw (near_miss_error seg1)
              /\ parseReqline statement = Throw (near_miss_error seg1))
        /\ (is_section "HTTP" seg0 = false \/ is_section "URL" seg1 = false ->
            exists m,
              parseReqline statement = Throw m
              /\ parse_segments initial_locals [seg0; seg1] = Throw m
              /\ m <> MissingHTTPKeyword /\ m <> MissingURLKeyword)).
Proof.
  intros Es N0. unfold parseReqline. rewrite Es. cbn [bind]. rewrite N0.
  change 4 with (strlen "HTTP"). rewrite not_section_starts_with.
  split; [|split].
  - intros ->. reflexivity.
  - intros P0 P1. rewrite P0, (starts_with_nonempty _ _ _ P0). cbn [negb orb].
    destruct (nth_error segments 1) as [seg1|]; [|reflexivity].
    change 3 with (strlen "URL"). rewrite not_section_starts_with, P1.
    reflexivity.
  - intros seg1 N1 P0 P1.
    rewrite P0, (starts_with_nonempty _ _ _ P0), N1. cbn [negb orb].
    change 3 with (strlen "URL").
    rewrite not_section_starts_with, P1, (starts_with_nonempty _ _ _ P1).
    cbn [negb orb].
    destruct segments as [|s0 [|s1 rest]]; try discriminate.
    cbn [nth_error] in N0, N1. injection N0 as ->. injection N1 as ->.
    cbn [parse_segments].
    assert (First : is_section "HTTP" seg0 = false ->
                    parse_segment initial_locals seg0
                    = Throw (near_miss_error seg0)).
    { apply parse_segment_near_miss; [now left|exact P0]. }
    assert (Second : forall st0,
               is_section "URL" seg1 = false ->
               parse_segment st0 seg1 = Throw (near_miss_error seg1)).
    { intros st0. apply parse_segment_near_miss; [now right|exact P1]. }
    split; [|split].
    + intros Hsec. rewrite (First Hsec). now split.
    + intros st0 E0 Hsec. rewrite E0. cbn [bind].
      rewrite (Second st0 Hsec). now split.
    + intros Hsec.
      destruct (parse_segment initial_locals seg0) as [st0|m0] eqn:E0;
        cbn [bind].
      * destruct Hsec as [Hsec|Hsec].
        -- pose proof (First Hsec) as E. congruence.
        -- pose proof (Second st0 Hsec) as E1.
           exists (near_miss_error seg1). rewrite E1. cbn [bind].
           split; [reflexivity|]. split; [reflexivity|].
           eapply parse_segment_not_order_error, E1.
      * exists m0. split; [reflexivity|]. split; [reflexivity|].
        eapply parse_segment_not_order_error, E0.
Qed.

(** In the loop, a keyword seen before is rejected whatever follows it. *)
Lemma duplicate_in_loop (pre post : list string) (st0 st : Locals)
  (kw v : string) :
  In kw allowedKeywords ->
  parse_segments st0 pre = Return st ->
  is_seen st kw = true ->
  parse_segments st0 (pre ++ (kw ++ " " ++ v) :: post)
  = Throw (DuplicateSection kw).
Proof.
  intros Hkw Hpre Hseen.
  rewrite parse_segments_app, Hpre. cbn [bind parse_segments].
  unfold parse_segment.
  rewrite indexOf_first_space by now apply allowed_no_space.
  rewrite slice_prefix, toUpperCase_allowed, String.eqb_refl by assumption.
  rewrite array_indexOf_allowed, Hseen by assumption.
  pose proof (strlen_nonneg kw).
  destruct (strlen kw =? -1) eqn:E; [apply Z.eqb_eq in E; lia|].
  reflexivity.
Qed.

(** C7, as the code has it.  In the loop the duplicate-section rejection
    comes before [ensureSingleSpaceAfterKeyword]: a statement that passes
    the order checks and has a segment whose keyword was seen in an earlier
    segment and whose value begins with an extra space fails with the
    duplicate-section error, although the spacing check, had it run on that
    segment, would have failed with the multiple-spaces error. *)
Theorem duplicate_before_spacing (statement : JSValue)
  (pre post : list string) (st : Locals) (kw v : string) :
  In kw allowedKeywords ->
  splitByPipes statement
  = Return (pre ++ (kw ++ " " ++ " " ++ v)%string :: post)%list ->
  order_ok (pre ++ (kw ++ " " ++ " " ++ v)%string :: post)%list = true ->
  parse_segments initial_locals pre = Return st ->
  is_seen st kw = true ->
  parseReqline statement = Throw (DuplicateSection kw)
  /\ ensureSingleSpaceAfterKeyword (kw ++ " " ++ " " ++ v) kw
     = Throw MultipleSpaces.
Proof.
  intros Hkw Hs Ho Hpre Hseen. split.
  - unfold parseReqline. rewrite Hs. cbn [bind].
    unfold order_ok in Ho. apply andb_true_iff in Ho as [O1 O2].
    apply negb_true_iff in O1, O2. rewrite O1, O2.
    now rewrite (duplicate_in_loop pre post initial_locals st kw (" " ++ v)).
  - rewrite ensure_decomposed.
    change (" " ++ v) with (String " " v). rewrite strlen_cons.
    pose proof (strlen_nonneg v).
    destruct (1 + strlen v =? 0) eqn:E; [apply Z.eqb_eq in E; lia|].
    reflexivity.
Qed.

(** C4, as the code has it.  In a descriptor that the parser returns, each of
    [headers], [query] and [body] is the value that [JSON.parse] gives for
    the text of its section, whatever kind of JSON value that is, and the
    empty mapping when the statement has no such section. *)
Theorem sections_decoded_or_default (statement : JSValue) (d : Descriptor) :
  parseReqline statement = Return d ->
  exists segments,
    splitByPipes statement = Return segments
    /\ (forall v, In ("HEADERS " ++ v) segments -> JSON_parse v = Return (headers d))
    /\ ((forall v, ~ In ("HEADERS " ++ v) segments) -> headers d = JObject [])
    /\ (forall v, In ("QUERY " ++ v) segments -> JSON_parse v = Return (query d))
    /\ ((forall v, ~ In ("QUERY " ++ v) segments) -> query d = JObject [])
    /\ (forall v, In ("BODY " ++ v) segments -> JSON_parse v = Return (body d))
    /\ ((forall v, ~ In ("BODY " ++ v) segments) -> body d = JObject []).
Proof.
  intros Hp.
  destruct (parseReqline_Return _ _ Hp)
    as (segments & st & m & u & full & Es & _ & _ & Ep & -> & _).
  exists segments. split; [exact Es|]. cbn [headers query body].
  repeat split.
  - intros v Hin.
    now destruct (parse_segments_present _ _ _ "HEADERS" v Ep eq_refl Hin).
  - intros Hno.
    now destruct (parse_segments_absent _ _ _ "HEADERS" Ep eq_refl Hno).
  - intros v Hin.
    now destruct (parse_segments_present _ _ _ "QUERY" v Ep eq_refl Hin).
  - intros Hno.
    now destruct (parse_segments_absent _ _ _ "QUERY" Ep eq_refl Hno).
  - intros v Hin.
    now destruct (parse_segments_present _ _ _ "BODY" v Ep eq_refl Hin).
  - intros Hno.
    now destruct (parse_segments_absent _ _ _ "BODY" Ep eq_refl Hno).
Qed.

(** C6, as the code has it.  On the empty statement the segmenter throws the
    very error that the assembler throws for a statement that does not start
    with the HTTP section. *)
Theorem empty_statement_error :
  splitByPipes (JString "") = Throw MissingHTTPKeyword
  /\ parseReqline (JString "") = Throw MissingHTTPKeyword
  /\ parseReqline (JString "URL http://x | HTTP GET") = Throw MissingHTTPKeyword.
Proof. repeat split. Qed.

End Order.

Lemma order_checks_first_witness :
  parseReqline (H := Reference.runtime) (JString "http get | url x")
  = Throw MissingHTTPKeyword
  /\ parseReqline (H := Reference.runtime) (JString "HTTP get | url x")
     = Throw MissingURLKeyword
  /\ parseReqline (H := Reference.runtime) (JString "HTTPS GET | FOO bar")
     = Throw MissingURLKeyword
  /\ (parse_segment (H := Reference.runtime) initial_locals "HTTPS GET"
      = Throw KeywordsUppercase
      /\ parseReqline (H := Reference.runtime)
           (JString "HTTPS GET | URL http://x") = Throw KeywordsUppercase)
  /\ (exists m,
        parseReqline (H := Reference.runtime) (JString "HTTP get | URLS x")
        = Throw m
        /\ parse_segments (H := Reference.runtime) initial_locals
             ["HTTP get"; "URLS x"] = Throw m
        /\ m <> MissingHTTPKeyword /\ m <> MissingURLKeyword).
Proof.
  split; [|split; [|split; [|split]]].
  - apply (order_checks_first (H := Reference.runtime)
             (JString "http get | url x") ["http get"; "url x"] "http get");
      vm_compute; reflexivity.
  - apply (order_checks_first (H := Reference.runtime)
             (JString "HTTP get | url x") ["HTTP get"; "url x"] "HTTP get");
      vm_compute; reflexivity.
  - apply (order_checks_first (H := Reference.runtime)
             (JString "HTTPS GET | FOO bar") ["HTTPS GET"; "FOO bar"]
             "HTTPS GET");
      vm_compute; reflexivity.
  - apply (proj2 (proj2 (order_checks_first (H := Reference.runtime)
                           (JString "HTTPS GET | URL http://x")
                           ["HTTPS GET"; "URL http://x"] "HTTPS GET"
                           ltac:(vm_compute; reflexivity)
                           ltac:(vm_compute; reflexivity)))
             "URL http://x");
      vm_compute; reflexivity.
  - apply (proj2 (proj2 (order_checks_first (H := Reference.runtime)
                           (JString "HTTP get | URLS x")
                           ["HTTP get"; "URLS x"] "HTTP get"
                           ltac:(vm_compute; reflexivity)
                           ltac:(vm_compute; reflexivity)))
             "URLS x");
      try (vm_compute; reflexivity).
    right. vm_compute. reflexivity.
Defined.

Lemma sections_decoded_or_default_witness :
  let d := {| method := "POST"; url := "http://x";
              headers := JObject []; query := JObject [];
              body := JArray [JNumber 1; JNumber 2];
              full_url := "http://x" |} in
  exists segments,
    splitByPipes (JString "HTTP POST | URL http://x | BODY [1, 2]")
    = Return segments
    /\ (forall v, In ("HEADERS " ++ v) segments ->
        JSON_parse (JSRuntime := Reference.runtime) v = Return (headers d))
    /\ ((forall v, ~ In ("HEADERS " ++ v) segments) -> headers d = JObject [])
    /\ (forall v, In ("QUERY " ++ v) segments ->
        JSON_parse (JSRuntime := Reference.runtime) v = Return (query d))
    /\ ((forall v, ~ In ("QUERY " ++ v) segments) -> query d = JObject [])
    /\ (forall v, In ("BODY " ++ v) segments ->
        JSON_parse (JSRuntime := Reference.runtime) v = Return (body d))
    /\ ((forall v, ~ In ("BODY " ++ v) segments) -> body d = JObject []).
Proof.
  intros d.
  apply (sections_decoded_or_default (H := Reference.runtime)
           (JString "HTTP POST | URL http://x | BODY [1, 2]") d).
  vm_compute. reflexivity.
Defined.

(** The order checks accept a first segment that only begins with [HTTP] and
    a second one that only begins with [URL]: such a statement is not
    reported as missing its HTTP or URL section. *)
Lemma order_check_counterexample :
  splitByPipes (JString "HTTPS GET | URL http://x")
  = Return ["HTTPS GET"; "URL http://x"]
  /\ is_section "HTTP" "HTTPS GET" = false
  /\ parseReqline (H := Reference.runtime) (JString "HTTPS GET | URL http://x")
     = Throw KeywordsUppercase
  /\ splitByPipes (JString "HTTP GET | URLS http://x")
     = Return ["HTTP GET"; "URLS http://x"]
  /\ is_section "HTTP" "HTTP GET" = true
  /\ is_section "URL" "URLS http://x" = false
  /\ parseReqline (H := Reference.runtime) (JString "HTTP GET | URLS http://x")
     = Throw KeywordsUppercase
  /\ KeywordsUppercase <> MissingHTTPKeyword
  /\ KeywordsUppercase <> MissingURLKeyword.
Proof. evaluate. Qed.

Lemma duplicate_before_spacing_witness :
  parseReqline (H := Reference.runtime)
    (JString "HTTP GET | URL http://x | HTTP  POST")
  = Throw (DuplicateSection "HTTP")
  /\ ensureSingleSpaceAfterKeyword "HTTP  POST" "HTTP" = Throw MultipleSpaces.
Proof.
  apply (duplicate_before_spacing (H := Reference.runtime)
           (JString "HTTP GET | URL http://x | HTTP  POST")
           ["HTTP GET"; "URL http://x"] []
           {| seen := ["URL"; "HTTP"]; httpMethod := "GET";
              baseURL := "http://x"; l_headers := JObject [];
              l_query := JObject []; l_body := JObject [] |}
           "HTTP" "POST").
  - left. reflexivity.
  - vm_compute. reflexivity.
  - vm_compute. reflexivity.
  - vm_compute. reflexivity.
  - vm_compute. reflexivity.
Defined.

(** The repeated HTTP section with two spaces after its keyword is reported
    as a duplicate section, not as a spacing error. *)
Lemma duplicate_counterexample :
  parseReqline (H := Reference.runtime)
    (JString "HTTP GET | URL http://x | HTTP  POST")
  = Throw (DuplicateSection "HTTP")
  /\ DuplicateSection "HTTP" <> MultipleSpaces.
Proof. evaluate. Qed.

(** Sections that hold [null], a number and an array are returned as such. *)
Lemma sections_counterexample :
  exists d,
    parseReqline (H := Reference.runtime)
      (JString "HTTP GET | URL http://x | HEADERS null | QUERY 5 | BODY [1]")
    = Return d
    /\ is_mapping (headers d) = false
    /\ is_mapping (query d) = false
    /\ is_mapping (body d) = false.
Proof.
  exists {| method := "GET"; url := "http://x";
            headers := JNull; query := JNumber 5; body := JArray [JNumber 1];
            full_url := "http://x" |}.
  evaluate.
Qed.

(** No error of the segmenter on the empty statement differs from the
    missing-HTTP-keyword error. *)
Lemma empty_statement_counterexample :
  ~ (exists e, splitByPipes (JString "") = Throw e /\ e <> MissingHTTPKeyword).
Proof. intros (e & E & Hne). injection E as <-. now apply Hne. Qed.

(** C2.  Between the two delimiters of [A | | B] nothing stands, and the
    segmenter returns three segments: [substring(4, 3)] swaps its bounds and
    yields the space between the delimiters, so the test of an empty segment
    does not fire.  The statement is refused only later, by the assembler. *)
Theorem adjacent_pipes_accepted :
  splitByPipes (JString "A | | B") = Return ["A"; " "; "B"]
  /\ substring "A | | B" 4 3 = " "
  /\ parseReqline (H := Reference.runtime)
       (JString "HTTP GET | URL http://x | | BODY {}")
     = Throw KeywordsUppercase
  /\ parseReqline (H := Reference.runtime) (JString "HTTP GET | | URL http://x")
     = Throw MissingURLKeyword.
Proof. evaluate. Qed.

(** ** The URL builder *)

Lemma insert_index_map {A B : Type} (f : A -> B) (e : N * A) (l : list (N * A)) :
  insert_index (fst e, f (snd e)) (map (fun x => (fst x, f (snd x))) l)
  = map (fun x => (fst x, f (snd x))) (insert_index e l).
Proof.
  induction l as [|x l IH]; simpl; [reflexivity|].
  destruct (fst e <=? fst x)%N; simpl; [reflexivity|]. now rewrite IH.
Qed.

Lemma sort_indices_map {A B : Type} (f : A -> B) (l : list (N * A)) :
  sort_indices (map (fun x => (fst x, f (snd x))) l)
  = map (fun x => (fst x, f (snd x))) (sort_indices l).
Proof.
  induction l as [|e l IH]; simpl; [reflexivity|].
  unfold sort_indices in *. simpl. rewrite IH. apply (insert_index_map f e).
Qed.

Lemma index_keys_entries (props : list (string * JSValue)) :
  index_keys (map fst props)
  = map (fun x => (fst x, fst (snd x))) (index_entries props).
Proof.
  induction props as [|e props IH]; simpl; [reflexivity|].
  destruct (array_index (fst e)); simpl; now rewrite IH.
Qed.

Lemma filter_map_fst (P : string -> bool) (props : list (string * JSValue)) :
  filter P (map fst props) = map fst (filter (fun e => P (fst e)) props).
Proof.
  induction props as [|e props IH]; simpl; [reflexivity|].
  destruct (P (fst e)); simpl; now rewrite IH.
Qed.

Lemma own_keys_entries (props : list (string * JSValue)) :
  own_keys props = map fst (own_entries props).
Proof.
  unfold own_keys, own_entries.
  rewrite map_app, index_keys_entries, (sort_indices_map fst), !map_map.
  now rewrite filter_map_fst.
Qed.

Lemma insert_index_In {A : Type} (e x : N * A) (l : list (N * A)) :
  In x (insert_index e l) -> x = e \/ In x l.
Proof.
  induction l as [|y l IH]; simpl.
  - intros [<-|[]]. now left.
  - destruct (fst e <=? fst y)%N; simpl.
    + intros [<-|[<-|Hin]]; auto.
    + intros [<-|Hin]; auto. destruct (IH Hin); auto.
Qed.

Lemma sort_indices_In {A : Type} (x : N * A) (l : list (N * A)) :
  In x (sort_indices l) -> In x l.
Proof.
  induction l as [|e l IH]; simpl; [auto|].
  intros Hin. apply insert_index_In in Hin as [->|Hin]; auto.
Qed.

Lemma index_entries_In (x : N * (string * JSValue))
  (props : list (string * JSValue)) :
  In x (index_entries props) -> In (snd x) props.
Proof.
  induction props as [|e props IH]; simpl; [auto|].
  destruct (array_index (fst e)); simpl.
  - intros [<-|Hin]; auto.
  - auto.
Qed.

Lemma own_entries_In (e : string * JSValue) (props : list (string * JSValue)) :
  In e (own_entries props) -> In e props.
Proof.
  unfold own_entries. intros Hin. apply in_app_or in Hin as [Hin|Hin].
  - apply in_map_iff in Hin as (x & <- & Hx).
    now apply index_entries_In, sort_indices_In.
  - now apply filter_In in Hin.
Qed.

Lemma insert_index_Permutation {A : Type} (e : N * A) (l : list (N * A)) :
  Permutation (insert_index e l) (e :: l).
Proof.
  induction l as [|x l IH]; simpl; [reflexivity|].
  destruct (fst e <=? fst x)%N; [reflexivity|].
  rewrite IH. apply perm_swap.
Qed.

Lemma sort_indices_Permutation {A : Type} (l : list (N * A)) :
  Permutation (sort_indices l) l.
Proof.
  induction l as [|e l IH]; simpl; [reflexivity|].
  unfold sort_indices in *. simpl. rewrite insert_index_Permutation.
  now apply perm_skip.
Qed.

Lemma insert_index_Sorted {A : Type} (e : N * A) (l : list (N * A)) :
  Sorted (fun x y => fst x <= fst y)%N l ->
  Sorted (fun x y => fst x <= fst y)%N (insert_index e l).
Proof.
  induction 1 as [|x l Hs IH Hd]; simpl; [repeat constructor|].
  destruct (fst e <=? fst x)%N eqn:E.
  - apply N.leb_le in E. repeat constructor; assumption.
  - apply N.leb_gt in E. constructor; [exact IH|].
    destruct Hd as [|y l' Hxy]; simpl.
    + constructor. lia.
    + destruct (fst e <=? fst y)%N; constructor; lia || assumption.
Qed.

(** The array indices come in ascending order. *)
Lemma sort_indices_Sorted {A : Type} (l : list (N * A)) :
  Sorted (fun x y => fst x <= fst y)%N (sort_indices l).
Proof.
  induction l as [|e l IH]; simpl; [constructor|].
  now apply insert_index_Sorted.
Qed.

Lemma index_entries_filter (props : list (string * JSValue)) :
  map snd (index_entries props)
  = filter (fun e => is_array_index (fst e)) props.
Proof.
  induction props as [|e props IH]; simpl; [reflexivity|].
  unfold is_array_index at 1. destruct (array_index (fst e)); simpl;
    now rewrite IH.
Qed.

Lemma filter_split_Permutation {A : Type} (P : A -> bool) (l : list A) :
  Permutation (filter P l ++ filter (fun x => negb (P x)) l) l.
Proof.
  induction l as [|a l IH]; simpl; [reflexivity|].
  destruct (P a); simpl.
  - now apply perm_skip.
  - rewrite <- Permutation_middle. now apply perm_skip.
Qed.

(** [Object.keys] loses no entry and repeats none. *)
Lemma own_entries_Permutation (props : list (string * JSValue)) :
  Permutation (own_entries props) props.
Proof.
  unfold own_entries.
  rewrite (Permutation_map snd (sort_indices_Permutation (index_entries props))).
  rewrite index_entries_filter.
  apply (filter_split_Permutation (fun e => is_array_index (fst e))).
Qed.

Lemma own_entries_plain (props : list (string * JSValue)) :
  (forall k, In k (map fst props) -> is_array_index k = false) ->
  own_entries props = props.
Proof.
  intros Hplain. unfold own_entries.
  assert (E : index_entries props = []).
  { induction props as [|e props IH]; simpl; [reflexivity|].
    pose proof (Hplain (fst e) (or_introl eq_refl)) as He.
    unfold is_array_index in He. destruct (array_index (fst e)); [discriminate|].
    apply IH. intros k Hk. apply Hplain. now right. }
  rewrite E. simpl.
  induction props as [|e props IH]; simpl; [reflexivity|].
  rewrite (Hplain (fst e) (or_introl eq_refl)). simpl. f_equal.
  apply IH.
  - intros k Hk. apply Hplain. now right.
  - simpl in E. destruct (array_index (fst e)); [discriminate|exact E].
Qed.

Lemma lookup_NoDup (props : list (string * JSValue)) (k : string) (v : JSValue) :
  NoDup (map fst props) -> In (k, v) props -> lookup props k = Some v.
Proof.
  induction props as [|[k' v'] props IH]; simpl; [easy|].
  intros Hnd Hin. inversion Hnd as [|? ? Hnotin Hnd']; subst.
  destruct Hin as [E|Hin].
  - injection E as -> ->. now rewrite String.eqb_refl.
  - destruct (String.eqb k' k) eqn:E; [|now apply IH].
    apply String.eqb_eq in E. subst k'. exfalso. apply Hnotin.
    apply in_map_iff. now exists (k, v).
Qed.

Lemma append_not_empty_r (a b : string) : b <> "" -> a ++ b <> "".
Proof. destruct a; simpl; [auto|discriminate]. Qed.

Lemma join_not_empty (sep p : string) (rest : list string) :
  p <> "" -> join sep (p :: rest) <> "".
Proof.
  intros Hp. destruct rest; simpl; [exact Hp|].
  destruct p; [congruence|discriminate].
Qed.

Lemma for_each_cons {A B : Type} (f : A -> result B) (a : A) (l : list A)
  (bs : list B) :
  for_each f (a :: l) = Return bs ->
  exists b bs', f a = Return b /\ for_each f l = Return bs' /\ bs = b :: bs'.
Proof.
  cbn [for_each]. destruct (f a) as [b|]; [|discriminate]. cbn [bind].
  destruct (for_each f l) as [bs'|]; [|discriminate]. cbn [bind].
  intros E. injection E as <-. now exists b, bs'.
Qed.

Lemma for_each_ext_in {A B : Type} (f g : A -> result B) (l : list A) :
  (forall a, In a l -> f a = g a) -> for_each f l = for_each g l.
Proof.
  induction l as [|a l IH]; intros Hfg; [reflexivity|].
  cbn [for_each]. rewrite (Hfg a (or_introl eq_refl)), IH; [reflexivity|].
  intros x Hx. apply Hfg. now right.
Qed.

Lemma for_each_map {A B C : Type} (f : B -> result C) (g : A -> B) (l : list A) :
  for_each f (map g l) = for_each (fun a => f (g a)) l.
Proof.
  induction l as [|a l IH]; [reflexivity|].
  cbn [map for_each]. now rewrite IH.
Qed.

Lemma sort_indices_Forall {A : Type} (P : N * A -> Prop) (l : list (N * A)) :
  Forall P l -> Forall P (sort_indices l).
Proof.
  intros Hl. apply Forall_forall. intros x Hx.
  apply sort_indices_In in Hx. rewrite Forall_forall in Hl. now apply Hl.
Qed.

Lemma index_entries_index (props : list (string * JSValue)) :
  Forall (fun x => array_index (fst (snd x)) = Some (fst x)) (index_entries props).
Proof.
  induction props as [|e props IH]; simpl; [constructor|].
  destruct (array_index (fst e)) eqn:E; [constructor; [exact E|exact IH]|exact IH].
Qed.

Section Builder.

Context `{JSRuntime}.

Lemma query_parts_entries (props entries : list (string * JSValue)) :
  (forall k v, In (k, v) entries -> lookup props k = Some v) ->
  for_each (query_part (JObject props)) (map fst entries)
  = for_each spec_pair entries.
Proof.
  intros Hl. rewrite for_each_map. apply for_each_ext_in. intros [k v] Hin.
  unfold query_part, spec_pair, js_get. cbn [fst snd].
  now rewrite (Hl k v Hin), ToString_string.
Qed.

Lemma spec_pair_not_empty (e : string * JSValue) (p : string) :
  spec_pair e = Return p -> p <> "".
Proof.
  unfold spec_pair.
  destruct (encodeURIComponent (fst e)); [|discriminate]. cbn [bind].
  destruct (ToString (snd e)); [|discriminate]. cbn [bind].
  destruct (encodeURIComponent _); [|discriminate]. cbn [bind].
  intros E. injection E as <-. apply append_not_empty_r. discriminate.
Qed.

(** The builder on an object, in the words of the specification. *)
Lemma constructFullURL_entries (baseURL : string)
  (props : list (string * JSValue)) :
  NoDup (map fst props) ->
  constructFullURL baseURL (JObject props)
  = spec_fullURL baseURL (own_entries props).
Proof.
  intros Hnd.
  unfold constructFullURL, buildQueryString. cbn [js_or truthy Object_keys].
  rewrite own_keys_entries.
  rewrite (query_parts_entries props (own_entries props))
    by (intros k v Hin; apply lookup_NoDup; [exact Hnd|];
        now apply own_entries_In).
  destruct (own_entries props) as [|e entries] eqn:E; [reflexivity|].
  cbn [map List.length]. rewrite Nat2Z.inj_succ.
  destruct (Z.succ (Z.of_nat (List.length (map fst entries))) =? 0) eqn:E0;
    [apply Z.eqb_eq in E0; lia|].
  unfold spec_fullURL.
  destruct (for_each spec_pair (e :: entries)) as [pairs|m] eqn:Ep;
    [|reflexivity].
  cbn [bind].
  destruct (for_each_cons _ _ _ _ Ep) as (p & ps & Hp & _ & ->).
  destruct (String.eqb (join "&" (p :: ps)) "") eqn:Eq.
  - apply String.eqb_eq in Eq. exfalso. revert Eq.
    apply join_not_empty. eapply spec_pair_not_empty, Hp.
  - rewrite contains_indexOf. reflexivity.
Qed.

(** C5, as the code has it.  For an object with no entries the builder
    returns the base URL; otherwise it serialises the entries in the order of
    [Object.keys] ([own_entries], a rearrangement of the entries): the
    entries whose keys are array indices in ascending numeric order, then
    the other entries in insertion order; when no key is an array index this
    is the insertion order.  If [encodeURIComponent] and [String] return for
    every key and value, it returns the base URL, [?] (or [&] when the base
    URL contains a [?]) and the pairs
    [encodeURIComponent(key)=encodeURIComponent(String(value))] joined by
    [&]; if one of them throws, the first error, in that order, is the error
    of the builder and no URL is returned. *)
Theorem constructFullURL_own_order (baseURL : string)
  (props : list (string * JSValue)) :
  NoDup (map fst props) ->
  constructFullURL baseURL (JObject props)
  = spec_fullURL baseURL (own_entries props)
  /\ Permutation (own_entries props) props
  /\ (exists indexed,
        own_entries props
        = (map snd indexed
           ++ filter (fun e => negb (is_array_index (fst e))) props)%list
        /\ Forall (fun x => array_index (fst (snd x)) = Some (fst x)) indexed
        /\ Sorted (fun x y => fst x <= fst y)%N indexed
        /\ Permutation (map snd indexed)
             (filter (fun e => is_array_index (fst e)) props))
  /\ (props = [] -> constructFullURL baseURL (JObject props) = Return baseURL)
  /\ ((forall k, In k (map fst props) -> is_array_index k = false) ->
      constructFullURL baseURL (JObject props) = spec_fullURL baseURL props)
  /\ (forall pairs,
        props <> [] ->
        for_each spec_pair (own_entries props) = Return pairs ->
        constructFullURL baseURL (JObject props)
        = Return (baseURL ++ (if has_char "?" baseURL then "&" else "?")
                  ++ join "&" pairs))
  /\ (forall m,
        for_each spec_pair (own_entries props) = Throw m ->
        constructFullURL baseURL (JObject props) = Throw m).
Proof.
  intros Hnd.
  pose proof (constructFullURL_entries baseURL props Hnd) as Main.
  split; [exact Main|].
  split; [apply own_entries_Permutation|].
  split.
  { exists (sort_indices (index_entries props)).
    split; [reflexivity|].
    split; [apply sort_indices_Forall, index_entries_index|].
    split; [apply sort_indices_Sorted|].
    rewrite <- index_entries_filter.
    apply Permutation_map, sort_indices_Permutation. }
  split; [intros ->; reflexivity|].
  split; [intros Hplain; now rewrite Main, own_entries_plain|].
  split.
  - intros pairs Hne Hp. rewrite Main. unfold spec_fullURL.
    destruct (own_entries props) as [|e entries] eqn:E.
    + exfalso. apply Hne.
      pose proof (own_entries_Permutation props) as P. rewrite E in P.
      now apply Permutation_nil in P.
    + now rewrite Hp.
  - intros m Hm. rewrite Main. unfold spec_fullURL.
    destruct (own_entries props) as [|e entries] eqn:E; [discriminate|].
    now rewrite Hm.
Qed.

End Builder.

Lemma constructFullURL_own_order_witness :
  constructFullURL (H := Reference.runtime) "http://x/y?z=1"
    (JObject [("b", JString "1"); ("10", JNumber 7); ("a b", JBool true);
              ("2", JNull)])
  = Return "http://x/y?z=1&2=null&10=7&b=1&a%20b=true"
  /\ constructFullURL (H := Reference.runtime) "http://x"
       (JObject [("a", JString "1");
                 ("b", JObject [("toString", JNumber 1)]);
                 ("c", JString "3")])
     = Throw Reference.NotPrimitive.
Proof.
  assert (Hnd : NoDup ["b"; "10"; "a b"; "2"])
    by (repeat constructor; simpl; intuition discriminate).
  assert (Hnd' : NoDup ["a"; "b"; "c"])
    by (repeat constructor; simpl; intuition discriminate).
  split.
  - rewrite (proj1 (constructFullURL_own_order (H := Reference.runtime)
                      "http://x/y?z=1"
                      [("b", JString "1"); ("10", JNumber 7);
                       ("a b", JBool true); ("2", JNull)] Hnd)).
    vm_compute. reflexivity.
  - apply (constructFullURL_own_order (H := Reference.runtime) "http://x"
             [("a", JString "1"); ("b", JObject [("toString", JNumber 1)]);
              ("c", JString "3")] Hnd').
    vm_compute. reflexivity.
Defined.

(** The query round trip of the specification: two plain keys come out in
    the order in which the section gives them. *)
Example query_round_trip :
  parseReqline (H := Reference.runtime)
    (JString ("HTTP GET | URL http://x/y | QUERY {"
              ++ quoted "a" ++ ":" ++ quoted "1" ++ ","
              ++ quoted "b" ++ ":" ++ quoted "2" ++ "}"))
  = Return {| method := "GET"; url := "http://x/y"; headers := JObject [];
              query := JObject [("a", JString "1"); ("b", JString "2")];
              body := JObject [];
              full_url := "http://x/y?a=1&b=2" |}.
Proof. evaluate. Qed.

(** A QUERY value that [String] cannot convert: the sections are all valid,
    and the error of the host leaves the parser. *)
Example query_not_primitive :
  parseReqline (H := Reference.runtime)
    (JString ("HTTP GET | URL http://x | QUERY {"
              ++ quoted "a" ++ ":{" ++ quoted "toString" ++ ":1}}"))
  = Throw Reference.NotPrimitive.
Proof. evaluate. Qed.

(** With a key that is an array index the pairs do not come in insertion
    order: the QUERY section gives [b] before [1], the URL has [1] before
    [b]. *)
Lemma constructFullURL_counterexample :
  constructFullURL (H := Reference.runtime) "http://x"
    (JObject [("b", JString "1"); ("1", JString "2")])
  = Return "http://x?1=2&b=1"
  /\ spec_fullURL (H := Reference.runtime) "http://x"
       [("b", JString "1"); ("1", JString "2")]
     = Return "http://x?b=1&1=2"
  /\ constructFullURL (H := Reference.runtime) "http://x"
       (JObject [("b", JString "1"); ("1", JString "2")])
     <> spec_fullURL (H := Reference.runtime) "http://x"
          [("b", JString "1"); ("1", JString "2")]
  /\ parseReqline (H := Reference.runtime)
       (JString ("HTTP GET | URL http://x | QUERY {"
                 ++ quoted "b" ++ ":" ++ quoted "1" ++ ","
                 ++ quoted "1" ++ ":" ++ quoted "2" ++ "}"))
     = Return {| method := "GET"; url := "http://x"; headers := JObject [];
                 query := JObject [("b", JString "1"); ("1", JString "2")];
                 body := JObject [];
                 full_url := "http://x?1=2&b=1" |}.
Proof. evaluate. Qed.

(** ** The handler *)

Section HandlerFacts.

Context `{JSRuntime}.

(** The [catch] block throws on [undefined] and [null], and on nothing
    else. *)
Lemma catch_block_nullish (e : JSValue) :
  nullish e = true -> catch_block e = Throw (TypeError_property e "message").
Proof. destruct e; try discriminate; reflexivity. Qed.

Lemma catch_block_Return (e : JSValue) :
  nullish e = false ->
  exists httpStatus responseData,
    catch_block e = Return (httpStatus, responseData)
    /\ (httpStatus = JNumber 0 \/ truthy httpStatus = true)
    /\ truthy responseData = true.
Proof.
  intros He. unfold catch_block.
  set (ctx := if truthy e && truthy (js_get e "context")
                 && truthy (js_get (js_get e "context") "response")
              then js_get (js_get e "context") "response" else JObject []).
  assert (Hs : js_or (js_get ctx "statusCode") (JNumber 0) = JNumber 0
               \/ truthy (js_or (js_get ctx "statusCode") (JNumber 0)) = true).
  { unfold js_or. destruct (truthy (js_get ctx "statusCode")) eqn:E; auto. }
  destruct (truthy (js_get ctx "data")) eqn:Ed.
  - eexists _, _. split; [reflexivity|]. now split.
  - assert (R : read_property e "message" = Return (js_get e "message"))
      by (destruct e; try discriminate; reflexivity).
    rewrite R. cbn [bind]. eexists _, _. split; [reflexivity|]. now split.
Qed.

(** A client that resolves to [undefined] or [null] is reported like one
    that rejects with the [TypeError] of the read. *)
Lemma settle_Resolved_nullish (res : JSValue) :
  nullish res = true ->
  settle (Resolved res)
  = Return (JNumber 0,
            error_data (JString (TypeError_property res "statusCode"))).
Proof. destruct res; try discriminate; reflexivity. Qed.

Lemma settle_Resolved (res : JSValue) :
  nullish res = false ->
  settle (Resolved res) = Return (js_get res "statusCode", js_get res "data").
Proof. destruct res; try discriminate; reflexivity. Qed.

(** The inner [try]/[catch] lets an error out exactly when the client
    rejects with [undefined] or [null]. *)
Lemma settle_Throw (outcome : HttpOutcome) (m : string) :
  settle outcome = Throw m
  <-> exists e,
        outcome = Rejected e /\ nullish e = true
        /\ m = TypeError_property e "message".
Proof.
  split.
  - destruct outcome as [res|e].
    + destruct (nullish res) eqn:N.
      * rewrite (settle_Resolved_nullish res N). discriminate.
      * rewrite (settle_Resolved res N). discriminate.
    + cbn [settle]. destruct (nullish e) eqn:N.
      * rewrite (catch_block_nullish e N). intros E. injection E as <-.
        now exists e.
      * destruct (catch_block_Return e N) as (hs & rd & -> & _). discriminate.
  - intros (e & -> & N & ->). exact (catch_block_nullish e N).
Qed.

Variable host : Host.

Lemma handler_not_string (rc_body : JSValue) :
  typeof (reqline_of rc_body) <> "string" ->
  handler host rc_body
  = {| calls := [];
       response := {| status := 400; data := error_data (JString InvalidInput) |} |}.
Proof.
  intros Ht. unfold handler.
  destruct (String.eqb (typeof (reqline_of rc_body)) "string") eqn:E;
    [now apply String.eqb_eq in E|reflexivity].
Qed.

Lemma handler_parse_error (rc_body : JSValue) (m : string) :
  typeof (reqline_of rc_body) = "string" ->
  parseReqline (reqline_of rc_body) = Throw m ->
  handler host rc_body
  = {| calls := [];
       response :=
         {| status := 400;
            data := error_data (JString (message_or_generic m)) |} |}.
Proof.
  intros Ht Hp. unfold handler.
  rewrite Ht, Hp. cbn [String.eqb Ascii.eqb Bool.eqb negb].
  unfold js_or, truthy, message_or_generic.
  destruct (String.eqb m ""); reflexivity.
Qed.

(** The run of the handler on a statement that parses, in full. *)
Lemma handler_parsed (rc_body : JSValue) (d : Descriptor) :
  typeof (reqline_of rc_body) = "string" ->
  parseReqline (reqline_of rc_body) = Return d ->
  handler host rc_body
  = match settle (client_outcome host d) with
    | Throw message =>
        {| calls := [client_call d];
           response :=
             {| status := 400;
                data := error_data (JString (message_or_generic message)) |} |}
    | Return (httpStatus, responseData) =>
        {| calls := [client_call d];
           response :=
             {| status := 200;
                data :=
                  JObject
                    [("request",
                      JObject
                        [("query", js_or (query d) (JObject []));
                         ("body", js_or (body d) (JObject []));
                         ("headers", js_or (headers d) (JObject []));
                         ("full_url", JString (full_url d))]);
                     ("response",
                      JObject
                        [("http_status", httpStatus);
                         ("duration", JNumber (Date_now host 1 - Date_now host 0));
                         ("request_start_timestamp", JNumber (Date_now host 0));
                         ("request_stop_timestamp", JNumber (Date_now host 1));
                         ("response_data", responseData)])] |} |}
    end.
Proof.
  intros Ht Hp.
  destruct (parseReqline_Return _ _ Hp)
    as (_ & st & m & u & full & _ & _ & _ & _ & Hd & Hm & HM & _).
  assert (Hmethod : method d = "GET" \/ method d = "POST")
    by (subst d; cbn [method]; now rewrite Hm).
  unfold handler, client_call, client_outcome. rewrite Ht, Hp.
  cbn [String.eqb Ascii.eqb Bool.eqb negb].
  destruct Hmethod as [-> | ->]; cbn [String.eqb Ascii.eqb Bool.eqb];
    destruct (settle _) as [[httpStatus responseData]|message];
    try reflexivity;
    unfold js_or, truthy, message_or_generic;
    destruct (String.eqb message ""); reflexivity.
Qed.

Lemma handler_parsed_status (rc_body : JSValue) (d : Descriptor) :
  typeof (reqline_of rc_body) = "string" ->
  parseReqline (reqline_of rc_body) = Return d ->
  (status (response (handler host rc_body)) = 400
   /\ exists e, client_outcome host d = Rejected e /\ nullish e = true)
  \/ (status (response (handler host rc_body)) = 200
      /\ forall e, client_outcome host d = Rejected e -> nullish e = false).
Proof.
  intros Ht Hp. rewrite (handler_parsed _ d Ht Hp).
  destruct (settle (client_outcome host d)) as [[hs rd]|m] eqn:Es.
  - right. split; [reflexivity|]. intros e He.
    destruct (nullish e) eqn:N; [|reflexivity].
    assert (T : settle (client_outcome host d)
                = Throw (TypeError_property e "message"))
      by (apply settle_Throw; now exists e).
    rewrite T in Es. discriminate.
  - left. split; [reflexivity|].
    apply settle_Throw in Es as (e & He & N & _). now exists e.
Qed.

(** C9.  The handler answers 400 with the body [{error: true, message}]
    when the pre-flight check or the parse of the reqline fails, and 200 when
    the parse succeeds and the client resolves or rejects with a value other
    than [undefined] and [null].  When the parse succeeds and the client
    rejects with [undefined] or [null], the [catch] block that is to turn
    the rejection into a 200 throws on reading [e.message]: the handler has
    made the call and answers 400, with the message of that [TypeError]. *)
Theorem handler_status (rc_body : JSValue) :
  let failed (m : string) :=
    (typeof (reqline_of rc_body) <> "string" /\ m = InvalidInput)
    \/ (typeof (reqline_of rc_body) = "string"
        /\ parseReqline (reqline_of rc_body) = Throw m) in
  let dropped (m : string) :=
    exists d e,
      typeof (reqline_of rc_body) = "string"
      /\ parseReqline (reqline_of rc_body) = Return d
      /\ client_outcome host d = Rejected e
      /\ nullish e = true
      /\ m = TypeError_property e "message" in
  (forall m, failed m \/ dropped m ->
     response (handler host rc_body)
     = {| status := 400;
          data := JObject [("error", JBool true);
                           ("message", JString (message_or_generic m))] |})
  /\ (status (response (handler host rc_body)) = 400
      <-> exists m, failed m \/ dropped m)
  /\ (status (response (handler host rc_body)) = 400
      \/ status (response (handler host rc_body)) = 200)
  /\ (forall d,
        typeof (reqline_of rc_body) = "string" ->
        parseReqline (reqline_of rc_body) = Return d ->
        (forall e, client_outcome host d = Rejected e -> nullish e = false) ->
        status (response (handler host rc_body)) = 200)
  /\ (forall m, failed m -> calls (handler host rc_body) = [])
  /\ (forall m, dropped m ->
        (forall m', ~ failed m')
        /\ exists call, calls (handler host rc_body) = [call]).
Proof.
  intros failed dropped.
  assert (F : forall m, failed m ->
                handler host rc_body
                = {| calls := [];
                     response :=
                       {| status := 400;
                          data := error_data (JString (message_or_generic m)) |} |}).
  { intros m [[Ht ->]|[Ht Hp]].
    - now rewrite handler_not_string.
    - now rewrite (handler_parse_error _ m). }
  assert (D : forall m, dropped m ->
                exists d,
                  handler host rc_body
                  = {| calls := [client_call d];
                       response :=
                         {| status := 400;
                            data :=
                              error_data (JString (message_or_generic m)) |} |}).
  { intros m (d & e & Ht & Hp & Ho & N & ->). exists d.
    rewrite (handler_parsed _ d Ht Hp), Ho. cbn [settle].
    now rewrite (catch_block_nullish e N). }
  split; [|split; [split|split; [|split; [|split]]]].
  - intros m [Hm|Hm]; [now rewrite (F m Hm)|].
    destruct (D m Hm) as (d & ->). reflexivity.
  - intros H400.
    destruct (string_dec (typeof (reqline_of rc_body)) "string") as [Ht|Ht].
    + destruct (parseReqline (reqline_of rc_body)) as [d|m] eqn:Hp.
      * destruct (handler_parsed_status _ d Ht Hp) as [[_ (e & Ho & N)]|[H200 _]].
        -- exists (TypeError_property e "message"). right. now exists d, e.
        -- rewrite H200 in H400. discriminate.
      * exists m. left. right. now split.
    + exists InvalidInput. left. left. now split.
  - intros [m [Hm|Hm]]; [now rewrite (F m Hm)|].
    destruct (D m Hm) as (d & ->). reflexivity.
  - destruct (string_dec (typeof (reqline_of rc_body)) "string") as [Ht|Ht].
    + destruct (parseReqline (reqline_of rc_body)) as [d|m] eqn:Hp.
      * destruct (handler_parsed_status _ d Ht Hp) as [[E _]|[E _]]; auto.
      * left. now rewrite (handler_parse_error _ m Ht Hp).
    + left. now rewrite handler_not_string.
  - intros d Ht Hp Hno.
    destruct (handler_parsed_status _ d Ht Hp) as [[_ (e & Ho & N)]|[E _]];
      [|exact E].
    rewrite (Hno e Ho) in N. discriminate.
  - intros m Hm. now rewrite (F m Hm).
  - intros m Hm. split.
    + destruct Hm as (d & e & Ht & Hp & _).
      intros m' [[Ht' _]|[_ Hp']]; [contradiction|congruence].
    + destruct (D m Hm) as (d & ->). now exists (client_call d).
Qed.

(** C10, as the code has it.  For a request whose body has no [reqline]
    field that is a string, the handler answers 400 and makes no call to the
    HTTP client; the message is [Invalid reqline input], unless the body is
    itself the empty string: [rc.body && rc.body.reqline] is then that
    string, which is parsed as a statement, and the message is the one of
    the parser for the empty statement. *)
Theorem handler_invalid_reqline (rc_body : JSValue) :
  has_string_reqline rc_body = false ->
  calls (handler host rc_body) = []
  /\ status (response (handler host rc_body)) = 400
  /\ (rc_body <> JString "" ->
      handler host rc_body
      = {| calls := [];
           response :=
             {| status := 400;
                data := JObject [("error", JBool true);
                                 ("message", JString "Invalid reqline input")] |} |})
  /\ (rc_body = JString "" ->
      handler host rc_body
      = {| calls := [];
           response :=
             {| status := 400;
                data := JObject [("error", JBool true);
                                 ("message",
                                  JString "Missing required HTTP keyword")] |} |}).
Proof.
  intros Hr.
  assert (E : rc_body = JString ""
              \/ (rc_body <> JString ""
                  /\ typeof (reqline_of rc_body) <> "string")).
  { unfold reqline_of.
    destruct rc_body as [| | b | n | s | elems | props];
      cbn [truthy js_get typeof].
    - right. split; discriminate.
    - right. split; discriminate.
    - right. split; [discriminate|]. destruct b; discriminate.
    - right. split; [discriminate|]. destruct (negb (n =? 0)); discriminate.
    - destruct s as [|c s]; [now left|right]. split; [discriminate|].
      cbn [String.eqb negb]. change (array_index "reqline") with (@None N).
      discriminate.
    - right. split; [discriminate|].
      change (array_index "reqline") with (@None N). discriminate.
    - right. split; [discriminate|]. cbn [has_string_reqline] in Hr.
      destruct (lookup props "reqline") as [[]|]; discriminate. }
  destruct E as [-> | [Hne Ht]].
  - repeat split. intros Hne. now contradiction Hne.
  - rewrite (handler_not_string _ Ht). repeat split.
    intros ->. now contradiction Hne.
Qed.

End HandlerFacts.

Lemma handler_status_witness :
  response (handler (H := Reference.runtime) (rejecting_host JUndefined)
              (JObject [("reqline", JString "HTTP GET | URL http://x")]))
  = {| status := 400;
       data :=
         JObject [("error", JBool true);
                  ("message",
                   JString "Cannot read properties of undefined (reading 'message')")] |}
  /\ calls (handler (H := Reference.runtime) (rejecting_host JUndefined)
              (JObject [("reqline", JString "HTTP GET | URL http://x")]))
     = [CallGet "http://x" (JObject [("headers", JObject [])])]
  /\ response (handler (H := Reference.runtime) refusing_host
                 (JObject [("reqline", JString "HTTP PUT | URL http://x")]))
     = {| status := 400;
          data :=
            JObject [("error", JBool true);
                     ("message",
                      JString "Invalid HTTP method. Only GET and POST are supported")] |}.
Proof.
  split; [|split].
  - apply (proj1 (handler_status (H := Reference.runtime)
                    (rejecting_host JUndefined)
                    (JObject [("reqline", JString "HTTP GET | URL http://x")]))
             "Cannot read properties of undefined (reading 'message')").
    right.
    exists {| method := "GET"; url := "http://x";
              headers := JObject []; query := JObject []; body := JObject [];
              full_url := "http://x" |}, JUndefined.
    evaluate.
  - vm_compute. reflexivity.
  - apply (proj1 (handler_status (H := Reference.runtime) refusing_host
                    (JObject [("reqline", JString "HTTP PUT | URL http://x")]))
             InvalidMethod).
    left. right. evaluate.
Defined.

Lemma handler_invalid_reqline_witness :
  handler (H := Reference.runtime) refusing_host
    (JObject [("statement", JString "HTTP GET | URL http://x");
              ("reqline", JNumber 7)])
  = {| calls := [];
       response :=
         {| status := 400;
            data := JObject [("error", JBool true);
                             ("message", JString "Invalid reqline input")] |} |}
  /\ handler (H := Reference.runtime) refusing_host (JString "HTTP GET | URL http://x")
     = {| calls := [];
          response :=
            {| status := 400;
               data := JObject [("error", JBool true);
                                ("message", JString "Invalid reqline input")] |} |}.
Proof.
  split.
  - apply (handler_invalid_reqline (H := Reference.runtime) refusing_host
             (JObject [("statement", JString "HTTP GET | URL http://x");
                       ("reqline", JNumber 7)]));
      [vm_compute; reflexivity|discriminate].
  - apply (handler_invalid_reqline (H := Reference.runtime) refusing_host
             (JString "HTTP GET | URL http://x"));
      [vm_compute; reflexivity|discriminate].
Defined.

(** A body that is the empty string has no [reqline] field, and the answer
    does not carry the message [Invalid reqline input]. *)
Lemma handler_invalid_reqline_counterexample :
  has_string_reqline (JString "") = false
  /\ handler (H := Reference.runtime) refusing_host (JString "")
     = {| calls := [];
          response :=
            {| status := 400;
               data := JObject [("error", JBool true);
                                ("message", JString MissingHTTPKeyword)] |} |}
  /\ MissingHTTPKeyword <> InvalidInput.
Proof. evaluate. Qed.

(** * Further properties *)

(** ** The segmenter *)

Lemma char_at_beyond (s : string) (k : Z) : strlen s <= k -> char_at s k = None.
Proof.
  intros Hk. unfold char_at. destruct (k <? 0); [reflexivity|].
  assert (Hn : (String.length s <= Z.to_nat k)%nat) by (unfold strlen in Hk; lia).
  clear Hk. revert Hn. generalize (Z.to_nat k) as n.
  induction s as [|c s IH]; intros n Hn; simpl; [reflexivity|].
  simpl in Hn. destruct n as [|n]; [lia|]. apply IH. lia.
Qed.

Lemma is_char_true (o : option ascii) (c : ascii) :
  is_char o c = true <-> o = Some c.
Proof.
  destruct o as [d|]; simpl.
  - rewrite Ascii.eqb_eq. split; congruence.
  - split; discriminate.
Qed.

Lemma scan_pipes_step (s : string) (n : nat) (i ts : Z) (segs : list string) :
  scan_pipes s (S n) i ts segs
  = if is_char (char_at s i) "|" then
      if bad_spacing s i then Throw PipeSpacing
      else if strlen (substring s ts (i - 1)) =? 0 then Throw PipeSpacing
      else scan_pipes s n (i + 1) (i + 2) (segs ++ [substring s ts (i - 1)])%list
    else scan_pipes s n (i + 1) ts segs.
Proof. reflexivity. Qed.

Lemma bad_spacing_false (s : string) (i : Z) :
  bad_spacing s i = false ->
  1 <= i /\ i + 1 < strlen s
  /\ char_at s (i - 1) = Some " "%char
  /\ char_at s (i + 1) = Some " "%char
  /\ is_char (char_at s (i - 2)) " " = false
  /\ is_char (char_at s (i + 2)) " " = false.
Proof.
  unfold bad_spacing. intros Hb.
  repeat (apply orb_false_iff in Hb; destruct Hb as [Hb ?]).
  apply Z.ltb_ge in Hb.
  match goal with H : (_ >=? _) = false |- _ =>
    rewrite Z.geb_leb in H; apply Z.leb_gt in H end.
  repeat match goal with H : negb _ = false |- _ =>
    apply negb_false_iff, is_char_true in H end.
  repeat split; try assumption; try lia.
  - destruct (i - 2 >=? 0) eqn:E; [assumption|].
    rewrite Z.geb_leb in E. apply Z.leb_gt in E.
    unfold char_at. now replace (i - 2 <? 0) with true by (symmetry; apply Z.ltb_lt; lia).
  - destruct (i + 2 <? strlen s) eqn:E; [assumption|].
    apply Z.ltb_ge in E. now rewrite char_at_beyond.
Qed.

Lemma scan_pipes_Throw_PipeSpacing (s : string) (n : nat) :
  forall i ts segs m, scan_pipes s n i ts segs = Throw m -> m = PipeSpacing.
Proof.
  induction n as [|n IH]; intros i ts segs m; [discriminate|].
  rewrite scan_pipes_step.
  destruct (is_char (char_at s i) "|"); [|apply IH].
  destruct (bad_spacing s i); [intros E; inversion E; reflexivity|].
  destruct (strlen (substring s ts (i - 1)) =? 0);
    [intros E; inversion E; reflexivity|apply IH].
Qed.

(** X2.  The segmenter has four errors, tried in this order: a statement
    that is not a string, the empty statement, a space at either end (even
    when a delimiter is badly spaced as well), and, for everything else that
    it refuses, the spacing of a delimiter. *)
Theorem splitByPipes_errors (statement : JSValue) :
  (typeof statement <> "string" -> splitByPipes statement = Throw InvalidInput)
  /\ (statement = JString "" -> splitByPipes statement = Throw MissingHTTPKeyword)
  /\ (forall s,
        statement = JString s -> s <> "" ->
        is_char (char_at s 0) " " = true
        \/ is_char (char_at s (strlen s - 1)) " " = true ->
        splitByPipes statement = Throw MultipleSpaces)
  /\ (forall s m,
        statement = JString s -> s <> "" ->
        is_char (char_at s 0) " " = false ->
        is_char (char_at s (strlen s - 1)) " " = false ->
        splitByPipes statement = Throw m -> m = PipeSpacing).
Proof.
  repeat split.
  - destruct statement; try reflexivity. intros Ht. now contradiction Ht.
  - intros ->. reflexivity.
  - intros s -> Hs Hb. unfold splitByPipes.
    destruct (strlen s =? 0) eqn:E; [apply Z.eqb_eq, strlen_zero in E; easy|].
    destruct Hb as [-> | ->]; [reflexivity|]. now rewrite orb_true_r.
  - intros s m -> Hs H0 H1. unfold splitByPipes.
    destruct (strlen s =? 0) eqn:E; [apply Z.eqb_eq, strlen_zero in E; easy|].
    rewrite H0, H1. cbn [orb].
    destruct (scan_pipes s (String.length s) 0 0 []) as [[ts segs]|m'] eqn:Es;
      cbn [bind].
    + destruct (strlen (substring_from s ts) =? 0);
        [intros E'; inversion E'; reflexivity|discriminate].
    + intros E'. injection E' as <-. eapply scan_pipes_Throw_PipeSpacing, Es.
Qed.

Lemma splitByPipes_errors_witness :
  splitByPipes (JString " A|B") = Throw MultipleSpaces.
Proof.
  apply (splitByPipes_errors (JString " A|B")) with (s := " A|B").
  - reflexivity.
  - discriminate.
  - left. reflexivity.
Defined.

Lemma scan_pipes_spacing (s : string) (n : nat) :
  forall i ts segs r,
    scan_pipes s n i ts segs = Return r ->
    forall k, i <= k < i + Z.of_nat n ->
      is_char (char_at s k) "|" = true -> bad_spacing s k = false.
Proof.
  induction n as [|n IH]; intros i ts segs r Hs k Hk Hp; [lia|].
  rewrite scan_pipes_step in Hs.
  destruct (Z.eq_dec k i) as [->|Hne].
  - rewrite Hp in Hs. destruct (bad_spacing s i); [discriminate|reflexivity].
  - destruct (is_char (char_at s i) "|").
    + destruct (bad_spacing s i); [discriminate|].
      destruct (strlen (substring s ts (i - 1)) =? 0); [discriminate|].
      eapply IH; [exact Hs|lia|exact Hp].
    + eapply IH; [exact Hs|lia|exact Hp].
Qed.

(** X3.  In a statement that the segmenter accepts, every pipe has exactly
    one space on each side: a space before and after it, and no second space
    beyond either of them. *)
Theorem splitByPipes_spacing (s : string) (segments : list string) (k : Z) :
  splitByPipes (JString s) = Return segments ->
  char_at s k = Some "|"%char ->
  char_at s (k - 1) = Some " "%char
  /\ char_at s (k + 1) = Some " "%char
  /\ char_at s (k - 2) <> Some " "%char
  /\ char_at s (k + 2) <> Some " "%char.
Proof.
  unfold splitByPipes. intros Hs Hk.
  destruct (strlen s =? 0); [discriminate|].
  destruct (_ || _); [discriminate|].
  destruct (scan_pipes s (String.length s) 0 0 []) as [[ts segs]|] eqn:Es;
    [|discriminate].
  assert (Hr : 0 <= k < 0 + Z.of_nat (String.length s)).
  { split.
    - destruct (Z.lt_ge_cases k 0) as [Hlt|]; [|assumption].
      unfold char_at in Hk. apply Z.ltb_lt in Hlt. now rewrite Hlt in Hk.
    - destruct (Z.lt_ge_cases k (strlen s)) as [|Hge]; [assumption|].
      now rewrite char_at_beyond in Hk. }
  apply is_char_true in Hk.
  destruct (bad_spacing_false s k (scan_pipes_spacing s _ _ _ _ _ Es k Hr Hk))
    as (_ & _ & B & A & BB & AA).
  repeat split; try assumption.
  - intros E. apply is_char_true in E. congruence.
  - intros E. apply is_char_true in E. congruence.
Qed.

Lemma splitByPipes_spacing_witness :
  char_at "HTTP GET | URL http://x" 8 = Some " "%char
  /\ char_at "HTTP GET | URL http://x" 10 = Some " "%char
  /\ char_at "HTTP GET | URL http://x" 7 <> Some " "%char
  /\ char_at "HTTP GET | URL http://x" 11 <> Some " "%char.
Proof.
  apply (splitByPipes_spacing "HTTP GET | URL http://x"
           ["HTTP GET"; "URL http://x"] 9); vm_compute; reflexivity.
Defined.

Lemma char_at_cons (c : ascii) (s : string) (i : Z) :
  0 <= i -> char_at (String c s) (i + 1) = char_at s i.
Proof.
  intros Hi. unfold char_at.
  destruct (i + 1 <? 0) eqn:E; [apply Z.ltb_lt in E; lia|].
  destruct (i <? 0) eqn:E'; [apply Z.ltb_lt in E'; lia|].
  replace (Z.to_nat (i + 1)) with (S (Z.to_nat i)) by lia. reflexivity.
Qed.

Lemma count_range_cons (c : ascii) (s : string) (n : nat) :
  forall i, 0 <= i -> count_range (String c s) n (i + 1) = count_range s n i.
Proof.
  induction n as [|n IH]; intros i Hi; [reflexivity|].
  cbn [count_range]. rewrite char_at_cons by assumption.
  now rewrite IH by lia.
Qed.

Lemma count_range_all (s : string) :
  count_range s (String.length s) 0 = count_char "|" s.
Proof.
  induction s as [|c s IH]; [reflexivity|].
  cbn [String.length count_range count_char].
  rewrite (count_range_cons c s _ 0) by lia. rewrite IH. reflexivity.
Qed.

Lemma scan_pipes_count (s : string) (n : nat) :
  forall i ts segs ts' segs',
    scan_pipes s n i ts segs = Return (ts', segs') ->
    List.length segs' = (List.length segs + count_range s n i)%nat.
Proof.
  induction n as [|n IH]; intros i ts segs ts' segs' Hs.
  - injection Hs as _ <-. simpl. lia.
  - rewrite scan_pipes_step in Hs. cbn [count_range].
    destruct (is_char (char_at s i) "|").
    + destruct (bad_spacing s i); [discriminate|].
      destruct (strlen (substring s ts (i - 1)) =? 0); [discriminate|].
      rewrite (IH _ _ _ _ _ Hs), length_app. simpl. lia.
    + rewrite (IH _ _ _ _ _ Hs). lia.
Qed.

(** X4.  The segmenter returns one segment more than the statement has
    pipes. *)
Theorem splitByPipes_count (s : string) (segments : list string) :
  splitByPipes (JString s) = Return segments ->
  List.length segments = S (count_char "|" s).
Proof.
  unfold splitByPipes. intros Hs.
  destruct (strlen s =? 0); [discriminate|].
  destruct (_ || _); [discriminate|].
  destruct (scan_pipes s (String.length s) 0 0 []) as [[ts segs]|] eqn:Es;
    [|discriminate].
  cbn [bind] in Hs. destruct (strlen (substring_from s ts) =? 0); [discriminate|].
  injection Hs as <-.
  rewrite length_app, (scan_pipes_count _ _ _ _ _ _ _ Es), count_range_all.
  simpl. lia.
Qed.

Lemma splitByPipes_count_witness :
  List.length ["HTTP GET"; "URL http://x"; "BODY {}"]
  = S (count_char "|" "HTTP GET | URL http://x | BODY {}").
Proof.
  apply (splitByPipes_count "HTTP GET | URL http://x | BODY {}"
           ["HTTP GET"; "URL http://x"; "BODY {}"]).
  vm_compute. reflexivity.
Defined.

Lemma native_substring_no_char (c : ascii) (s : string) :
  forall a m,
    (forall k, (a <= k < a + m)%nat -> is_char (String.get k s) c = false) ->
    has_char c (String.substring a m s) = false.
Proof.
  induction s as [|d s IH]; intros a m Hk.
  - destruct a, m; reflexivity.
  - destruct a as [|a].
    + destruct m as [|m]; [reflexivity|]. simpl.
      pose proof (Hk 0%nat ltac:(lia)) as H0. simpl in H0. rewrite H0.
      cbn [orb]. apply IH.
      intros k Hr. apply (Hk (S k)). lia.
    + simpl. apply IH. intros k Hr. apply (Hk (S k)). lia.
Qed.

Lemma substring_no_char (c : ascii) (s : string) (x y : Z) :
  (forall k,
     Z.min (clamp (strlen s) x) (clamp (strlen s) y) <= k
     < Z.max (clamp (strlen s) x) (clamp (strlen s) y) ->
     is_char (char_at s k) c = false) ->
  has_char c (substring s x y) = false.
Proof.
  intros Hk. unfold substring. apply native_substring_no_char.
  intros k Hr.
  assert (Hx : 0 <= clamp (strlen s) x) by (unfold clamp; lia).
  assert (Hy : 0 <= clamp (strlen s) y) by (unfold clamp; lia).
  specialize (Hk (Z.of_nat k) ltac:(lia)).
  unfold char_at in Hk.
  destruct (Z.of_nat k <? 0) eqn:E; [apply Z.ltb_lt in E; lia|].
  now rewrite Nat2Z.id in Hk.
Qed.

(** A segment as the segmenter returns it: not empty and free of pipes. *)
Lemma scan_pipes_segments (s : string) (n : nat) :
  forall i ts segs ts' segs',
    scan_pipes s n i ts segs = Return (ts', segs') ->
    0 <= i -> 0 <= ts <= i + 1 ->
    (forall k, 0 <= k -> ts - 1 <= k < Z.max i ts ->
               is_char (char_at s k) "|" = false) ->
    Forall (fun seg => seg <> "" /\ has_char "|" seg = false) segs ->
    Forall (fun seg => seg <> "" /\ has_char "|" seg = false) segs'
    /\ 0 <= ts' <= i + Z.of_nat n + 1
    /\ (forall k, 0 <= k -> ts' - 1 <= k < Z.max (i + Z.of_nat n) ts' ->
                  is_char (char_at s k) "|" = false).
Proof.
  induction n as [|n IH]; intros i ts segs ts' segs' Hs Hi Hts Hfree Hsegs.
  - injection Hs as <- <-. rewrite Z.add_0_r. repeat split; try lia; assumption.
  - rewrite scan_pipes_step in Hs.
    replace (i + Z.of_nat (S n)) with (i + 1 + Z.of_nat n) by lia.
    destruct (is_char (char_at s i) "|") eqn:Hp.
    + destruct (bad_spacing s i) eqn:Hb; [discriminate|].
      destruct (strlen (substring s ts (i - 1)) =? 0) eqn:Hl; [discriminate|].
      destruct (bad_spacing_false s i Hb) as (H1 & Hlen & B & A & _ & _).
      assert (Hge : ts <= i).
      { destruct (Z.le_gt_cases ts i) as [|Hgt]; [assumption|].
        rewrite (Hfree i) in Hp by lia. discriminate. }
      apply (IH _ _ _ _ _ Hs); try lia.
      * intros k Hk0 Hk. replace k with (i + 1) by lia. now rewrite A.
      * apply Forall_app. split; [assumption|]. constructor; [|constructor].
        split.
        -- intros E. rewrite E in Hl. discriminate.
        -- apply substring_no_char. intros k Hk. apply Hfree; unfold clamp in Hk; lia.
    + apply (IH _ _ _ _ _ Hs); try lia; [|assumption].
      intros k Hk0 Hk.
      destruct (Z.eq_dec k i) as [->|Hne]; [assumption|]. apply Hfree; lia.
Qed.

(** X5.  The segmenter never returns an empty list, an empty segment or a
    segment with a pipe in it. *)
Theorem splitByPipes_segments (s : string) (segments : list string) :
  splitByPipes (JString s) = Return segments ->
  segments <> []
  /\ Forall (fun seg => seg <> "" /\ has_char "|" seg = false) segments.
Proof.
  unfold splitByPipes. intros Hs.
  destruct (strlen s =? 0); [discriminate|].
  destruct (_ || _); [discriminate|].
  destruct (scan_pipes s (String.length s) 0 0 []) as [[ts segs]|] eqn:Es;
    [|discriminate].
  cbn [bind] in Hs.
  destruct (strlen (substring_from s ts) =? 0) eqn:Hl; [discriminate|].
  injection Hs as <-.
  destruct (scan_pipes_segments s _ _ _ _ _ _ Es
              ltac:(lia) ltac:(lia) ltac:(intros; lia) ltac:(constructor))
    as (Hsegs & Hts & Hfree).
  split; [now destruct segs|].
  apply Forall_app. split; [assumption|]. constructor; [|constructor].
  split.
  - intros E. rewrite E in Hl. discriminate.
  - unfold substring_from. apply substring_no_char. intros k Hk.
    fold (strlen s) in Hts, Hfree. apply Hfree; unfold clamp in Hk; lia.
Qed.

Lemma splitByPipes_segments_witness :
  ["A"; " "; "B"] <> []
  /\ Forall (fun seg => seg <> "" /\ has_char "|" seg = false) ["A"; " "; "B"].
Proof.
  apply (splitByPipes_segments "A | | B" ["A"; " "; "B"]).
  vm_compute. reflexivity.
Defined.

(** *** Joining and splitting *)

Lemma native_substring_middle (pre a post : string) :
  String.substring (String.length pre) (String.length a) (pre ++ a ++ post) = a.
Proof.
  induction pre as [|c pre IH]; simpl; [apply native_substring_prefix|exact IH].
Qed.

Lemma substring_middle (pre a post : string) :
  substring (pre ++ a ++ post) (strlen pre) (strlen pre + strlen a) = a.
Proof.
  unfold substring, clamp. rewrite !strlen_app.
  pose proof (strlen_nonneg pre). pose proof (strlen_nonneg a).
  pose proof (strlen_nonneg post).
  replace (Z.min (Z.max 0 (Z.min (strlen pre) (strlen pre + (strlen a + strlen post))))
             (Z.max 0 (Z.min (strlen pre + strlen a)
                             (strlen pre + (strlen a + strlen post)))))
    with (strlen pre) by lia.
  replace (Z.max (Z.max 0 (Z.min (strlen pre) (strlen pre + (strlen a + strlen post))))
             (Z.max 0 (Z.min (strlen pre + strlen a)
                             (strlen pre + (strlen a + strlen post))))
           - strlen pre)
    with (strlen a) by lia.
  unfold strlen. rewrite !Nat2Z.id. apply native_substring_middle.
Qed.

(** Scanning one plain segment and the delimiter after it. *)
Lemma scan_pipes_segment (pre a rest : string) (acc : list string) :
  plain_segment a ->
  rest <> "" ->
  is_char (char_at rest 0) " " = false ->
  scan_pipes (pre ++ a ++ " | " ++ rest) (String.length a + 3)
    (strlen pre) (strlen pre) acc
  = Return (strlen pre + strlen a + 3, (acc ++ [a])%list).
Proof.
  intros (Ha & Hpa & Hfa & Hla) Hrest Hfr.
  pose proof (strlen_nonneg pre) as Np. pose proof (strlen_nonneg a) as Na.
  pose proof (strlen_nonneg rest) as Nr.
  assert (La : 1 <= strlen a).
  { destruct (Z.eq_dec (strlen a) 0) as [E|E]; [now apply strlen_zero in E|lia]. }
  assert (Lr : 1 <= strlen rest).
  { destruct (Z.eq_dec (strlen rest) 0) as [E|E]; [now apply strlen_zero in E|lia]. }
  destruct (joined_mid a rest) as (M0 & M1 & M2).
  set (body := a ++ " | " ++ rest) in *.
  set (s := pre ++ body).
  assert (Ls : strlen s = strlen pre + strlen a + 3 + strlen rest).
  { unfold s, body. rewrite !strlen_app. change (strlen " | ") with 3. lia. }
  assert (At : forall k, strlen pre <= k ->
                         char_at s k = char_at body (k - strlen pre)).
  { intros k Hk. unfold s. now apply char_at_app_r. }
  replace (String.length a + 3)%nat with ((String.length a + 1) + (1 + 1))%nat
    by lia.
  rewrite scan_pipes_app, scan_pipes_skip.
  2:{ intros k Hk. rewrite At by lia.
      destruct (Z.eq_dec (k - strlen pre) (strlen a)) as [->|Hne].
      - now rewrite M0.
      - unfold body. rewrite joined_left by (unfold strlen in *; lia).
        now apply has_char_char_at. }
  cbn [bind].
  replace (strlen pre + Z.of_nat (String.length a + 1))
    with (strlen pre + strlen a + 1) by (unfold strlen; lia).
  rewrite scan_pipes_app.
  assert (Step : scan_pipes s 1 (strlen pre + strlen a + 1) (strlen pre) acc
                 = Return (strlen pre + strlen a + 3, (acc ++ [a])%list)).
  { rewrite scan_pipes_step. rewrite (At (strlen pre + strlen a + 1)) by lia.
    replace (strlen pre + strlen a + 1 - strlen pre) with (strlen a + 1) by lia.
    rewrite M1. cbn [is_char]. rewrite Ascii.eqb_refl.
    assert (Hb : bad_spacing s (strlen pre + strlen a + 1) = false).
    { unfold bad_spacing.
      replace (strlen pre + strlen a + 1 - 1) with (strlen pre + strlen a) by lia.
      replace (strlen pre + strlen a + 1 + 1) with (strlen pre + strlen a + 2) by lia.
      replace (strlen pre + strlen a + 1 + 2) with (strlen pre + strlen a + 3) by lia.
      replace (strlen pre + strlen a + 1 - 2) with (strlen pre + strlen a - 1) by lia.
      rewrite !At by lia.
      replace (strlen pre + strlen a - strlen pre) with (strlen a) by lia.
      replace (strlen pre + strlen a + 2 - strlen pre) with (strlen a + 2) by lia.
      replace (strlen pre + strlen a - 1 - strlen pre) with (strlen a - 1) by lia.
      replace (strlen pre + strlen a + 3 - strlen pre) with (strlen a + 3) by lia.
      rewrite M0, M2. cbn [is_char]. rewrite Ascii.eqb_refl. cbn [negb orb].
      unfold body at 1. rewrite joined_left by lia. rewrite Hla.
      unfold body. rewrite joined_right by lia.
      replace (strlen a + 3 - strlen a - 3) with 0 by lia. rewrite Hfr.
      rewrite !andb_false_r. cbn [orb].
      destruct (strlen pre + strlen a <? 0) eqn:E1; [apply Z.ltb_lt in E1; lia|].
      destruct (strlen pre + strlen a + 2 >=? strlen s) eqn:E2;
        [rewrite Z.geb_leb in E2; apply Z.leb_le in E2; lia|].
      reflexivity. }
    rewrite Hb.
    replace (strlen pre + strlen a + 1 - 1) with (strlen pre + strlen a) by lia.
    replace (strlen pre + strlen a + 1 + 2) with (strlen pre + strlen a + 3) by lia.
    unfold s, body. rewrite substring_middle.
    destruct (strlen a =? 0) eqn:E3; [apply Z.eqb_eq in E3; lia|].
    reflexivity. }
  rewrite Step. cbn [bind].
  apply scan_pipes_skip. intros k Hk.
  replace k with (strlen pre + strlen a + 2) by lia.
  rewrite At by lia.
  replace (strlen pre + strlen a + 2 - strlen pre) with (strlen a + 2) by lia.
  now rewrite M2.
Qed.

Lemma join_split (sep : string) (parts : list string) :
  parts <> [] -> join sep parts = join_init sep parts ++ last parts "".
Proof.
  induction parts as [|p [|p' parts] IH]; intros Hne; [easy|reflexivity|].
  change (join sep (p :: p' :: parts)) with (p ++ sep ++ join sep (p' :: parts)).
  change (join_init sep (p :: p' :: parts))
    with (p ++ sep ++ join_init sep (p' :: parts)).
  change (last (p :: p' :: parts) "") with (last (p' :: parts) "").
  rewrite IH by discriminate. now rewrite !append_assoc.
Qed.

Lemma join_first (sep p : string) (rest : list string) :
  p <> "" -> char_at (join sep (p :: rest)) 0 = char_at p 0.
Proof.
  intros Hp. destruct rest as [|p' rest]; [reflexivity|].
  change (join sep (p :: p' :: rest)) with (p ++ sep ++ join sep (p' :: rest)).
  apply char_at_app_l. pose proof (strlen_nonneg p).
  destruct (Z.eq_dec (strlen p) 0) as [E|E]; [now apply strlen_zero in E|lia].
Qed.

Lemma scan_pipes_join (l : list string) :
  forall a pre acc,
    Forall plain_segment (a :: l) ->
    scan_pipes (pre ++ join " | " (a :: l))
      (String.length (join " | " (a :: l))) (strlen pre) (strlen pre) acc
    = Return (strlen pre + strlen (join_init " | " (a :: l)),
              (acc ++ removelast (a :: l))%list).
Proof.
  induction l as [|b l IH]; intros a pre acc Hall.
  - inversion Hall as [|? ? (Ha & Hpa & _) _]; subst.
    cbn [join join_init removelast]. change (strlen "") with 0.
    rewrite Z.add_0_r, app_nil_r. apply scan_pipes_skip.
    intros k Hk. rewrite char_at_app_r by lia. now apply has_char_char_at.
  - inversion Hall as [|? ? Ha Hrest]; subst.
    inversion Hrest as [|? ? Hb _]; subst.
    change (join " | " (a :: b :: l)) with (a ++ " | " ++ join " | " (b :: l)).
    change (join_init " | " (a :: b :: l))
      with (a ++ " | " ++ join_init " | " (b :: l)).
    change (removelast (a :: b :: l)) with (a :: removelast (b :: l)).
    set (J := join " | " (b :: l)).
    replace (String.length (a ++ " | " ++ J))
      with ((String.length a + 3) + String.length J)%nat.
    2:{ apply Nat2Z.inj. rewrite Nat2Z.inj_add.
        change (Z.of_nat (String.length (a ++ " | " ++ J)))
          with (strlen (a ++ " | " ++ J)).
        rewrite !strlen_app. change (strlen " | ") with 3. unfold strlen. lia. }
    rewrite scan_pipes_app, scan_pipes_segment; try assumption.
    + cbn [bind].
      replace (strlen pre + Z.of_nat (String.length a + 3))
        with (strlen pre + strlen a + 3) by (unfold strlen; lia).
      replace (pre ++ a ++ " | " ++ J) with ((pre ++ a ++ " | ") ++ J)
        by now rewrite !append_assoc.
      replace (strlen pre + strlen a + 3) with (strlen (pre ++ a ++ " | "))
        by (rewrite !strlen_app; change (strlen " | ") with 3; lia).
      unfold J. rewrite IH by assumption.
      rewrite !strlen_app, <- app_assoc. change (strlen " | ") with 3.
      f_equal. f_equal. lia.
    + unfold J. apply join_not_empty. now destruct Hb.
    + unfold J. destruct Hb as (Hb & _ & Hfb & _). now rewrite join_first.
Qed.

Lemma splitByPipes_joined (segments : list string) :
  segments <> [] ->
  Forall plain_segment segments ->
  splitByPipes (JString (join " | " segments)) = Return segments.
Proof.
  intros Hne Hall. destruct segments as [|a l]; [easy|].
  pose proof (scan_pipes_join l a "" [] Hall) as Hscan.
  change ("" ++ join " | " (a :: l)) with (join " | " (a :: l)) in Hscan.
  change (strlen "") with 0 in Hscan. rewrite Z.add_0_l in Hscan.
  cbn [app] in Hscan.
  assert (Hlast : plain_segment (last (a :: l) "")).
  { rewrite Forall_forall in Hall. apply Hall.
    rewrite (app_removelast_last "" Hne) at 2. apply in_or_app. right. now left. }
  destruct Hlast as (Hl & _ & _ & Hll).
  inversion Hall as [|? ? (Ha & _ & Hfa & _) _]; subst.
  set (s := join " | " (a :: l)) in *.
  assert (Split : s = join_init " | " (a :: l) ++ last (a :: l) "")
    by (apply join_split; discriminate).
  pose proof (strlen_nonneg (join_init " | " (a :: l))) as Ni.
  pose proof (strlen_nonneg (last (a :: l) "")) as Nl.
  assert (Ll : 1 <= strlen (last (a :: l) "")).
  { destruct (Z.eq_dec (strlen (last (a :: l) "")) 0) as [E|E];
      [now apply strlen_zero in E|lia]. }
  assert (Ls : strlen s
               = strlen (join_init " | " (a :: l)) + strlen (last (a :: l) ""))
    by (rewrite Split at 1; apply strlen_app).
  unfold splitByPipes.
  destruct (strlen s =? 0) eqn:E0; [apply Z.eqb_eq in E0; lia|].
  assert (F0 : is_char (char_at s 0) " " = false)
    by (unfold s; now rewrite join_first).
  assert (F1 : is_char (char_at s (strlen s - 1)) " " = false).
  { rewrite Split at 1. rewrite char_at_app_r by lia.
    replace (strlen s - 1 - strlen (join_init " | " (a :: l)))
      with (strlen (last (a :: l) "") - 1) by lia.
    exact Hll. }
  rewrite F0, F1, Hscan. cbn [orb bind].
  assert (Sub : substring_from s (strlen (join_init " | " (a :: l)))
                = last (a :: l) "")
    by (rewrite Split at 1; apply substring_from_suffix).
  rewrite Sub.
  destruct (strlen (last (a :: l) "") =? 0) eqn:E1; [apply Z.eqb_eq in E1; lia|].
  now rewrite <- (app_removelast_last "" Hne).
Qed.

(** X1.  Splitting undoes joining: plain segments (not empty, no pipe, no
    space at either end) joined by [" | "] are split into exactly those
    segments, whatever their number; hence no other list of plain segments
    gives the same statement. *)
Theorem splitByPipes_join (segments : list string) :
  segments <> [] ->
  Forall plain_segment segments ->
  splitByPipes (JString (join " | " segments)) = Return segments
  /\ (forall others,
        others <> [] -> Forall plain_segment others ->
        join " | " others = join " | " segments -> others = segments).
Proof.
  intros Hne Hall. split.
  - now apply splitByPipes_joined.
  - intros others Hne' Hall' E.
    pose proof (splitByPipes_joined others Hne' Hall') as S1.
    pose proof (splitByPipes_joined segments Hne Hall) as S2.
    rewrite E, S2 in S1. now injection S1.
Qed.

Lemma splitByPipes_join_witness :
  splitByPipes
    (JString (join " | " ["HTTP POST"; "URL http://x"; "HEADERS {}"; "BODY [1]"]))
  = Return ["HTTP POST"; "URL http://x"; "HEADERS {}"; "BODY [1]"].
Proof.
  apply (splitByPipes_join ["HTTP POST"; "URL http://x"; "HEADERS {}"; "BODY [1]"]).
  - discriminate.
  - repeat constructor; discriminate.
Defined.

(** ** The keyword extractor *)

Lemma indexOf_at_lower (pat s : string) :
  forall j, 0 <= j -> indexOf_at pat s j = -1 \/ j <= indexOf_at pat s j.
Proof.
  induction s as [|d s IH]; intros j Hj; rewrite indexOf_at_unfold;
    destruct (starts_with pat _); try (right; lia); [now left|].
  destruct (IH (j + 1)) as [E|E]; [lia|now left|right; lia].
Qed.

Lemma indexOf_zero (s pat : string) :
  (indexOf s pat =? 0) = starts_with pat s.
Proof.
  unfold indexOf. rewrite indexOf_at_unfold.
  destruct (starts_with pat s); [reflexivity|].
  destruct s as [|c s]; [reflexivity|].
  destruct (indexOf_at_lower pat s (0 + 1)) as [E|E]; [lia| |];
    apply Z.eqb_neq; lia.
Qed.

Lemma starts_with_longer (p q s : string) :
  starts_with p s = false -> starts_with (p ++ q) s = false.
Proof.
  revert s. induction p as [|c p IH]; intros s; [discriminate|].
  destruct s as [|d s]; [reflexivity|]. simpl.
  destruct (Ascii.eqb c d); [apply IH|reflexivity].
Qed.

(** X6.  [ensureSingleSpaceAfterKeyword] is a test of the prefix
    [keyword + " "]: without that prefix it returns [false] and throws
    nothing; with it, it throws the missing-space error when nothing follows
    the prefix, the multiple-spaces error when a space follows it, and
    returns [true] otherwise. *)
Theorem ensureSingleSpaceAfterKeyword_prefix (segment keyword : string) :
  ensureSingleSpaceAfterKeyword segment keyword
  = if starts_with (keyword ++ " ") segment then
      if strlen segment =? strlen keyword + 1
      then Throw MissingSpaceAfterKeyword
      else if is_char (char_at segment (strlen keyword + 1)) " "
      then Throw MultipleSpaces
      else Return true
    else Return false.
Proof.
  unfold ensureSingleSpaceAfterKeyword.
  rewrite indexOf_zero, slice_starts_with, strlen_app.
  change (strlen " ") with 1.
  destruct (starts_with keyword segment) eqn:E; cbn [negb].
  - destruct (starts_with (keyword ++ " ") segment); reflexivity.
  - now rewrite starts_with_longer.
Qed.

(** ** One iteration of the loop *)

Lemma slice_from_value (kw v : string) :
  slice_from (kw ++ " " ++ v) (strlen kw + 1) = v.
Proof.
  rewrite <- (append_assoc kw " " v).
  replace (strlen kw + 1) with (strlen (kw ++ " "))
    by (rewrite strlen_app; reflexivity).
  apply slice_from_suffix.
Qed.

Lemma array_indexOf_at_not_In (l : list string) (x : string) :
  ~ In x l -> forall i, array_indexOf_at l x i = -1.
Proof.
  induction l as [|y l IH]; intros Hn i; [reflexivity|]. simpl.
  destruct (String.eqb y x) eqn:E.
  - apply String.eqb_eq in E. exfalso. apply Hn. now left.
  - apply IH. intros Hin. apply Hn. now right.
Qed.

Section Iteration.

Context `{JSRuntime}.

(** An iteration on a segment [keyword value], check by check. *)
Lemma parse_segment_open (st : Locals) (kw v : string) :
  has_char " " kw = false ->
  parse_segment st (kw ++ " " ++ v)
  = if negb (String.eqb kw (toUpperCase kw)) then Throw KeywordsUppercase
    else if array_indexOf allowedKeywords kw =? -1 then Throw KeywordsUppercase
    else if is_seen st kw then Throw (DuplicateSection kw)
    else if strlen v =? 0 then Throw MissingSpaceAfterKeyword
    else if is_char (char_at v 0) " " then Throw MultipleSpaces
    else store_section st kw v.
Proof.
  intros Hkw. unfold parse_segment.
  rewrite indexOf_first_space, slice_prefix, slice_from_value, ensure_decomposed
    by assumption.
  pose proof (strlen_nonneg kw).
  destruct (strlen kw =? -1) eqn:E; [apply Z.eqb_eq in E; lia|].
  destruct (negb (String.eqb kw (toUpperCase kw))); [reflexivity|].
  destruct (array_indexOf allowedKeywords kw =? -1); [reflexivity|].
  destruct (is_seen st kw); [reflexivity|].
  destruct (strlen v =? 0); [reflexivity|].
  destruct (is_char (char_at v 0) " "); reflexivity.
Qed.

Lemma parse_segment_allowed (st : Locals) (kw v : string) :
  In kw allowedKeywords ->
  is_seen st kw = false ->
  parse_segment st (kw ++ " " ++ v)
  = if strlen v =? 0 then Throw MissingSpaceAfterKeyword
    else if is_char (char_at v 0) " " then Throw MultipleSpaces
    else store_section st kw v.
Proof.
  intros Hkw Hseen.
  rewrite parse_segment_open by now apply allowed_no_space.
  now rewrite toUpperCase_allowed, String.eqb_refl, array_indexOf_allowed, Hseen.
Qed.

Lemma parseJSONStrict_named (v name : string) :
  In name ["HEADERS"; "QUERY"; "BODY"] ->
  parseJSONStrict v name
  = match JSON_parse v with
    | Return j => Return j
    | Throw _ => Throw (InvalidJSON name)
    end.
Proof.
  unfold parseJSONStrict.
  intros [<-|[<-|[<-|[]]]]; destruct (JSON_parse v); reflexivity.
Qed.

Lemma store_section_complete (st st' : Locals) (kw v : string) :
  stores st kw v st' -> store_section st kw v = Return st'.
Proof.
  destruct 1 as [v [-> | ->]|v|v j Hj|v j Hj|v j Hj]; unfold store_section;
    cbn [String.eqb Ascii.eqb Bool.eqb].
  - now rewrite toUpperCase_GET.
  - now rewrite toUpperCase_POST.
  - reflexivity.
  - rewrite parseJSONStrict_named, Hj by (simpl; auto). reflexivity.
  - rewrite parseJSONStrict_named, Hj by (simpl; auto). reflexivity.
  - rewrite parseJSONStrict_named, Hj by (simpl; auto). reflexivity.
Qed.

(** X7.  The segments that an iteration accepts are exactly those of the
    form [keyword value] where the keyword is one of the five and was not
    seen before, the value is not empty and does not begin with a space,
    the method is [GET] or [POST] for [HTTP], and the value is JSON for
    [HEADERS], [QUERY] and [BODY]; the iteration records the keyword and
    stores the value, decoded for the last three, leaving the other
    variables as they were. *)
Theorem parse_segment_accepts (st st' : Locals) (segment : string) :
  parse_segment st segment = Return st'
  <-> exists kw v,
        segment = kw ++ " " ++ v
        /\ In kw allowedKeywords
        /\ is_seen st kw = false
        /\ v <> ""
        /\ is_char (char_at v 0) " " = false
        /\ stores st kw v st'.
Proof.
  split.
  - intros Hp.
    destruct (parse_segment_Return _ _ _ Hp)
      as (kw & v & E & _ & A & S & V & F & St).
    exists kw, v. repeat split; assumption.
  - intros (kw & v & -> & A & S & V & F & St).
    rewrite parse_segment_allowed, F by assumption.
    destruct (strlen v =? 0) eqn:E;
      [apply Z.eqb_eq, strlen_zero in E; contradiction|].
    now apply store_section_complete.
Qed.

(** X8.  A segment without a space fails with the missing-space error,
    whatever it holds: a bare keyword such as [HTTP] is not reported as a
    section without value but as a keyword without space. *)
Theorem parse_segment_no_space (st : Locals) (segment : string) :
  has_char " " segment = false ->
  parse_segment st segment = Throw MissingSpaceAfterKeyword.
Proof.
  intros Hs. unfold parse_segment, indexOf.
  now rewrite no_char_indexOf_at.
Qed.

(** X9.  A keyword that is not one of the five fails with the message
    [Keywords must be uppercase], be it lowercase, unknown but uppercase, or
    empty (a segment that begins with a space). *)
Theorem parse_segment_unknown_keyword (st : Locals) (kw v : string) :
  has_char " " kw = false ->
  ~ In kw allowedKeywords ->
  parse_segment st (kw ++ " " ++ v) = Throw KeywordsUppercase.
Proof.
  intros Hkw Hn. rewrite parse_segment_open by assumption.
  destruct (negb (String.eqb kw (toUpperCase kw))); [reflexivity|].
  unfold array_indexOf. now rewrite array_indexOf_at_not_In.
Qed.

(** X10.  After a keyword of the five that was not seen before, an empty
    value fails with the missing-space error and a value that begins with a
    space fails with the multiple-spaces error, before the value is looked
    at: no method is validated and no JSON is decoded. *)
Theorem parse_segment_value_spacing (st : Locals) (kw v : string) :
  In kw allowedKeywords ->
  is_seen st kw = false ->
  parse_segment st (kw ++ " ") = Throw MissingSpaceAfterKeyword
  /\ parse_segment st (kw ++ " " ++ " " ++ v) = Throw MultipleSpaces.
Proof.
  intros Hkw Hseen. split.
  - change (kw ++ " ") with (kw ++ " " ++ "").
    now rewrite parse_segment_allowed.
  - rewrite parse_segment_allowed by assumption.
    change (" " ++ v) with (String " " v). rewrite strlen_cons.
    pose proof (strlen_nonneg v).
    destruct (1 + strlen v =? 0) eqn:E; [apply Z.eqb_eq in E; lia|].
    reflexivity.
Qed.

(** X11.  An HTTP section whose method is neither [GET] nor [POST] fails:
    with the uppercase error when [toUpperCase] changes the method, with the
    unsupported-method error otherwise. *)
Theorem parse_segment_method (st : Locals) (v : string) :
  is_seen st "HTTP" = false ->
  v <> "" ->
  is_char (char_at v 0) " " = false ->
  v <> "GET" -> v <> "POST" ->
  parse_segment st ("HTTP " ++ v)
  = Throw (if String.eqb v (toUpperCase v) then InvalidMethod
           else MethodUppercase).
Proof.
  intros Hseen Hv Hf Hg Hp.
  change ("HTTP " ++ v) with ("HTTP" ++ " " ++ v).
  rewrite parse_segment_allowed, Hf by (simpl; auto).
  destruct (strlen v =? 0) eqn:E;
    [apply Z.eqb_eq, strlen_zero in E; contradiction|].
  unfold store_section. cbn [String.eqb Ascii.eqb Bool.eqb].
  destruct (String.eqb v (toUpperCase v)); [|reflexivity].
  apply String.eqb_neq in Hg, Hp. now rewrite Hg, Hp.
Qed.

(** X12.  A HEADERS, QUERY or BODY section whose value [JSON.parse] refuses
    fails with the message that names that section, whatever the message of
    [JSON.parse] itself. *)
Theorem parse_segment_invalid_json (st : Locals) (name v e : string) :
  In name ["HEADERS"; "QUERY"; "BODY"] ->
  is_seen st name = false ->
  v <> "" ->
  is_char (char_at v 0) " " = false ->
  JSON_parse v = Throw e ->
  parse_segment st (name ++ " " ++ v) = Throw (InvalidJSON name).
Proof.
  intros Hn Hseen Hv Hf He.
  rewrite parse_segment_allowed, Hf
    by (try assumption; destruct Hn as [<-|[<-|[<-|[]]]]; simpl; auto 10).
  destruct (strlen v =? 0) eqn:E;
    [apply Z.eqb_eq, strlen_zero in E; contradiction|].
  unfold store_section.
  destruct Hn as [<-|[<-|[<-|[]]]]; cbn [String.eqb Ascii.eqb Bool.eqb];
    rewrite parseJSONStrict_named, He by (simpl; auto); reflexivity.
Qed.

End Iteration.

Lemma parse_segment_accepts_witness :
  parse_segment (H := Reference.runtime) initial_locals "QUERY [1]"
  = Return {| seen := ["QUERY"]; httpMethod := ""; baseURL := "";
              l_headers := JObject []; l_query := JArray [JNumber 1];
              l_body := JObject [] |}.
Proof.
  apply (parse_segment_accepts (H := Reference.runtime)).
  exists "QUERY", "[1]". repeat split; try discriminate.
  - simpl. auto.
  - apply (stores_QUERY (H := Reference.runtime) initial_locals "[1]").
    vm_compute. reflexivity.
Defined.

Lemma parse_segment_no_space_witness :
  parse_segment (H := Reference.runtime) initial_locals "HTTP"
  = Throw MissingSpaceAfterKeyword.
Proof.
  apply (parse_segment_no_space (H := Reference.runtime) initial_locals "HTTP").
  reflexivity.
Defined.

Lemma parse_segment_unknown_keyword_witness :
  parse_segment (H := Reference.runtime) initial_locals "COOKIES {}"
  = Throw KeywordsUppercase.
Proof.
  apply (parse_segment_unknown_keyword (H := Reference.runtime)
           initial_locals "COOKIES" "{}").
  - reflexivity.
  - simpl. intuition discriminate.
Defined.

Lemma parse_segment_value_spacing_witness :
  parse_segment (H := Reference.runtime) initial_locals "HTTP "
  = Throw MissingSpaceAfterKeyword
  /\ parse_segment (H := Reference.runtime) initial_locals "HTTP  get"
     = Throw MultipleSpaces.
Proof.
  apply (parse_segment_value_spacing (H := Reference.runtime)
           initial_locals "HTTP" "get").
  - simpl. auto.
  - reflexivity.
Defined.

Lemma parse_segment_method_witness :
  parse_segment (H := Reference.runtime) initial_locals "HTTP Put"
  = Throw MethodUppercase.
Proof.
  apply (parse_segment_method (H := Reference.runtime) initial_locals "Put");
    try discriminate; reflexivity.
Defined.

Lemma parse_segment_invalid_json_witness :
  parse_segment (H := Reference.runtime) initial_locals "BODY {bad}"
  = Throw (InvalidJSON "BODY").
Proof.
  apply (parse_segment_invalid_json (H := Reference.runtime)
           initial_locals "BODY" "{bad}" Reference.SyntaxError).
  - simpl. auto.
  - reflexivity.
  - discriminate.
  - reflexivity.
  - vm_compute. reflexivity.
Defined.

(** ** The whole statement *)

Lemma starts_with_refl (s : string) : starts_with s s = true.
Proof.
  induction s as [|c s IH]; simpl; [reflexivity|].
  now rewrite Ascii.eqb_refl, IH.
Qed.

Lemma append_same_l (a b : string) : a ++ b = a -> b = "".
Proof.
  intros E. apply strlen_zero.
  assert (L : strlen (a ++ b) = strlen a) by now rewrite E.
  rewrite strlen_app in L. lia.
Qed.

Section Statement.

Context `{JSRuntime}.

(** The sections of the segments that the loop accepts: their keywords are
    of the five, were not seen before, and differ from one another. *)
Lemma parse_segments_sections (segments : list string) :
  forall st st',
    parse_segments st segments = Return st' ->
    exists sections : list (string * string),
      segments = map (fun kv => fst kv ++ " " ++ snd kv) sections
      /\ (forall k, In k (map fst sections) ->
                    In k allowedKeywords /\ is_seen st k = false)
      /\ NoDup (map fst sections).
Proof.
  induction segments as [|seg rest IH]; intros st st' Hp.
  - exists []. repeat split; try easy. constructor.
  - simpl in Hp.
    destruct (parse_segment st seg) as [st1|] eqn:E1; [|discriminate].
    cbn [bind] in Hp.
    destruct (parse_segment_Return _ _ _ E1)
      as (kw & v & -> & _ & A & S & _ & _ & St).
    destruct (IH _ _ Hp) as (sections & -> & Hk & Hnd).
    exists ((kw, v) :: sections). cbn [map fst snd].
    split; [reflexivity|]. split.
    + intros k [<-|Hin]; [now split|].
      destruct (Hk k Hin) as [Ha Hs1]. split; [exact Ha|].
      rewrite (stores_is_seen _ _ _ _ k St) in Hs1.
      now apply orb_false_iff in Hs1.
    + constructor; [|assumption]. intros Hin.
      destruct (Hk kw Hin) as [_ Hs1].
      rewrite (stores_is_seen _ _ _ _ kw St), String.eqb_refl in Hs1.
      discriminate.
Qed.

(** X13.  A statement that parses has between two and five segments; each
    is [keyword value] with a keyword of the five, and no keyword occurs
    twice. *)
Theorem parseReqline_sections (statement : JSValue) (d : Descriptor) :
  parseReqline statement = Return d ->
  exists segments (sections : list (string * string)),
    splitByPipes statement = Return segments
    /\ segments = map (fun kv => fst kv ++ " " ++ snd kv) sections
    /\ incl (map fst sections) allowedKeywords
    /\ NoDup (map fst sections)
    /\ (2 <= List.length segments <= 5)%nat.
Proof.
  intros Hp.
  destruct (parseReqline_Return _ _ Hp)
    as (segments & st & m & u & full & Es & N0 & N1 & Ep & _).
  destruct (parse_segments_sections _ _ _ Ep) as (sections & -> & Hk & Hnd).
  exists (map (fun kv => fst kv ++ " " ++ snd kv) sections), sections.
  assert (Hincl : incl (map fst sections) allowedKeywords)
    by (intros k Hin; now apply Hk).
  repeat split; try assumption.
  - destruct sections as [|s0 [|s1 sections]]; try discriminate. simpl. lia.
  - rewrite length_map, <- (length_map fst).
    exact (NoDup_incl_length Hnd Hincl).
Qed.

Lemma splitByPipes_Throw_known (statement : JSValue) (m : string) :
  splitByPipes statement = Throw m ->
  In m [InvalidInput; MissingHTTPKeyword; MultipleSpaces; PipeSpacing].
Proof.
  unfold splitByPipes.
  destruct statement as [| | b | n | s | elems | props];
    try (intros E; inversion E; simpl; now auto).
  destruct (strlen s =? 0); [intros E; inversion E; simpl; now auto|].
  destruct (_ || _); [intros E; inversion E; simpl; now auto|].
  destruct (scan_pipes s (String.length s) 0 0 []) as [[ts segs]|m'] eqn:Es;
    cbn [bind].
  - destruct (strlen (substring_from s ts) =? 0);
      [intros E; inversion E; simpl; now auto|discriminate].
  - intros E. inversion E. subst.
    rewrite (scan_pipes_Throw_PipeSpacing _ _ _ _ _ _ Es). simpl. auto.
Qed.

Lemma store_section_Throw (st : Locals) (kw v m : string) :
  In kw allowedKeywords ->
  store_section st kw v = Throw m -> In m parse_errors.
Proof.
  unfold store_section.
  intros [<-|[<-|[<-|[<-|[<-|[]]]]]]; cbn [String.eqb Ascii.eqb Bool.eqb].
  - destruct (negb _); [intros E; inversion E; simpl; auto 20|].
    destruct (_ && _); [intros E; inversion E; simpl; auto 20|discriminate].
  - discriminate.
  - rewrite parseJSONStrict_named by (simpl; auto).
    destruct (JSON_parse v); cbn [bind]; [discriminate|].
    intros E; inversion E; simpl; auto 20.
  - rewrite parseJSONStrict_named by (simpl; auto).
    destruct (JSON_parse v); cbn [bind]; [discriminate|].
    intros E; inversion E; simpl; auto 20.
  - rewrite parseJSONStrict_named by (simpl; auto).
    destruct (JSON_parse v); cbn [bind]; [discriminate|].
    intros E; inversion E; simpl; auto 20.
Qed.

Lemma parse_segment_Throw_known (st : Locals) (segment m : string) :
  parse_segment st segment = Throw m -> In m parse_errors.
Proof.
  intros Hp.
  destruct (indexOf segment " " =? -1) eqn:E.
  - unfold parse_segment in Hp. rewrite E in Hp. inversion Hp. simpl. auto 20.
  - apply Z.eqb_neq in E.
    destruct (first_char_split " " segment 0 E) as (kw & v & -> & Hkw & _).
    change (kw ++ String " " v) with (kw ++ " " ++ v) in Hp.
    rewrite parse_segment_open in Hp by assumption.
    destruct (negb (String.eqb kw (toUpperCase kw)));
      [inversion Hp; simpl; auto 20|].
    destruct (array_indexOf allowedKeywords kw =? -1) eqn:EA;
      [inversion Hp; simpl; auto 20|].
    apply Z.eqb_neq, array_indexOf_at_In in EA.
    destruct (is_seen st kw).
    { inversion Hp.
      destruct EA as [<-|[<-|[<-|[<-|[<-|[]]]]]]; simpl; auto 20. }
    destruct (strlen v =? 0); [inversion Hp; simpl; auto 20|].
    destruct (is_char (char_at v 0) " "); [inversion Hp; simpl; auto 20|].
    eapply store_section_Throw; eassumption.
Qed.

Lemma parse_segments_Throw_known (segments : list string) :
  forall st m, parse_segments st segments = Throw m -> In m parse_errors.
Proof.
  induction segments as [|seg rest IH]; intros st m; simpl; [discriminate|].
  destruct (parse_segment st seg) eqn:E; cbn [bind].
  - apply IH.
  - intros E'. inversion E'. subst. eapply parse_segment_Throw_known, E.
Qed.

Lemma for_each_Throw {A B : Type} (f : A -> result B) (l : list A) (m : string) :
  for_each f l = Throw m -> exists a, In a l /\ f a = Throw m.
Proof.
  induction l as [|a l IH]; cbn [for_each]; [discriminate|].
  destruct (f a) as [b|m'] eqn:E; cbn [bind].
  - destruct (for_each f l) as [bs|m'] eqn:E'; cbn [bind]; [discriminate|].
    intros E''. injection E'' as <-.
    destruct (IH eq_refl) as (x & Hx & Hf). exists x. split; [now right|exact Hf].
  - intros E'. injection E' as <-. exists a. split; [now left|exact E].
Qed.

(** The query variable at the end of the loop is the one at its start or
    the decoded value of a QUERY section. *)
Lemma parse_segments_query (segments : list string) :
  forall st st',
    parse_segments st segments = Return st' ->
    l_query st' = l_query st
    \/ exists v, In ("QUERY " ++ v) segments /\ JSON_parse v = Return (l_query st').
Proof.
  induction segments as [|seg rest IH]; intros st st' Hp; simpl in Hp.
  - injection Hp as <-. now left.
  - destruct (parse_segment st seg) as [st1|] eqn:E1; [|discriminate].
    cbn [bind] in Hp.
    destruct (IH _ _ Hp) as [Hq|(v & Hin & Hj)].
    + destruct (parse_segment_Return _ _ _ E1)
        as (kw & v & -> & _ & _ & _ & _ & _ & S).
      destruct S; cbn [l_query] in Hq; try (left; exact Hq).
      right. exists v. split; [now left|]. now rewrite Hq.
    + right. exists v. split; [now right|exact Hj].
Qed.

Lemma index_names_not_nil (n : nat) : index_names (S n) <> [].
Proof. unfold index_names. simpl. discriminate. Qed.

Lemma own_keys_not_nil (p : string * JSValue) (props : list (string * JSValue)) :
  own_keys (p :: props) <> [].
Proof.
  rewrite own_keys_entries. intros E. apply map_eq_nil in E.
  pose proof (own_entries_Permutation (p :: props)) as P.
  rewrite E in P. now apply Permutation_nil in P.
Qed.

Lemma entryless_keys (q : JSValue) :
  entryless q = true <-> Object_keys (js_or q (JObject [])) = [].
Proof.
  destruct q as [| | b | n | s | [|e elems] | [|p props]]; cbn [entryless];
    try (split; [reflexivity|reflexivity]).
  - unfold js_or, truthy. destruct b; split; reflexivity.
  - unfold js_or, truthy. destruct (negb (n =? 0)); split; reflexivity.
  - destruct s as [|c s]; [split; reflexivity|].
    split; [discriminate|]. intros E. now apply index_names_not_nil in E.
  - split; [discriminate|]. intros E. now apply index_names_not_nil in E.
  - split; [discriminate|]. intros E. now apply own_keys_not_nil in E.
Qed.

(** The errors of the parser: one of the seventeen messages of the code, or
    an error of the host thrown while the query is serialised. *)
Lemma parseReqline_Throw_known (statement : JSValue) (m : string) :
  parseReqline statement = Throw m ->
  In m parse_errors
  \/ exists segments st,
       splitByPipes statement = Return segments
       /\ order_ok segments = true
       /\ parse_segments initial_locals segments = Return st
       /\ buildQueryString (l_query st) = Throw m.
Proof.
  unfold parseReqline.
  destruct (splitByPipes statement) as [segments|m'] eqn:E; cbn [bind].
  - destruct (not_section _ 4 _) eqn:O1;
      [intros E'; inversion E'; left; simpl; auto 20|].
    destruct (not_section _ 3 _) eqn:O2;
      [intros E'; inversion E'; left; simpl; auto 20|].
    destruct (parse_segments initial_locals segments) as [st|m'] eqn:E';
      cbn [bind].
    + unfold constructFullURL.
      destruct (buildQueryString (l_query st)) as [qs|m'] eqn:Eq; cbn [bind].
      * destruct (String.eqb qs ""); discriminate.
      * intros E''. inversion E''. subst. right. exists segments, st.
        unfold order_ok. rewrite O1, O2. now repeat split.
    + intros E''. inversion E''. subst. left.
      eapply parse_segments_Throw_known, E'.
  - intros E'. inversion E'. subst. left.
    apply splitByPipes_Throw_known in E. simpl in E. simpl.
    repeat destruct E as [E|E]; try contradiction; subst; auto 20.
Qed.

Lemma parse_errors_not_empty (m : string) : In m parse_errors -> m <> "".
Proof.
  unfold parse_errors. simpl. intros Hin.
  repeat destruct Hin as [<-|Hin]; try discriminate. destruct Hin.
Qed.

(** X14.  The parser fails with one of the seventeen messages of the code
    (the nine fixed ones, the duplicate-section message for one of the five
    keywords, the invalid-JSON message for HEADERS, QUERY or BODY), none of
    them empty, or with an error of the host: one that [String] or
    [encodeURIComponent] throws for a key of the decoded QUERY value while
    the full URL is built, all the sections being valid.  The message of
    [JSON.parse] itself never reaches the caller. *)
Theorem parseReqline_errors (statement : JSValue) (m : string) :
  parseReqline statement = Throw m ->
  (In m parse_errors /\ m <> "")
  \/ exists segments st v key,
       splitByPipes statement = Return segments
       /\ parse_segments initial_locals segments = Return st
       /\ In ("QUERY " ++ v) segments
       /\ JSON_parse v = Return (l_query st)
       /\ In key (Object_keys (l_query st))
       /\ query_part (l_query st) key = Throw m.
Proof.
  intros Hp.
  destruct (parseReqline_Throw_known _ _ Hp)
    as [Hin|(segments & st & Es & _ & Ep & Eq)].
  - left. split; [exact Hin|now apply parse_errors_not_empty].
  - right.
    assert (Hkeys : exists key, In key (Object_keys (js_or (l_query st) (JObject [])))
                                /\ query_part (l_query st) key = Throw m).
    { unfold buildQueryString in Eq.
      destruct (Z.of_nat _ =? 0); [discriminate|].
      destruct (for_each _ _) as [parts|m'] eqn:Ef; cbn [bind] in Eq;
        [discriminate|].
      injection Eq as ->. now apply for_each_Throw. }
    destruct Hkeys as (key & Hkey & Hq).
    destruct (parse_segments_query _ _ _ Ep) as [Hd|(v & Hin & Hj)].
    + cbn [initial_locals l_query] in Hd. rewrite Hd in Hkey. destruct Hkey.
    + exists segments, st, v, key. repeat split; try assumption.
      destruct (truthy (l_query st)) eqn:T.
      * unfold js_or in Hkey. now rewrite T in Hkey.
      * unfold js_or in Hkey. rewrite T in Hkey. destruct Hkey.
Qed.

Lemma constructFullURL_prefix (base full : string) (q : JSValue) :
  constructFullURL base q = Return full -> starts_with base full = true.
Proof.
  unfold constructFullURL.
  destruct (buildQueryString q) as [qs|]; cbn [bind]; [|discriminate].
  destruct (String.eqb qs ""); intros E; injection E as <-;
    [apply starts_with_refl|apply starts_with_app].
Qed.

(** X15.  In a descriptor that the parser returns, the full URL is built
    from the url and the query of that descriptor, it begins with the url,
    and it is the url itself when the statement has no QUERY section. *)
Theorem parseReqline_full_url (statement : JSValue) (d : Descriptor) :
  parseReqline statement = Return d ->
  constructFullURL (url d) (query d) = Return (full_url d)
  /\ starts_with (url d) (full_url d) = true
  /\ exists segments,
       splitByPipes statement = Return segments
       /\ ((forall v, ~ In ("QUERY " ++ v) segments) -> full_url d = url d).
Proof.
  intros Hp.
  destruct (parseReqline_Return _ _ Hp)
    as (segments & st & m & u & full & Es & _ & _ & Ep & -> & _ & _ & _ & _ & Ef).
  cbn [full_url url query]. repeat split.
  - exact Ef.
  - eapply constructFullURL_prefix, Ef.
  - exists segments. split; [exact Es|]. intros Hno.
    destruct (parse_segments_absent _ _ _ "QUERY" Ep eq_refl Hno) as [_ Hq].
    unfold slot in Hq. simpl in Hq. rewrite Hq in Ef.
    cbv in Ef. now injection Ef as <-.
Qed.

Lemma query_part_not_empty (q : JSValue) (key p : string) :
  query_part q key = Return p -> p <> "".
Proof.
  unfold query_part.
  destruct (ToString (JString key)); [|discriminate]. cbn [bind].
  destruct (encodeURIComponent _); [|discriminate]. cbn [bind].
  destruct (ToString _); [|discriminate]. cbn [bind].
  destruct (encodeURIComponent _); [|discriminate]. cbn [bind].
  intros E. injection E as <-. apply append_not_empty_r. discriminate.
Qed.

(** X16.  The URL builder returns the base URL unchanged exactly when the
    query has no keys for [Object.keys]: [undefined], [null], a boolean, a
    number, the empty string, the empty array or the empty object.  A string
    or an array that is not empty does change the URL, or makes the builder
    throw. *)
Theorem constructFullURL_unchanged (base : string) (q : JSValue) :
  constructFullURL base q = Return base <-> entryless q = true.
Proof.
  rewrite entryless_keys. unfold constructFullURL, buildQueryString.
  destruct (Object_keys (js_or q (JObject []))) as [|k keys].
  - split; reflexivity.
  - cbn [List.length]. rewrite Nat2Z.inj_succ.
    destruct (Z.succ (Z.of_nat (List.length keys)) =? 0) eqn:E0;
      [apply Z.eqb_eq in E0; lia|].
    split; [|discriminate].
    destruct (for_each (query_part q) (k :: keys)) as [parts|m] eqn:Ef;
      cbn [bind]; [|discriminate].
    destruct (for_each_cons _ _ _ _ Ef) as (p & ps & Hp & _ & ->).
    destruct (String.eqb (join "&" (p :: ps)) "") eqn:Eq.
    + apply String.eqb_eq in Eq. exfalso. revert Eq.
      apply join_not_empty. eapply query_part_not_empty, Hp.
    + intros E. injection E as E. apply append_same_l in E.
      destruct (negb _); discriminate.
Qed.

End Statement.

Lemma parseReqline_sections_witness :
  exists segments (sections : list (string * string)),
    splitByPipes (JString "HTTP GET | URL http://x | BODY [1, 2]")
    = Return segments
    /\ segments = map (fun kv => fst kv ++ " " ++ snd kv) sections
    /\ incl (map fst sections) allowedKeywords
    /\ NoDup (map fst sections)
    /\ (2 <= List.length segments <= 5)%nat.
Proof.
  apply (parseReqline_sections (H := Reference.runtime)
           (JString "HTTP GET | URL http://x | BODY [1, 2]")
           {| method := "GET"; url := "http://x";
              headers := JObject []; query := JObject [];
              body := JArray [JNumber 1; JNumber 2];
              full_url := "http://x" |}).
  vm_compute. reflexivity.
Defined.

Lemma parseReqline_errors_witness :
  ((In (InvalidJSON "QUERY") parse_errors /\ InvalidJSON "QUERY" <> "")
   \/ exists segments st v key,
        splitByPipes (JString "HTTP GET | URL http://x | QUERY {a:1}")
        = Return segments
        /\ parse_segments (H := Reference.runtime) initial_locals segments
           = Return st
        /\ In ("QUERY " ++ v) segments
        /\ JSON_parse (JSRuntime := Reference.runtime) v = Return (l_query st)
        /\ In key (Object_keys (l_query st))
        /\ query_part (H := Reference.runtime) (l_query st) key
           = Throw (InvalidJSON "QUERY"))
  /\ ((In Reference.NotPrimitive parse_errors /\ Reference.NotPrimitive <> "")
      \/ exists segments st v key,
           splitByPipes
             (JString ("HTTP GET | URL http://x | QUERY {" ++ quoted "a" ++ ":{"
                       ++ quoted "toString" ++ ":1}}"))
           = Return segments
           /\ parse_segments (H := Reference.runtime) initial_locals segments
              = Return st
           /\ In ("QUERY " ++ v) segments
           /\ JSON_parse (JSRuntime := Reference.runtime) v = Return (l_query st)
           /\ In key (Object_keys (l_query st))
           /\ query_part (H := Reference.runtime) (l_query st) key
              = Throw Reference.NotPrimitive).
Proof.
  split.
  - apply (parseReqline_errors (H := Reference.runtime)
             (JString "HTTP GET | URL http://x | QUERY {a:1}")).
    vm_compute. reflexivity.
  - apply (parseReqline_errors (H := Reference.runtime)
             (JString ("HTTP GET | URL http://x | QUERY {" ++ quoted "a" ++ ":{"
                       ++ quoted "toString" ++ ":1}}"))).
    vm_compute. reflexivity.
Defined.

Lemma parseReqline_full_url_witness :
  constructFullURL (H := Reference.runtime) "http://x/y?z=1" (JArray [JNumber 7])
  = Return "http://x/y?z=1&0=7".
Proof.
  apply (parseReqline_full_url (H := Reference.runtime)
           (JString "HTTP GET | URL http://x/y?z=1 | QUERY [7]")
           {| method := "GET"; url := "http://x/y?z=1";
              headers := JObject []; query := JArray [JNumber 7];
              body := JObject [];
              full_url := "http://x/y?z=1&0=7" |}).
  vm_compute. reflexivity.
Defined.

(** ** The handler, once the statement has parsed *)

Section HandlerRuns.

Context `{JSRuntime}.
Variable host : Host.

(** X17.  Whether the handler calls the HTTP client is decided by the parse
    alone: no call when the reqline is not a string or does not parse, and
    exactly one call when it parses, whatever the answer then is: [get] with
    the full URL and the headers for a GET, [post] with the full URL, the
    body and the headers for a POST.  The body of a GET statement is never
    sent, and an answer 200 always stands for one call. *)
Theorem handler_calls (rc_body : JSValue) :
  (typeof (reqline_of rc_body) <> "string" -> calls (handler host rc_body) = [])
  /\ (forall m,
        parseReqline (reqline_of rc_body) = Throw m ->
        calls (handler host rc_body) = [])
  /\ (forall d,
        typeof (reqline_of rc_body) = "string" ->
        parseReqline (reqline_of rc_body) = Return d ->
        (method d = "GET"
         /\ calls (handler host rc_body)
            = [CallGet (full_url d) (JObject [("headers", headers d)])])
        \/ (method d = "POST"
            /\ calls (handler host rc_body)
               = [CallPost (full_url d) (body d)
                    (JObject [("headers", headers d)])]))
  /\ (status (response (handler host rc_body)) = 200 ->
      exists call, calls (handler host rc_body) = [call]).
Proof.
  assert (P : forall d,
            typeof (reqline_of rc_body) = "string" ->
            parseReqline (reqline_of rc_body) = Return d ->
            calls (handler host rc_body) = [client_call d]).
  { intros d Ht Hp. rewrite (handler_parsed _ _ d Ht Hp).
    destruct (settle _) as [[hs rd]|m]; reflexivity. }
  split; [|split; [|split]].
  - intros Ht. now rewrite handler_not_string.
  - intros m Hp.
    destruct (string_dec (typeof (reqline_of rc_body)) "string") as [Ht|Ht].
    + now rewrite (handler_parse_error _ _ m Ht Hp).
    + now rewrite handler_not_string.
  - intros d Ht Hp. rewrite (P d Ht Hp).
    destruct (parseReqline_Return _ _ Hp)
      as (_ & st & m & u & full & _ & _ & _ & _ & Hd & Hm & HM & _).
    assert (Hmethod : method d = "GET" \/ method d = "POST")
      by (subst d; cbn [method]; now rewrite Hm).
    unfold client_call.
    destruct Hmethod as [E | E]; rewrite E; [left|right]; now split.
  - intros H200.
    destruct (string_dec (typeof (reqline_of rc_body)) "string") as [Ht|Ht].
    + destruct (parseReqline (reqline_of rc_body)) as [d|m] eqn:Hp.
      * exists (client_call d). now apply P.
      * rewrite (handler_parse_error _ _ m Ht Hp) in H200. discriminate.
    + rewrite handler_not_string in H200 by assumption. discriminate.
Qed.


(** X19.  The message of a 400 answer: one of the seventeen messages of the
    parser, or the message of an error of the host, with the generic message
    in its place when that one is empty.  The host throws in two places:
    while the full URL is built from sections that are all valid, and when
    the [catch] block reads [e.message] of a client that rejected with
    [undefined] or [null].  The generic message is sent in no other case. *)
Theorem handler_message (rc_body : JSValue) :
  status (response (handler host rc_body)) = 400 ->
  exists m,
    response (handler host rc_body)
    = {| status := 400;
         data := JObject [("error", JBool true);
                          ("message", JString (message_or_generic m))] |}
    /\ ((In m parse_errors /\ message_or_generic m = m /\ m <> GenericFailure)
        \/ (exists segments st,
              splitByPipes (reqline_of rc_body) = Return segments
              /\ order_ok segments = true
              /\ parse_segments initial_locals segments = Return st
              /\ buildQueryString (l_query st) = Throw m)
        \/ (exists d e,
              parseReqline (reqline_of rc_body) = Return d
              /\ client_outcome host d = Rejected e
              /\ nullish e = true
              /\ m = TypeError_property e "message")).
Proof.
  intros H400.
  assert (Hg : forall m, In m parse_errors ->
                 In m parse_errors /\ message_or_generic m = m
                 /\ m <> GenericFailure).
  { intros m Hin. split; [exact Hin|].
    unfold parse_errors in Hin. simpl in Hin.
    repeat destruct Hin as [<-|Hin]; try (split; [reflexivity|discriminate]).
    destruct Hin. }
  destruct (string_dec (typeof (reqline_of rc_body)) "string") as [Ht|Ht].
  - destruct (parseReqline (reqline_of rc_body)) as [d|m] eqn:Hp.
    + rewrite (handler_parsed _ _ d Ht Hp) in H400 |- *.
      destruct (settle (client_outcome host d)) as [[hs rd]|m] eqn:Es;
        [discriminate|].
      apply settle_Throw in Es as (e & Ho & N & ->).
      exists (TypeError_property e "message"). split; [reflexivity|].
      right. right. now exists d, e.
    + exists m. split; [now rewrite (handler_parse_error _ _ m Ht Hp)|].
      destruct (parseReqline_Throw_known _ _ Hp) as [Hin|Hq].
      * left. now apply Hg.
      * right. left. exact Hq.
  - exists InvalidInput. split; [now rewrite handler_not_string|].
    left. apply Hg. simpl. auto.
Qed.

End HandlerRuns.

Lemma handler_calls_witness :
  calls (handler (H := Reference.runtime) refusing_host
           (JObject [("reqline", JString "HTTP PUT | URL http://x")])) = []
  /\ calls (handler (H := Reference.runtime) (rejecting_host JNull)
              (JObject [("reqline",
                         JString "HTTP POST | URL http://x | BODY [1]")]))
     = [CallPost "http://x" (JArray [JNumber 1])
          (JObject [("headers", JObject [])])]
  /\ status (response (handler (H := Reference.runtime) (rejecting_host JNull)
                         (JObject [("reqline",
                                    JString "HTTP POST | URL http://x | BODY [1]")])))
     = 400.
Proof.
  split; [|split].
  - apply (proj1 (proj2 (handler_calls (H := Reference.runtime) refusing_host
                           (JObject [("reqline", JString "HTTP PUT | URL http://x")])))
             InvalidMethod).
    vm_compute. reflexivity.
  - destruct (proj1 (proj2 (proj2
                (handler_calls (H := Reference.runtime) (rejecting_host JNull)
                   (JObject [("reqline",
                              JString "HTTP POST | URL http://x | BODY [1]")]))))
                {| method := "POST"; url := "http://x";
                   headers := JObject []; query := JObject [];
                   body := JArray [JNumber 1]; full_url := "http://x" |}
                ltac:(vm_compute; reflexivity) ltac:(vm_compute; reflexivity))
      as [[Hm _]|[_ Hc]]; [discriminate Hm|exact Hc].
  - vm_compute. reflexivity.
Defined.


Lemma handler_message_witness :
  exists m,
    response (handler (H := Reference.runtime) refusing_host
                (JObject [("reqline", JString "HTTP GET | URL")]))
    = {| status := 400;
         data := JObject [("error", JBool true);
                          ("message", JString (message_or_generic m))] |}
    /\ ((In m parse_errors /\ message_or_generic m = m /\ m <> GenericFailure)
        \/ (exists segments st,
              splitByPipes
                (reqline_of (JObject [("reqline", JString "HTTP GET | URL")]))
              = Return segments
              /\ order_ok segments = true
              /\ parse_segments (H := Reference.runtime) initial_locals segments
                 = Return st
              /\ buildQueryString (H := Reference.runtime) (l_query st) = Throw m)
        \/ (exists d e,
              parseReqline (H := Reference.runtime)
                (reqline_of (JObject [("reqline", JString "HTTP GET | URL")]))
              = Return d
              /\ client_outcome refusing_host d = Rejected e
              /\ nullish e = true
              /\ m = Reference.TypeError_property e "message")).
Proof.
  apply (handler_message (H := Reference.runtime) refusing_host
           (JObject [("reqline", JString "HTTP GET | URL")])).
  vm_compute. reflexivity.
Defined.

(** ** Statements that parse *)

Lemma plain_section (kw v : string) :
  In kw allowedKeywords -> plain_segment v -> plain_segment (kw ++ " " ++ v).
Proof.
  intros Hkw (Hv & Hp & Hf & Hl).
  assert (Lv : 1 <= strlen v).
  { pose proof (strlen_nonneg v).
    destruct (Z.eq_dec (strlen v) 0) as [E|E]; [now apply strlen_zero in E|lia]. }
  pose proof (strlen_nonneg kw) as Nk.
  assert (Lk : 1 <= strlen kw)
    by (destruct Hkw as [<-|[<-|[<-|[<-|[<-|[]]]]]]; vm_compute; discriminate).
  repeat split.
  - destruct Hkw as [<-|[<-|[<-|[<-|[<-|[]]]]]]; discriminate.
  - destruct Hkw as [<-|[<-|[<-|[<-|[<-|[]]]]]]; exact Hp.
  - rewrite char_at_app_l by lia.
    destruct Hkw as [<-|[<-|[<-|[<-|[<-|[]]]]]]; reflexivity.
  - rewrite <- (append_assoc kw " " v), strlen_app.
    rewrite (char_at_app_r (kw ++ " ") v) by lia.
    replace (strlen (kw ++ " ") + strlen v - 1 - strlen (kw ++ " "))
      with (strlen v - 1) by lia.
    exact Hl.
Qed.

Section Acceptance.

Context `{JSRuntime}.

(** The loop accepts any HEADERS, QUERY and BODY sections, in any order, as
    long as none was seen, none is repeated and each value is JSON. *)
Lemma parse_segments_optional (opts : list (string * string)) :
  forall st,
    Forall (fun kv => In (fst kv) ["HEADERS"; "QUERY"; "BODY"]
                      /\ plain_segment (snd kv)
                      /\ exists j, JSON_parse (snd kv) = Return j) opts ->
    NoDup (map fst opts) ->
    (forall k, In k (map fst opts) -> is_seen st k = false) ->
    exists st',
      parse_segments st (map (fun kv => fst kv ++ " " ++ snd kv) opts)
      = Return st'
      /\ httpMethod st' = httpMethod st /\ baseURL st' = baseURL st.
Proof.
  induction opts as [|[k v] opts IH]; intros st Hall Hnd Hseen.
  - exists st. now repeat split.
  - inversion Hall as [|? ? (Hk & (Hv & _ & Hf & _) & j & Hj) Hall']; subst.
    inversion Hnd as [|? ? Hnotin Hnd']; subst.
    cbn [fst snd] in *. cbn [map parse_segments fst snd].
    assert (Ha : In k allowedKeywords)
      by (destruct Hk as [<-|[<-|[<-|[]]]]; simpl; auto 10).
    rewrite parse_segment_allowed, Hf by (auto; apply Hseen; now left).
    destruct (strlen v =? 0) eqn:E;
      [apply Z.eqb_eq, strlen_zero in E; contradiction|].
    assert (Hs : exists st1,
               store_section st k v = Return st1
               /\ seen st1 = k :: seen st
               /\ httpMethod st1 = httpMethod st /\ baseURL st1 = baseURL st).
    { unfold store_section.
      destruct Hk as [<-|[<-|[<-|[]]]]; cbn [String.eqb Ascii.eqb Bool.eqb];
        rewrite parseJSONStrict_named, Hj by (simpl; auto); cbn [bind];
        eexists; repeat split. }
    destruct Hs as (st1 & -> & Hs1 & Hm1 & Hu1). cbn [bind].
    destruct (IH st1 Hall' Hnd') as (st' & Hp & Hm & Hu).
    + intros k' Hin. unfold is_seen. rewrite Hs1. cbn [existsb].
      apply orb_false_iff. split.
      * apply String.eqb_neq. intros ->. contradiction.
      * apply Hseen. now right.
    + exists st'. repeat split; [exact Hp|congruence|congruence].
Qed.

(** X20.  Every statement made of an HTTP section with method [GET] or
    [POST], a URL section, and then HEADERS, QUERY and BODY sections in any
    order, each at most once and each with a JSON value (the values being
    plain: not empty, no pipe, no space at either end), passes every check
    of the parser.  It parses exactly when the URL builder returns for the
    url and the decoded QUERY value, and has the error of the builder
    otherwise; the descriptor has that method and that url, each of the
    three fields is the decoded value of its section or the empty object,
    and the full URL is the one built.  Without a QUERY section the
    statement always parses, and the full URL is the url. *)
Theorem parseReqline_accepts (M u : string) (opts : list (string * string)) :
  M = "GET" \/ M = "POST" ->
  plain_segment u ->
  Forall (fun kv => In (fst kv) ["HEADERS"; "QUERY"; "BODY"]
                    /\ plain_segment (snd kv)
                    /\ exists j, JSON_parse (snd kv) = Return j) opts ->
  NoDup (map fst opts) ->
  let statement :=
    JString (join " | " (("HTTP " ++ M) :: ("URL " ++ u)
                           :: map (fun kv => fst kv ++ " " ++ snd kv) opts)) in
  exists h q b,
    (forall v, In ("HEADERS", v) opts -> JSON_parse v = Return h)
    /\ ((forall v, ~ In ("HEADERS", v) opts) -> h = JObject [])
    /\ (forall v, In ("QUERY", v) opts -> JSON_parse v = Return q)
    /\ ((forall v, ~ In ("QUERY", v) opts) -> q = JObject [])
    /\ (forall v, In ("BODY", v) opts -> JSON_parse v = Return b)
    /\ ((forall v, ~ In ("BODY", v) opts) -> b = JObject [])
    /\ parseReqline statement
       = (let* fullURL := constructFullURL u q in
          Return {| method := M; url := u; headers := h; query := q; body := b;
                    full_url := fullURL |})
    /\ ((forall v, ~ In ("QUERY", v) opts) ->
        parseReqline statement
        = Return {| method := M; url := u; headers := h; query := q; body := b;
                    full_url := u |}).
Proof.
  intros HM Hu Hall Hnd statement. unfold statement. clear statement.
  set (segments := ("HTTP " ++ M) :: ("URL " ++ u)
                     :: map (fun kv => fst kv ++ " " ++ snd kv) opts).
  assert (Hplain : Forall plain_segment segments).
  { constructor; [now apply plain_HTTP_segment|].
    constructor; [now apply plain_URL_segment|].
    rewrite Forall_forall in Hall |- *. intros seg Hin.
    apply in_map_iff in Hin as ([k v] & <- & Hin).
    destruct (Hall _ Hin) as (Hk & Hv & _). cbn [fst snd] in *.
    apply plain_section; [|exact Hv].
    destruct Hk as [<-|[<-|[<-|[]]]]; simpl; auto 10. }
  assert (Hopt : forall k, In k (map fst opts) ->
                           In k ["HEADERS"; "QUERY"; "BODY"]).
  { intros k Hin. apply in_map_iff in Hin as (kv & <- & Hin).
    rewrite Forall_forall in Hall. now destruct (Hall _ Hin). }
  assert (O1 : not_section (Some ("HTTP " ++ M)) 4 "HTTP" = false)
    by (destruct HM as [-> | ->]; reflexivity).
  assert (O2 : not_section (Some ("URL " ++ u)) 3 "URL" = false).
  { unfold not_section. change 3 with (strlen "URL").
    change ("URL " ++ u) with ("URL" ++ " " ++ u).
    rewrite slice_prefix. reflexivity. }
  assert (Ep : exists st,
             parse_segments initial_locals segments = Return st
             /\ httpMethod st = M /\ baseURL st = u).
  { unfold segments. cbn [parse_segments].
    rewrite parse_segment_HTTP by (assumption || reflexivity). cbn [bind].
    destruct Hu as (Hne & _ & Hfirst & _).
    rewrite parse_segment_URL by (assumption || reflexivity). cbn [bind].
    match goal with
    | |- exists st, parse_segments ?st1 _ = _ /\ _ =>
        destruct (parse_segments_optional opts st1 Hall Hnd)
          as (st' & Hp & Hm & Hb)
    end.
    - intros k Hin. apply Hopt in Hin.
      destruct Hin as [<-|[<-|[<-|[]]]]; reflexivity.
    - exists st'. repeat split; assumption. }
  destruct Ep as (st & Ep & Hm & Hb).
  assert (Present : forall k v,
            In k ["HEADERS"; "QUERY"; "BODY"] -> In (k, v) opts ->
            JSON_parse v = Return (slot k st)).
  { intros k v Hk Hin.
    destruct (parse_segments_present segments _ _ k v Ep) as [_ D].
    - destruct Hk as [<-|[<-|[<-|[]]]]; reflexivity.
    - right. right. apply in_map_iff. now exists (k, v).
    - destruct Hk as [<-|[<-|[<-|[]]]]; exact D. }
  assert (Absent : forall k,
            In k ["HEADERS"; "QUERY"; "BODY"] ->
            (forall v, ~ In (k, v) opts) -> slot k st = JObject []).
  { intros k Hk Hno.
    destruct (parse_segments_absent segments _ _ k Ep) as [_ D].
    - destruct Hk as [<-|[<-|[<-|[]]]]; reflexivity.
    - intros v [E|[E|Hin]].
      + destruct HM as [-> | ->];
          destruct Hk as [<-|[<-|[<-|[]]]]; discriminate E.
      + destruct Hk as [<-|[<-|[<-|[]]]]; discriminate E.
      + apply in_map_iff in Hin as ([k' v'] & E & Hin). cbn [fst snd] in E.
        assert (Hk' : has_char " " k' = false).
        { assert (Hin' : In k' (map fst opts))
            by (apply in_map_iff; now exists (k', v')).
          apply Hopt in Hin'. destruct Hin' as [<-|[<-|[<-|[]]]]; reflexivity. }
        assert (Hks : has_char " " k = false)
          by (destruct Hk as [<-|[<-|[<-|[]]]]; reflexivity).
        destruct (segment_split_unique _ _ _ _ Hk' Hks E) as [-> ->].
        now apply (Hno v).
    - rewrite D. destruct Hk as [<-|[<-|[<-|[]]]]; reflexivity. }
  assert (Parse : parseReqline (JString (join " | " segments))
                  = (let* fullURL := constructFullURL u (l_query st) in
                     Return {| method := M; url := u; headers := l_headers st;
                               query := l_query st; body := l_body st;
                               full_url := fullURL |})).
  { unfold parseReqline.
    rewrite splitByPipes_joined by (assumption || discriminate).
    cbn [bind]. unfold segments at 1 2. cbn [nth_error].
    rewrite O1, O2, Ep. cbn [bind]. now rewrite Hm, Hb. }
  exists (l_headers st), (l_query st), (l_body st).
  split; [intros v; apply (Present "HEADERS"); simpl; auto|].
  split; [apply (Absent "HEADERS"); simpl; auto|].
  split; [intros v; apply (Present "QUERY"); simpl; auto|].
  split; [apply (Absent "QUERY"); simpl; auto|].
  split; [intros v; apply (Present "BODY"); simpl; auto|].
  split; [apply (Absent "BODY"); simpl; auto|].
  split; [exact Parse|].
  intros Hno. rewrite Parse.
  assert (Q : l_query st = JObject [])
    by (apply (Absent "QUERY"); simpl; auto).
  rewrite Q. reflexivity.
Qed.

End Acceptance.

Lemma parseReqline_accepts_witness :
  exists h q b,
    (forall v, In ("HEADERS", v) [("QUERY", "[7]"); ("HEADERS", "{}")] ->
               JSON_parse (JSRuntime := Reference.runtime) v = Return h)
    /\ ((forall v, ~ In ("HEADERS", v) [("QUERY", "[7]"); ("HEADERS", "{}")]) ->
        h = JObject [])
    /\ (forall v, In ("QUERY", v) [("QUERY", "[7]"); ("HEADERS", "{}")] ->
                  JSON_parse (JSRuntime := Reference.runtime) v = Return q)
    /\ ((forall v, ~ In ("QUERY", v) [("QUERY", "[7]"); ("HEADERS", "{}")]) ->
        q = JObject [])
    /\ (forall v, In ("BODY", v) [("QUERY", "[7]"); ("HEADERS", "{}")] ->
                  JSON_parse (JSRuntime := Reference.runtime) v = Return b)
    /\ ((forall v, ~ In ("BODY", v) [("QUERY", "[7]"); ("HEADERS", "{}")]) ->
        b = JObject [])
    /\ parseReqline (H := Reference.runtime)
         (JString "HTTP POST | URL http://x | QUERY [7] | HEADERS {}")
       = (let* fullURL := constructFullURL (H := Reference.runtime) "http://x" q in
          Return {| method := "POST"; url := "http://x"; headers := h;
                    query := q; body := b; full_url := fullURL |})
    /\ ((forall v, ~ In ("QUERY", v) [("QUERY", "[7]"); ("HEADERS", "{}")]) ->
        parseReqline (H := Reference.runtime)
          (JString "HTTP POST | URL http://x | QUERY [7] | HEADERS {}")
        = Return {| method := "POST"; url := "http://x"; headers := h;
                    query := q; body := b; full_url := "http://x" |}).
Proof.
  apply (parseReqline_accepts (H := Reference.runtime) "POST" "http://x"
           [("QUERY", "[7]"); ("HEADERS", "{}")]).
  - right. reflexivity.
  - repeat split; discriminate.
  - constructor; [|constructor; [|constructor]].
    + split; [simpl; auto|]. split; [repeat split; discriminate|].
      exists (JArray [JNumber 7]). vm_compute. reflexivity.
    + split; [simpl; auto|]. split; [repeat split; discriminate|].
      exists (JObject []). vm_compute. reflexivity.
  - constructor; [simpl; intuition discriminate|].
    constructor; [simpl; intuition|constructor].
Defined.

(** ** The first error wins *)

Section FirstError.

Context `{JSRuntime}.

(** X21.  In a statement that passes the order checks, the first segment
    that the loop refuses decides the error: the segments before it have
    been accepted, and nothing after it is looked at. *)
Theorem parseReqline_first_error (statement : JSValue)
  (pre post : list string) (segment m : string) (st : Locals) :
  splitByPipes statement = Return (pre ++ segment :: post)%list ->
  order_ok (pre ++ segment :: post)%list = true ->
  parse_segments initial_locals pre = Return st ->
  parse_segment st segment = Throw m ->
  parseReqline statement = Throw m.
Proof.
  intros Hs Ho Hpre Hseg. unfold parseReqline. rewrite Hs. cbn [bind].
  unfold order_ok in Ho. apply andb_true_iff in Ho as [O1 O2].
  apply negb_true_iff in O1, O2. rewrite O1, O2.
  rewrite parse_segments_app, Hpre. cbn [bind parse_segments].
  now rewrite Hseg.
Qed.

(** X22.  A section whose keyword was seen in an earlier segment of the
    statement fails with the duplicate-section error that names the keyword,
    whatever its value: the value is not validated and, for the JSON
    sections, not decoded. *)
Theorem parseReqline_duplicate (statement : JSValue)
  (pre post : list string) (st : Locals) (kw v : string) :
  In kw allowedKeywords ->
  splitByPipes statement = Return (pre ++ (kw ++ " " ++ v)%string :: post)%list ->
  order_ok (pre ++ (kw ++ " " ++ v)%string :: post)%list = true ->
  parse_segments initial_locals pre = Return st ->
  is_seen st kw = true ->
  parseReqline statement = Throw (DuplicateSection kw).
Proof.
  intros Hkw Hs Ho Hpre Hseen. unfold parseReqline. rewrite Hs. cbn [bind].
  unfold order_ok in Ho. apply andb_true_iff in Ho as [O1 O2].
  apply negb_true_iff in O1, O2. rewrite O1, O2.
  now rewrite (duplicate_in_loop pre post initial_locals st kw v).
Qed.

End FirstError.

Lemma parseReqline_first_error_witness :
  parseReqline (H := Reference.runtime)
    (JString "HTTP GET | URL http://x | QUERY {bad} | BODY {worse} | FOO")
  = Throw (InvalidJSON "QUERY").
Proof.
  apply (parseReqline_first_error (H := Reference.runtime)
           (JString "HTTP GET | URL http://x | QUERY {bad} | BODY {worse} | FOO")
           ["HTTP GET"; "URL http://x"] ["BODY {worse}"; "FOO"]
           "QUERY {bad}" (InvalidJSON "QUERY")
           {| seen := ["URL"; "HTTP"]; httpMethod := "GET";
              baseURL := "http://x"; l_headers := JObject [];
              l_query := JObject []; l_body := JObject [] |});
    vm_compute; reflexivity.
Defined.

Lemma parseReqline_duplicate_witness :
  parseReqline (H := Reference.runtime)
    (JString "HTTP GET | URL http://x | BODY {} | BODY {bad}")
  = Throw (DuplicateSection "BODY").
Proof.
  apply (parseReqline_duplicate (H := Reference.runtime)
           (JString "HTTP GET | URL http://x | BODY {} | BODY {bad}")
           ["HTTP GET"; "URL http://x"; "BODY {}"] []
           {| seen := ["BODY"; "URL"; "HTTP"]; httpMethod := "GET";
              baseURL := "http://x"; l_headers := JObject [];
              l_query := JObject []; l_body := JObject [] |}
           "BODY" "{bad}").
  - simpl. auto 10.
  - vm_compute. reflexivity.
  - vm_compute. reflexivity.
  - vm_compute. reflexivity.
  - vm_compute. reflexivity.
Defined.
